(** * Symitar synchronization action: the orchestrator, the license
      validator and the directory-type registry, embedded in Rocq.

    Source files embedded here:
    - [src/directory-config.ts]  (module [DirectoryConfig]),
    - [src/subscription.ts]      (module [Subscription]),
    - [src/synchronize.ts]       (module [Synchronize]; its later revision,
      which talks to the [syncFiles] API, is module [SynchronizeSyncFiles]),
    - [src/main.ts]              (module [Main], the entry point of the
      action, over the earlier revision of the orchestrator).

    Effects (network, timers, console, the transport client) are made
    explicit: a program is a function from the trace of events so far to an
    outcome (a returned value or a thrown value) and the extended trace.
    What the outside world answers is read from an environment record. *)

From Stdlib Require Import String Ascii ZArith NArith Arith Bool Lia List.
From Stdlib Require Import DecimalString.
Import ListNotations.

Local Open Scope Z_scope.
Set Warnings "-register-all".

(* ------------------------------------------------------------------ *)
(** ** JavaScript strings *)

(** A JavaScript string is a sequence of UTF-16 code units. *)
Definition jsstring := list N.

(** An ASCII literal of the source. *)
Definition js (s : string) : jsstring :=
  map N_of_ascii (list_ascii_of_string s).

(** Template-literal rendering of an integral number. *)
Definition js_of_Z (z : Z) : jsstring :=
  js (NilZero.string_of_int (Z.to_int z)).

Definition js_of_nat (n : nat) : jsstring := js_of_Z (Z.of_nat n).

(** ECMAScript [WhiteSpace] and [LineTerminator] code points, the ones
    [String.prototype.trim] strips. *)
Definition isWhiteSpace (c : N) : bool :=
  let c := Z.of_N c in
  (c =? 0x09) || (c =? 0x0A) || (c =? 0x0B) || (c =? 0x0C) || (c =? 0x0D)
  || (c =? 0x20) || (c =? 0xA0) || (c =? 0x1680)
  || ((0x2000 <=? c) && (c <=? 0x200A))
  || (c =? 0x2028) || (c =? 0x2029) || (c =? 0x202F) || (c =? 0x205F)
  || (c =? 0x3000) || (c =? 0xFEFF).

Fixpoint trimStart (s : jsstring) : jsstring :=
  match s with
  | [] => []
  | c :: s' => if isWhiteSpace c then trimStart s' else s
  end.

Definition trimEnd (s : jsstring) : jsstring := rev (trimStart (rev s)).

(** [s.trim()] *)
Definition trim (s : jsstring) : jsstring := trimEnd (trimStart s).

(** Strict equality [===] of two strings. *)
Fixpoint jsstring_eqb (a b : jsstring) : bool :=
  match a, b with
  | [], [] => true
  | x :: a', y :: b' => (x =? y)%N && jsstring_eqb a' b'
  | _, _ => false
  end.

(** Truthiness of a string: only the empty string is falsy. *)
Definition truthy (s : jsstring) : bool :=
  match s with [] => false | _ :: _ => true end.

(** [s.toUpperCase()] on the ASCII range. *)
Definition toUpperCase (s : jsstring) : jsstring :=
  map (fun c => if (97 <=? c)%N && (c <=? 122)%N then (c - 32)%N else c) s.

(* ------------------------------------------------------------------ *)
(** ** The types of the package [@libum-llc/symitar] the action imports *)

Module Symitar.

Inductive SymitarSyncDirectory :=
| REPWRITERSPECS | LETTERSPECS | DATAFILES | HELPFILES.

Inductive SymitarSyncMode := PUSH | PULL | MIRROR.

Inductive SymitarSyncTransport := SFTP | RSYNC.

(** What [synchronizeFiles] resolves to: four file-name lists. *)
Record SymitarSyncResponse := {
  deployed : list jsstring;
  deleted : list jsstring;
  installed : list jsstring;
  uninstalled : list jsstring
}.

(** What [syncFiles] resolves to; [installed] and [uninstalled] are
    optional there. *)
Record SyncFilesResult := {
  synced : list jsstring;
  sf_deleted : list jsstring;
  sf_installed : option (list jsstring);
  sf_uninstalled : option (list jsstring)
}.

Record PowerOnOptions := {
  installList : list jsstring;
  validateIgnoreList : list jsstring
}.

Record SyncFilesOptions := {
  transport : SymitarSyncTransport;
  concurrency : Z;
  powerOn : PowerOnOptions
}.

(** The credentials object both clients take. *)
Record SymitarConfig := {
  sc_symNumber : Z;
  sc_symitarUserNumber : jsstring;
  sc_symitarUserPassword : jsstring
}.

(** The SSH settings handed to the HTTPS client. *)
Record SshSettings := {
  ss_port : Z;
  ss_username : jsstring;
  ss_password : jsstring
}.

(** The connection object handed to the SSH client. *)
Record SshConnection := {
  host : jsstring;
  port : Z;
  username : jsstring;
  password : jsstring
}.

End Symitar.

(* ------------------------------------------------------------------ *)
(** ** src/directory-config.ts *)

Module DirectoryConfig.
Import Symitar.

Record DirectoryTypeConfig := {
  name : jsstring;
  symitarDirectory : SymitarSyncDirectory;
  defaultPath : jsstring;
  supportsInstall : bool
}.

Inductive DirectoryType := powerOns | letterFiles | dataFiles | helpFiles.

Definition DIRECTORY_CONFIG (t : DirectoryType) : DirectoryTypeConfig :=
  match t with
  | powerOns =>
      {| name := js "PowerOns"; symitarDirectory := REPWRITERSPECS;
         defaultPath := js "REPWRITERSPECS/"; supportsInstall := true |}
  | letterFiles =>
      {| name := js "LetterFiles"; symitarDirectory := LETTERSPECS;
         defaultPath := js "LETTERSPECS/"; supportsInstall := false |}
  | dataFiles =>
      {| name := js "DataFiles"; symitarDirectory := DATAFILES;
         defaultPath := js "DATAFILES/"; supportsInstall := false |}
  | helpFiles =>
      {| name := js "HelpFiles"; symitarDirectory := HELPFILES;
         defaultPath := js "HELPFILES/"; supportsInstall := false |}
  end.

(** [getDirectoryConfig] at a value of type [DirectoryType]: the check
    [isValidDirectoryType] holds for the four keys, so the throwing
    branch is not taken and the entry is returned. *)
Definition getDirectoryConfig (t : DirectoryType) : DirectoryTypeConfig :=
  DIRECTORY_CONFIG t.

(** [inputPath] is optional; [if (inputPath)] is false for [undefined]
    and for the empty string. *)
Definition getLocalDirectoryPath
    (directoryType : DirectoryType) (inputPath : option jsstring) : jsstring :=
  match inputPath with
  | Some p => if truthy p then p else defaultPath (DIRECTORY_CONFIG directoryType)
  | None => defaultPath (DIRECTORY_CONFIG directoryType)
  end.

Definition getInstallList
    (directoryType : DirectoryType) (installPowerOns : list jsstring)
  : list jsstring :=
  let config := DIRECTORY_CONFIG directoryType in
  if supportsInstall config then installPowerOns else [].

(** The argument of [calculateTotalChanges] is an object of four file
    lists, the shape of [Symitar.SymitarSyncResponse]. *)
Definition FileLists := SymitarSyncResponse.

Definition calculateTotalChanges
    (directoryType : DirectoryType) (result : FileLists) : nat :=
  let config := DIRECTORY_CONFIG directoryType in
  let baseChanges := (length (deployed result) + length (deleted result))%nat in
  if supportsInstall config
  then (baseChanges + length (installed result) + length (uninstalled result))%nat
  else baseChanges.

End DirectoryConfig.

(* ------------------------------------------------------------------ *)
(** ** Thrown values *)

(** Instances of [Error].  [AuthenticationError] and [ConnectionError]
    are the two classes of [src/subscription.ts]; [Error] stands for every
    other instance ([TypeError], an abort [DOMException], ...). *)
Inductive JsError :=
| AuthenticationError (message apiKey host : jsstring)
| ConnectionError (message host : jsstring) (port : Z) (isSSL : bool)
                  (originalError : option JsError)
| Error (message : jsstring).

(** Anything can be thrown: an [Error] instance, or another value, of
    which only [String(value)] is ever used. *)
Inductive Thrown :=
| ErrorObject (e : JsError)
| OtherValue (asString : jsstring).

Definition message_of (e : JsError) : jsstring :=
  match e with
  | AuthenticationError m _ _ => m
  | ConnectionError m _ _ _ _ => m
  | Error m => m
  end.

(** [error instanceof AuthenticationError] *)
Definition instanceofAuthenticationError (v : Thrown) : bool :=
  match v with ErrorObject (AuthenticationError _ _ _) => true | _ => false end.

(** [error instanceof ConnectionError] *)
Definition instanceofConnectionError (v : Thrown) : bool :=
  match v with ErrorObject (ConnectionError _ _ _ _ _) => true | _ => false end.

(** [error instanceof Error ? error.message : String(error)] *)
Definition errorMessage_of (v : Thrown) : jsstring :=
  match v with ErrorObject e => message_of e | OtherValue s => s end.

(** [error instanceof Error ? error : new Error(String(error))] *)
Definition asError (v : Thrown) : JsError :=
  match v with ErrorObject e => e | OtherValue s => Error s end.

(* ------------------------------------------------------------------ *)
(** ** What the outside world answers *)

Inductive JsonValue :=
| JNull
| JBool (b : bool)
| JNumber (literal : jsstring)
| JString (s : jsstring)
| JArray (items : list JsonValue)
| JObject (fields : list (jsstring * JsonValue)).

Inductive Outcome (A : Type) :=
| Returns (a : A)
| Throws (v : Thrown).
Arguments Returns {A} a.
Arguments Throws {A} v.

(** The [Response] of [fetch], as far as the validator reads it. *)
Record Response := {
  ok : bool;
  status : Z;
  statusText : jsstring;
  json : Outcome JsonValue
}.

Inductive FetchOutcome :=
| FetchRejects (v : Thrown)
| FetchResolves (r : Response).

(** The environment of one invocation: the process environment variables
    the validator reads, the outcome of the [k]-th call of [fetch]
    ([k = 1, 2, ...]), and what the transport client does. *)
Record World := {
  SST_STAGE_PREFIX : option jsstring;
  IS_SANDBOX : option jsstring;
  fetch_outcome : nat -> FetchOutcome;
  client_new : Outcome unit;
  client_isReady : Outcome unit;
  client_synchronizeFiles : Outcome Symitar.SymitarSyncResponse;
  client_syncFiles : Outcome Symitar.SyncFilesResult;
  client_end : Outcome unit
}.

(* ------------------------------------------------------------------ *)
(** ** Observable events *)

Inductive LogLevel := debug_level | info_level | warn_level.

Inductive Event :=
| ConsoleInfo (msg : jsstring)
| ConsoleError (msg : jsstring)
| CoreInfo (msg : jsstring)
| SetTimeoutAbort (ms : Z)
| ClearTimeout
| Fetch (url method : jsstring) (headers : list (jsstring * jsstring))
| AwaitTimeout (ms : Z)
| NewSymitarHTTPs (baseUrl : jsstring) (symitarConfig : Symitar.SymitarConfig)
                  (logLevel : LogLevel) (sshConfig : Symitar.SshSettings)
| NewSymitarSSH (connection : Symitar.SshConnection) (logLevel : LogLevel)
| AwaitIsReady
| HTTPsSynchronizeFiles (localDirectoryPath : jsstring)
    (installList : list jsstring) (isDryRun : bool)
    (symitarDirectory : Symitar.SymitarSyncDirectory)
    (syncMode : Symitar.SymitarSyncMode) (validateIgnoreList : list jsstring)
| SSHSynchronizeFiles (symitarConfig : Symitar.SymitarConfig)
    (localDirectoryPath : jsstring)
    (installList : list jsstring) (isDryRun : bool)
    (symitarDirectory : Symitar.SymitarSyncDirectory)
    (syncMode : Symitar.SymitarSyncMode) (validateIgnoreList : list jsstring)
| HTTPsSyncFiles (localDirectoryPath : jsstring)
    (symitarDirectory : Symitar.SymitarSyncDirectory)
    (syncMode : Symitar.SymitarSyncMode)
    (syncOptions : Symitar.SyncFilesOptions) (isDryRun : bool)
| SSHSyncFiles (symitarConfig : Symitar.SymitarConfig)
    (localDirectoryPath : jsstring)
    (symitarDirectory : Symitar.SymitarSyncDirectory)
    (syncMode : Symitar.SymitarSyncMode)
    (syncOptions : Symitar.SyncFilesOptions) (isDryRun : bool)
| ClientEnd.

Definition Trace := list Event.

Definition isFetch (e : Event) : bool :=
  match e with Fetch _ _ _ => true | _ => false end.

Definition isClientNew (e : Event) : bool :=
  match e with NewSymitarHTTPs _ _ _ _ | NewSymitarSSH _ _ => true | _ => false end.

Definition isClientEnd (e : Event) : bool :=
  match e with ClientEnd => true | _ => false end.

(** Number of calls of [fetch] in a trace. *)
Definition fetchCalls (t : Trace) : nat := length (filter isFetch t).

(** Number of calls of a transport-client constructor in a trace. *)
Definition clientsConstructed (t : Trace) : nat := length (filter isClientNew t).

(** Number of calls of [client.end()] in a trace. *)
Definition endCalls (t : Trace) : nat := length (filter isClientEnd t).

(** The delays waited between attempts, in order. *)
Fixpoint delaysWaited (t : Trace) : list Z :=
  match t with
  | [] => []
  | AwaitTimeout ms :: t' => ms :: delaysWaited t'
  | _ :: t' => delaysWaited t'
  end.

(* ------------------------------------------------------------------ *)
(** ** The monad of effectful code: a trace and exceptions *)

Definition M (A : Type) : Type := Trace -> Outcome A * Trace.

Definition ret {A} (a : A) : M A := fun t => (Returns a, t).

Definition bind {A B} (m : M A) (k : A -> M B) : M B := fun t =>
  match m t with
  | (Returns a, t') => k a t'
  | (Throws v, t') => (Throws v, t')
  end.

Definition throw {A} (v : Thrown) : M A := fun t => (Throws v, t).

Definition emit (e : Event) : M unit := fun t => (Returns tt, t ++ [e]).

(** Awaiting a promise of the environment whose outcome is [o]. *)
Definition await {A} (o : Outcome A) : M A := fun t => (o, t).

(** [try { body } catch (error) { handler }] *)
Definition try_catch {A} (body : M A) (handler : Thrown -> M A) : M A := fun t =>
  match body t with
  | (Returns a, t') => (Returns a, t')
  | (Throws v, t') => handler v t'
  end.

(** [try { body } finally { fin }]: the finally block runs on every
    completion of [body]; when it throws, its exception replaces the
    completion of [body]. *)
Definition try_finally {A} (body : M A) (fin : M unit) : M A := fun t =>
  match body t with
  | (o, t') =>
      match fin t' with
      | (Returns _, t'') => (o, t'')
      | (Throws v, t'') => (Throws v, t'')
      end
  end.

(** A run from the empty trace. *)
Definition run {A} (m : M A) : Outcome A * Trace := m [].

Declare Scope eff_scope.
Delimit Scope eff_scope with eff.
Notation "x <- m ;; k" := (bind m (fun x => k))
  (at level 61, m at next level, right associativity) : eff_scope.
Notation "m ;; k" := (bind m (fun _ => k))
  (at level 61, right associativity) : eff_scope.
Local Open Scope eff_scope.

Definition console_info (msg : jsstring) : M unit := emit (ConsoleInfo msg).
Definition console_error (msg : jsstring) : M unit := emit (ConsoleError msg).
Definition core_info (msg : jsstring) : M unit := emit (CoreInfo msg).

(* ------------------------------------------------------------------ *)
(** ** src/subscription.ts *)

Module Subscription.

Definition API_REQUEST_TIMEOUT_MS : Z := 30000.

Definition MAX_API_RETRIES : nat := 3.

(** [process.env.SST_STAGE_PREFIX || ''] *)
Definition sstStagePrefix (w : World) : jsstring :=
  match SST_STAGE_PREFIX w with
  | Some p => if truthy p then p else []
  | None => []
  end.

(** [process.env.IS_SANDBOX === 'true'] *)
Definition isSandbox (w : World) : bool :=
  match IS_SANDBOX w with
  | Some v => jsstring_eqb v (js "true")
  | None => false
  end.

(** Property lookup in an object; the field list holds each own
    property once. *)
Fixpoint lookup (key : jsstring) (fields : list (jsstring * JsonValue))
  : option JsonValue :=
  match fields with
  | [] => None
  | (k, v) :: rest => if jsstring_eqb k key then Some v else lookup key rest
  end.

(** The type guard: an object (not [null]) that has a boolean [isFound]
    and an array [subscriptions].  An array is an object too, but has
    neither property. *)
Definition isSubscriptionResponse (data : JsonValue) : bool :=
  match data with
  | JObject fields =>
      match lookup (js "isFound") fields with
      | Some (JBool _) =>
          match lookup (js "subscriptions") fields with
          | Some (JArray _) => true
          | _ => false
          end
      | _ => false
      end
  | _ => false
  end.

(** [data.isFound], once the guard has passed. *)
Definition data_isFound (data : JsonValue) : bool :=
  match data with
  | JObject fields =>
      match lookup (js "isFound") fields with
      | Some (JBool b) => b
      | _ => false
      end
  | _ => false
  end.

(** [data.subscriptions], once the guard has passed. *)
Definition data_subscriptions (data : JsonValue) : list JsonValue :=
  match data with
  | JObject fields =>
      match lookup (js "subscriptions") fields with
      | Some (JArray items) => items
      | _ => []
      end
  | _ => []
  end.

Definition logPrefix : jsstring := js "[ValidateSubscription]".

(** The host name inside [url]. *)
Definition urlHost (w : World) : jsstring :=
  sstStagePrefix w ++ js "license"
    ++ (if isSandbox w then js ".libum-sandbox" else []) ++ js ".libum.io".

Definition url (w : World) : jsstring :=
  js "https://" ++ urlHost w
    ++ js "/subscriptionsByApiKey?product=poweron-pipelines".

(** [await fetch(url, { headers, signal, method: 'GET' })]: the outcome
    is the environment's answer to this call, counted from 1. *)
Definition fetch (w : World) (apiKey : jsstring) : M Response := fun t =>
  let t' := t ++ [Fetch (url w) (js "GET")
                    [(js "Content-Type", js "application/json");
                     (js "X-API-Key", apiKey)]] in
  match fetch_outcome w (S (fetchCalls t)) with
  | FetchRejects v => (Throws v, t')
  | FetchResolves r => (Returns r, t')
  end.

(** How one pass through the loop body ends when nothing is thrown. *)
Inductive Completion :=
| ReturnFromFunction
| NextIteration.

(** The [try] block of the loop body. *)
Definition try_block (w : World) (apiKey : jsstring) : M Completion :=
  response <- fetch w apiKey ;;
  if negb (ok response) then
    console_error (logPrefix ++ js " Failed to validate API key. Status: "
                     ++ js_of_Z (status response) ++ js ", Message: "
                     ++ statusText response) ;;
    throw (ErrorObject (AuthenticationError
             (js "Failed to validate API key: " ++ js_of_Z (status response)
                ++ js " " ++ statusText response)
             apiKey []))
  else
    data <- await (json response) ;;
    if negb (isSubscriptionResponse data) then
      throw (ErrorObject (AuthenticationError
               (js "Invalid response format from license server") apiKey []))
    else if negb (data_isFound data) then
      throw (ErrorObject (AuthenticationError
               (js "Provided API key was not found. Please make sure 'apiKey' is set properly in your workflow.")
               apiKey []))
    else if (length (data_subscriptions data) =? 0)%nat then
      throw (ErrorObject (AuthenticationError
               (js "No active subscription found for the provided API key.")
               apiKey []))
    else
      console_info (logPrefix ++ js " API key validation successful") ;;
      ret ReturnFromFunction.

(** [Math.min(500 * Math.pow(2, attempt - 1), 10000)] *)
Definition backoffDelay (attempt : nat) : Z :=
  Z.min (500 * 2 ^ (Z.of_nat attempt - 1)) 10000.

(** The [catch (error)] block of the loop body. *)
Definition catch_block (w : World) (attempt : nat) (error : Thrown)
  : M Completion :=
  let errorMessage := errorMessage_of error in
  console_error (logPrefix ++ js " Validation attempt " ++ js_of_nat attempt
                   ++ js " failed: " ++ errorMessage) ;;
  if instanceofAuthenticationError error
     || instanceofConnectionError error
     || (MAX_API_RETRIES <=? attempt)%nat
  then
    if instanceofAuthenticationError error || instanceofConnectionError error
    then throw error
    else
      throw (ErrorObject (ConnectionError
               (js "Failed to fetch PowerOn Pipelines API key subscription data after multiple attempts")
               (js "license" ++ (if isSandbox w then js ".libum-sandbox" else [])
                  ++ js ".libum.io")
               443
               true
               (Some (asError error))))
  else
    let delay := backoffDelay attempt in
    console_info (logPrefix ++ js " Retrying API key validation in "
                    ++ js_of_Z delay ++ js "ms...") ;;
    emit (AwaitTimeout delay) ;;
    ret NextIteration.

(** One pass through the body of the [for] loop. *)
Definition loop_body (w : World) (apiKey : jsstring) (attempt : nat)
  : M Completion :=
  emit (SetTimeoutAbort API_REQUEST_TIMEOUT_MS) ;;
  try_finally
    (try_catch (try_block w apiKey) (catch_block w attempt))
    (emit ClearTimeout).

(** [for (let attempt = 1; attempt <= MAX_API_RETRIES; attempt++)],
    entered at [attempt] with [remaining = MAX_API_RETRIES + 1 - attempt]
    passes left; with none left the loop ends and the function returns. *)
Fixpoint retry_loop (w : World) (apiKey : jsstring)
    (remaining attempt : nat) : M unit :=
  match remaining with
  | O => ret tt
  | S remaining' =>
      c <- loop_body w apiKey attempt ;;
      match c with
      | ReturnFromFunction => ret tt
      | NextIteration => retry_loop w apiKey remaining' (S attempt)
      end
  end.

Definition validateApiKey (w : World) (apiKey : jsstring) : M unit :=
  console_info (logPrefix ++ js " Validating API key") ;;
  if negb (truthy apiKey) || negb (truthy (trim apiKey)) then
    console_error (logPrefix ++ js " No API key provided. Please make sure 'apiKey' is set properly in your workflow.") ;;
    throw (ErrorObject (AuthenticationError
             (js "PowerOn Pipelines API Key is missing") apiKey []))
  else
    retry_loop w apiKey MAX_API_RETRIES 1.

End Subscription.

(* ------------------------------------------------------------------ *)
(** ** src/synchronize.ts *)

(** The types both revisions of the file share. *)
Inductive ConnectionType := https | ssh.

Inductive SyncMode := push | pull | mirror.

Definition ConnectionType_toString (c : ConnectionType) : jsstring :=
  match c with https => js "https" | ssh => js "ssh" end.

Definition SyncMode_toString (m : SyncMode) : jsstring :=
  match m with push => js "push" | pull => js "pull" | mirror => js "mirror" end.

(** [!config.symitarAppPort]: the port is absent ([undefined]) or is the
    number 0.  Ports are integral: the caller parses them with
    [parseInt]. *)
Definition port_missing (p : option Z) : bool :=
  match p with
  | None => true
  | Some z => z =? 0
  end.

(** A number inside a template literal; [undefined] never reaches one. *)
Definition js_of_port (p : option Z) : jsstring :=
  match p with Some z => js_of_Z z | None => js "undefined" end.

Record SynchronizeResult := {
  filesDeployed : nat;
  filesDeleted : nat;
  filesInstalled : nat;
  filesUninstalled : nat;
  deployedFiles : list jsstring;
  deletedFiles : list jsstring;
  installedFiles : list jsstring;
  uninstalledFiles : list jsstring
}.

(** The revision of [src/synchronize.ts] the test-suite exercises: the
    clients expose [synchronizeFiles]. *)
Module Synchronize.
Import Symitar DirectoryConfig.

Record SynchronizeConfig := {
  symitarHostname : jsstring;
  symNumber : Z;
  symitarUserNumber : jsstring;
  symitarUserPassword : jsstring;
  sshUsername : jsstring;
  sshPassword : jsstring;
  sshPort : Z;
  symitarAppPort : option Z;
  apiKey : jsstring;
  localDirectoryPath : jsstring;
  directoryType : DirectoryType;
  connectionType : ConnectionType;
  syncMode : SyncMode;
  isDryRun : bool;
  installPowerOnList : list jsstring;
  validateIgnoreList : list jsstring;
  debug : bool;
  logPrefix : jsstring
}.

(** On a [SyncMode] the [default] branch, which throws, is not taken. *)
Definition getSyncMode (mode : SyncMode) : SymitarSyncMode :=
  match mode with
  | push => PUSH
  | pull => PULL
  | mirror => MIRROR
  end.

Definition synchronizeViaHTTPs (w : World) (config : SynchronizeConfig)
    (symitarDirectory : SymitarSyncDirectory) (syncMode : SymitarSyncMode)
    (installList : list jsstring) : M SymitarSyncResponse :=
  if port_missing (symitarAppPort config) then
    throw (ErrorObject (Error
             (js "symitar-app-port is required when using HTTPS connection")))
  else
    let baseUrl := js "https://" ++ symitarHostname config ++ js ":"
                     ++ js_of_port (symitarAppPort config) in
    core_info (logPrefix config ++ js " Connecting to " ++ baseUrl ++ js "...") ;;
    let symitarConfig :=
      {| sc_symNumber := symNumber config;
         sc_symitarUserNumber := symitarUserNumber config;
         sc_symitarUserPassword := symitarUserPassword config |} in
    let sshConfig :=
      {| ss_port := sshPort config;
         ss_username := sshUsername config;
         ss_password := sshPassword config |} in
    emit (NewSymitarHTTPs baseUrl symitarConfig
            (if debug config then debug_level else info_level) sshConfig) ;;
    await (client_new w) ;;
    try_finally
      (core_info (logPrefix config ++ js " Starting synchronization"
                    ++ (if isDryRun config then js " (DRY RUN)" else [])
                    ++ js "...") ;;
       emit (HTTPsSynchronizeFiles (localDirectoryPath config) installList
               (isDryRun config) symitarDirectory syncMode
               (validateIgnoreList config)) ;;
       result <- await (client_synchronizeFiles w) ;;
       ret result)
      (core_info (logPrefix config ++ js " Closing connection...") ;;
       emit ClientEnd ;;
       await (client_end w)).

Definition synchronizeViaSSH (w : World) (config : SynchronizeConfig)
    (symitarDirectory : SymitarSyncDirectory) (syncMode : SymitarSyncMode)
    (installList : list jsstring) : M SymitarSyncResponse :=
  core_info (logPrefix config ++ js " Connecting to " ++ symitarHostname config
               ++ js ":" ++ js_of_Z (sshPort config) ++ js " via SSH...") ;;
  emit (NewSymitarSSH
          {| host := symitarHostname config;
             port := sshPort config;
             username := sshUsername config;
             password := sshPassword config |}
          (if debug config then debug_level else info_level)) ;;
  await (client_new w) ;;
  try_finally
    (emit AwaitIsReady ;;
     await (client_isReady w) ;;
     core_info (logPrefix config ++ js " Connected successfully") ;;
     core_info (logPrefix config ++ js " Starting synchronization"
                  ++ (if isDryRun config then js " (DRY RUN)" else [])
                  ++ js "...") ;;
     let symitarConfig :=
       {| sc_symNumber := symNumber config;
          sc_symitarUserNumber := symitarUserNumber config;
          sc_symitarUserPassword := symitarUserPassword config |} in
     emit (SSHSynchronizeFiles symitarConfig (localDirectoryPath config)
             installList (isDryRun config) symitarDirectory syncMode
             (validateIgnoreList config)) ;;
     result <- await (client_synchronizeFiles w) ;;
     ret result)
    (core_info (logPrefix config ++ js " Closing connection...") ;;
     emit ClientEnd ;;
     await (client_end w)).

(** The object literal [synchronizeToSymitar] returns. *)
Definition toSynchronizeResult (result : SymitarSyncResponse)
  : SynchronizeResult :=
  {| filesDeployed := length (deployed result);
     filesDeleted := length (deleted result);
     filesInstalled := length (installed result);
     filesUninstalled := length (uninstalled result);
     deployedFiles := deployed result;
     deletedFiles := deleted result;
     installedFiles := installed result;
     uninstalledFiles := uninstalled result |}.

Definition synchronizeToSymitar (w : World) (config : SynchronizeConfig)
  : M SynchronizeResult :=
  core_info (logPrefix config ++ js " Validating API key...") ;;
  Subscription.validateApiKey w (apiKey config) ;;
  let directoryConfig := getDirectoryConfig (directoryType config) in
  let installList :=
    getInstallList (directoryType config) (installPowerOnList config) in
  let syncMode_ := getSyncMode (syncMode config) in
  core_info (logPrefix config ++ js " Using "
               ++ toUpperCase (ConnectionType_toString (connectionType config))
               ++ js " connection") ;;
  core_info (logPrefix config ++ js " Beginning "
               ++ SyncMode_toString (syncMode config)
               ++ js " synchronization of " ++ name directoryConfig
               ++ js " for Sym " ++ js_of_Z (symNumber config)
               ++ (if isDryRun config then js " (Dry Run)" else [])) ;;
  result <-
    match connectionType config with
    | https =>
        synchronizeViaHTTPs w config (symitarDirectory directoryConfig)
          syncMode_ installList
    | ssh =>
        synchronizeViaSSH w config (symitarDirectory directoryConfig)
          syncMode_ installList
    end ;;
  ret (toSynchronizeResult result).

End Synchronize.

(** The later revision of [src/synchronize.ts]: the clients expose
    [syncFiles], which takes a [SyncFilesOptions] object and resolves to a
    [SyncFilesResult]. *)
Module SynchronizeSyncFiles.
Import Symitar DirectoryConfig.

Inductive SyncMethod := sftp | rsync.

Definition SyncMethod_toString (m : SyncMethod) : jsstring :=
  match m with sftp => js "sftp" | rsync => js "rsync" end.

Record SynchronizeConfig := {
  symitarHostname : jsstring;
  symNumber : Z;
  symitarUserNumber : jsstring;
  symitarUserPassword : jsstring;
  sshUsername : jsstring;
  sshPassword : jsstring;
  sshPort : Z;
  symitarAppPort : option Z;
  apiKey : jsstring;
  localDirectoryPath : jsstring;
  directoryType : DirectoryType;
  connectionType : ConnectionType;
  syncMode : SyncMode;
  syncMethod : SyncMethod;
  sftpConcurrency : Z;
  isDryRun : bool;
  installPowerOnList : list jsstring;
  validateIgnoreList : list jsstring;
  debug : bool;
  logPrefix : jsstring
}.

(** On a [SyncMode] the [default] branch, which throws, is not taken. *)
Definition getSyncMode (mode : SyncMode) : SymitarSyncMode :=
  match mode with
  | push => PUSH
  | pull => PULL
  | mirror => MIRROR
  end.

(** On a [SyncMethod] the [default] branch, which throws, is not taken. *)
Definition getSyncTransport (method : SyncMethod) : SymitarSyncTransport :=
  match method with
  | sftp => SFTP
  | rsync => RSYNC
  end.

Definition synchronizeViaHTTPs (w : World) (config : SynchronizeConfig)
    (symitarDirectory : SymitarSyncDirectory) (syncMode : SymitarSyncMode)
    (syncOptions : SyncFilesOptions) : M SyncFilesResult :=
  if port_missing (symitarAppPort config) then
    throw (ErrorObject (Error
             (js "symitar-app-port is required when using HTTPS connection")))
  else
    let baseUrl := js "https://" ++ symitarHostname config ++ js ":"
                     ++ js_of_port (symitarAppPort config) in
    core_info (logPrefix config ++ js " Connecting to " ++ baseUrl ++ js "...") ;;
    let symitarConfig :=
      {| sc_symNumber := symNumber config;
         sc_symitarUserNumber := symitarUserNumber config;
         sc_symitarUserPassword := symitarUserPassword config |} in
    let sshConfig :=
      {| ss_port := sshPort config;
         ss_username := sshUsername config;
         ss_password := sshPassword config |} in
    let logLevel := if debug config then debug_level else warn_level in
    emit (NewSymitarHTTPs baseUrl symitarConfig logLevel sshConfig) ;;
    await (client_new w) ;;
    try_finally
      (core_info (logPrefix config ++ js " Starting synchronization"
                    ++ (if isDryRun config then js " (DRY RUN)" else [])
                    ++ js "...") ;;
       emit (HTTPsSyncFiles (localDirectoryPath config) symitarDirectory
               syncMode syncOptions (isDryRun config)) ;;
       result <- await (client_syncFiles w) ;;
       ret result)
      (core_info (logPrefix config ++ js " Closing connection...") ;;
       emit ClientEnd ;;
       await (client_end w)).

Definition synchronizeViaSSH (w : World) (config : SynchronizeConfig)
    (symitarDirectory : SymitarSyncDirectory) (syncMode : SymitarSyncMode)
    (syncOptions : SyncFilesOptions) : M SyncFilesResult :=
  core_info (logPrefix config ++ js " Connecting to " ++ symitarHostname config
               ++ js ":" ++ js_of_Z (sshPort config) ++ js " via SSH...") ;;
  let logLevel := if debug config then debug_level else warn_level in
  emit (NewSymitarSSH
          {| host := symitarHostname config;
             port := sshPort config;
             username := sshUsername config;
             password := sshPassword config |}
          logLevel) ;;
  await (client_new w) ;;
  try_finally
    (emit AwaitIsReady ;;
     await (client_isReady w) ;;
     core_info (logPrefix config ++ js " Connected successfully") ;;
     core_info (logPrefix config ++ js " Starting synchronization"
                  ++ (if isDryRun config then js " (DRY RUN)" else [])
                  ++ js "...") ;;
     let symitarConfig :=
       {| sc_symNumber := symNumber config;
          sc_symitarUserNumber := symitarUserNumber config;
          sc_symitarUserPassword := symitarUserPassword config |} in
     emit (SSHSyncFiles symitarConfig (localDirectoryPath config)
             symitarDirectory syncMode syncOptions (isDryRun config)) ;;
     result <- await (client_syncFiles w) ;;
     ret result)
    (core_info (logPrefix config ++ js " Closing connection...") ;;
     emit ClientEnd ;;
     await (client_end w)).

(** [list?.length ?? 0] *)
Definition optional_length (l : option (list jsstring)) : nat :=
  match l with Some l' => length l' | None => 0%nat end.

(** [list ?? []] *)
Definition optional_list (l : option (list jsstring)) : list jsstring :=
  match l with Some l' => l' | None => [] end.

(** The object literal [synchronizeToSymitar] returns. *)
Definition toSynchronizeResult (result : SyncFilesResult)
  : SynchronizeResult :=
  {| filesDeployed := length (synced result);
     filesDeleted := length (sf_deleted result);
     filesInstalled := optional_length (sf_installed result);
     filesUninstalled := optional_length (sf_uninstalled result);
     deployedFiles := synced result;
     deletedFiles := sf_deleted result;
     installedFiles := optional_list (sf_installed result);
     uninstalledFiles := optional_list (sf_uninstalled result) |}.

Definition synchronizeToSymitar (w : World) (config : SynchronizeConfig)
  : M SynchronizeResult :=
  Subscription.validateApiKey w (apiKey config) ;;
  let directoryConfig := getDirectoryConfig (directoryType config) in
  let installList_ :=
    getInstallList (directoryType config) (installPowerOnList config) in
  let syncMode_ := getSyncMode (syncMode config) in
  let syncTransport := getSyncTransport (syncMethod config) in
  let syncOptions :=
    {| transport := syncTransport;
       concurrency := sftpConcurrency config;
       powerOn := {| installList := installList_;
                     Symitar.validateIgnoreList := validateIgnoreList config |} |} in
  core_info (logPrefix config ++ js " Using "
               ++ toUpperCase (ConnectionType_toString (connectionType config))
               ++ js " connection") ;;
  core_info (logPrefix config ++ js " Sync method: "
               ++ toUpperCase (SyncMethod_toString (syncMethod config))) ;;
  (match syncMethod config with
   | sftp => core_info (logPrefix config ++ js " SFTP concurrency: "
                          ++ js_of_Z (sftpConcurrency config))
   | rsync => ret tt
   end) ;;
  core_info (logPrefix config ++ js " Beginning "
               ++ SyncMode_toString (syncMode config)
               ++ js " synchronization of " ++ name directoryConfig
               ++ js " for Sym " ++ js_of_Z (symNumber config)
               ++ (if isDryRun config then js " (Dry Run)" else [])) ;;
  result <-
    match connectionType config with
    | https =>
        synchronizeViaHTTPs w config (symitarDirectory directoryConfig)
          syncMode_ syncOptions
    | ssh =>
        synchronizeViaSSH w config (symitarDirectory directoryConfig)
          syncMode_ syncOptions
    end ;;
  ret (toSynchronizeResult result).

End SynchronizeSyncFiles.

(* ------------------------------------------------------------------ *)
(** ** Vocabulary of the properties *)

(** [try { ... } finally { await client.end() }] around a body that
    completes with [body]: the completion the caller sees. *)
Definition afterTeardown (w : World) {A} (body : Outcome A) : Outcome A :=
  match client_end w with
  | Returns _ => body
  | Throws v => Throws v
  end.

(** [const client = new Symitar...(...)] before a continuation that
    completes with [body]: a constructor that throws ends the call. *)
Definition afterConstruction (w : World) {A} (body : Outcome A) : Outcome A :=
  match client_new w with
  | Returns _ => body
  | Throws v => Throws v
  end.

(** How many clients a call of the constructor yields. *)
Definition clientsReturned (w : World) : nat :=
  match client_new w with
  | Returns _ => 1%nat
  | Throws _ => 0%nat
  end.

(** Whether the orchestrator gets as far as constructing a client, once
    the key is validated: always over SSH, and over HTTPS when the
    application port is there. *)
Definition reachesConstruction (c : ConnectionType) (appPort : option Z) : bool :=
  match c with
  | ssh => true
  | https => negb (port_missing appPort)
  end.

(** The SSH flavour awaits the readiness signal of the client before it
    goes on with [body]. *)
Definition whenReady (w : World) {A} (body : Outcome A) : Outcome A :=
  match client_isReady w with
  | Returns _ => body
  | Throws v => Throws v
  end.

(** What the synchronize call inside the [try] block completes with, for
    either flavour: the original outcome or error. *)
Definition syncCompletion (w : World) {A} (c : ConnectionType)
    (call : Outcome A) : Outcome A :=
  match c with
  | https => call
  | ssh => whenReady w call
  end.

Definition outcome_map {A B} (f : A -> B) (o : Outcome A) : Outcome B :=
  match o with
  | Returns a => Returns (f a)
  | Throws v => Throws v
  end.

(** One invocation of the orchestrator, in either revision of
    [src/synchronize.ts]: the world it runs in and its configuration. *)
Inductive Invocation :=
| Invoke (w : World) (config : Synchronize.SynchronizeConfig)
| InvokeSyncFiles (w : World) (config : SynchronizeSyncFiles.SynchronizeConfig).

(** [synchronizeToSymitar(config)], run from the empty trace. *)
Definition orchestrate (i : Invocation) : Outcome SynchronizeResult * Trace :=
  match i with
  | Invoke w config => run (Synchronize.synchronizeToSymitar w config)
  | InvokeSyncFiles w config =>
      run (SynchronizeSyncFiles.synchronizeToSymitar w config)
  end.

Definition world_of (i : Invocation) : World :=
  match i with Invoke w _ | InvokeSyncFiles w _ => w end.

Definition apiKey_of (i : Invocation) : jsstring :=
  match i with
  | Invoke _ config => Synchronize.apiKey config
  | InvokeSyncFiles _ config => SynchronizeSyncFiles.apiKey config
  end.

Definition directoryType_of (i : Invocation) : DirectoryConfig.DirectoryType :=
  match i with
  | Invoke _ config => Synchronize.directoryType config
  | InvokeSyncFiles _ config => SynchronizeSyncFiles.directoryType config
  end.

Definition connectionType_of (i : Invocation) : ConnectionType :=
  match i with
  | Invoke _ config => Synchronize.connectionType config
  | InvokeSyncFiles _ config => SynchronizeSyncFiles.connectionType config
  end.

Definition symitarAppPort_of (i : Invocation) : option Z :=
  match i with
  | Invoke _ config => Synchronize.symitarAppPort config
  | InvokeSyncFiles _ config => SynchronizeSyncFiles.symitarAppPort config
  end.

(** What the client's synchronize primitive ([synchronizeFiles], or
    [syncFiles] in the later revision) answers in this invocation, put
    into the shape of the orchestrator's result. *)
Definition transportOutcome (i : Invocation) : Outcome SynchronizeResult :=
  match i with
  | Invoke w _ =>
      outcome_map Synchronize.toSynchronizeResult (client_synchronizeFiles w)
  | InvokeSyncFiles w _ =>
      outcome_map SynchronizeSyncFiles.toSynchronizeResult (client_syncFiles w)
  end.

(** The installed and the uninstalled files the transport outcome lists
    (a list the later revision leaves out counts as empty). *)
Definition transportInstallLists (i : Invocation)
  : Outcome (list jsstring * list jsstring) :=
  match i with
  | Invoke w _ =>
      outcome_map (fun o => (Symitar.installed o, Symitar.uninstalled o))
        (client_synchronizeFiles w)
  | InvokeSyncFiles w _ =>
      outcome_map
        (fun o => (SynchronizeSyncFiles.optional_list (Symitar.sf_installed o),
                   SynchronizeSyncFiles.optional_list (Symitar.sf_uninstalled o)))
        (client_syncFiles w)
  end.

(** The four file lists of a result, as [calculateTotalChanges] takes
    them. *)
Definition fileLists (r : SynchronizeResult) : DirectoryConfig.FileLists :=
  {| Symitar.deployed := deployedFiles r;
     Symitar.deleted := deletedFiles r;
     Symitar.installed := installedFiles r;
     Symitar.uninstalled := uninstalledFiles r |}.

(** The error of the HTTPS flavour when the application port is missing. *)
Definition portRequired : Thrown :=
  ErrorObject (Error
    (js "symitar-app-port is required when using HTTPS connection")).

(** The events of the license validator. *)
Definition isLicenseEvent (e : Event) : bool :=
  match e with
  | ConsoleInfo _ | ConsoleError _ | SetTimeoutAbort _ | ClearTimeout
  | Fetch _ _ _ | AwaitTimeout _ => true
  | _ => false
  end.

(** A program is regular when it only appends to the trace it is started
    on, appends events of kind [P] only, and depends on that trace through
    the number of calls of [fetch] made so far and nothing else. *)
Definition regular (P : Event -> bool) {A} (m : M A) : Prop :=
  forall t1 t2, fetchCalls t1 = fetchCalls t2 ->
    exists o u,
      m t1 = (o, t1 ++ u) /\ m t2 = (o, t2 ++ u) /\ forallb P u = true.

(** [error instanceof AuthenticationError || error instanceof ConnectionError] *)
Definition isCustomError (v : Thrown) : bool :=
  instanceofAuthenticationError v || instanceofConnectionError v.

(** The failures of one attempt that the validator retries: [fetch], or
    [response.json()] of a successful response, rejects with a value that
    is neither an [AuthenticationError] nor a [ConnectionError] (a network
    error, a timeout, an abort).  [Some v] gives the value thrown. *)
Definition retryableFailure (o : FetchOutcome) : option Thrown :=
  match o with
  | FetchRejects v => if isCustomError v then None else Some v
  | FetchResolves r =>
      if ok r then
        match json r with
        | Throws v => if isCustomError v then None else Some v
        | Returns _ => None
        end
      else None
  end.

(* ------------------------------------------------------------------ *)
(** ** Sample inputs *)

(** The outcome the test-suite of the orchestrator feeds it. *)
Definition defaultSyncResult : Symitar.SymitarSyncResponse :=
  {| Symitar.deployed := [js "FILE1.PO"; js "FILE2.PO"];
     Symitar.deleted := [js "OLD.PO"];
     Symitar.installed := [js "FILE1.PO"];
     Symitar.uninstalled := [] |}.

Definition defaultSyncFilesResult : Symitar.SyncFilesResult :=
  {| Symitar.synced := [js "FILE1.PO"; js "FILE2.PO"];
     Symitar.sf_deleted := [js "OLD.PO"];
     Symitar.sf_installed := Some [js "FILE1.PO"];
     Symitar.sf_uninstalled := None |}.

(** What the orchestrator makes of these two outcomes. *)
Definition defaultResult : SynchronizeResult :=
  Synchronize.toSynchronizeResult defaultSyncResult.

Definition defaultSyncFilesResult' : SynchronizeResult :=
  SynchronizeSyncFiles.toSynchronizeResult defaultSyncFilesResult.

(** The outcome of the aggregator's test: deployed [A, B], deleted [C],
    installed [A], uninstalled [D, E]. *)
Definition resultWithInstall : DirectoryConfig.FileLists :=
  {| Symitar.deployed := [js "A"; js "B"];
     Symitar.deleted := [js "C"];
     Symitar.installed := [js "A"];
     Symitar.uninstalled := [js "D"; js "E"] |}.

(** A world: the stage prefix, what every call of [fetch] answers, and
    what [client.end()] does; the transport client is constructed, gets
    ready and synchronizes to the default outcome. *)
Definition sample_world (stagePrefix : option jsstring)
    (answer : nat -> FetchOutcome) (ending : Outcome unit) : World :=
  {| SST_STAGE_PREFIX := stagePrefix;
     IS_SANDBOX := None;
     fetch_outcome := answer;
     client_new := Returns tt;
     client_isReady := Returns tt;
     client_synchronizeFiles := Returns defaultSyncResult;
     client_syncFiles := Returns defaultSyncFilesResult;
     client_end := ending |}.

Definition network_error : FetchOutcome :=
  FetchRejects (ErrorObject (Error (js "Network error"))).

Definition unauthorized : FetchOutcome :=
  FetchResolves {| ok := false; status := 401; statusText := js "Unauthorized";
                   json := Returns JNull |}.

Definition active_subscription : FetchOutcome :=
  FetchResolves
    {| ok := true; status := 200; statusText := js "OK";
       json := Returns (JObject
                 [(js "isFound", JBool true);
                  (js "subscriptions",
                   JArray [JObject [(js "id", JString (js "123"));
                                    (js "status", JString (js "active"))]])]) |}.

(** The license server cannot be reached. *)
Definition world_offline : World :=
  sample_world None (fun _ => network_error) (Returns tt).

(** The same, on a development stage: [SST_STAGE_PREFIX=dev-]. *)
Definition world_offline_staged : World :=
  sample_world (Some (js "dev-")) (fun _ => network_error) (Returns tt).

(** The license server answers 401 to every request. *)
Definition world_unauthorized : World :=
  sample_world None (fun _ => unauthorized) (Returns tt).

(** Two network errors, then a 401. *)
Definition world_unauthorized_late : World :=
  sample_world None
    (fun k => if (k <=? 2)%nat then network_error else unauthorized)
    (Returns tt).

(** The key is licensed and the transport works. *)
Definition world_licensed : World :=
  sample_world None (fun _ => active_subscription) (Returns tt).

(** The key is licensed, the transport synchronizes, and closing the
    connection fails. *)
Definition world_end_fails : World :=
  sample_world None (fun _ => active_subscription)
    (Throws (ErrorObject (Error (js "end failed")))).

(** The configuration of the test-suite, with four fields left open. *)
Definition configWith (d : DirectoryConfig.DirectoryType) (c : ConnectionType)
    (appPort : option Z) (key : jsstring) : Synchronize.SynchronizeConfig :=
  {| Synchronize.symitarHostname := js "symitar.example.com";
     Synchronize.symNumber := 627;
     Synchronize.symitarUserNumber := js "1";
     Synchronize.symitarUserPassword := js "questpass";
     Synchronize.sshUsername := js "testuser";
     Synchronize.sshPassword := js "testpass";
     Synchronize.sshPort := 22;
     Synchronize.symitarAppPort := appPort;
     Synchronize.apiKey := key;
     Synchronize.localDirectoryPath := js "./powerons/";
     Synchronize.directoryType := d;
     Synchronize.connectionType := c;
     Synchronize.syncMode := push;
     Synchronize.isDryRun := false;
     Synchronize.installPowerOnList := [js "FILE1.PO"];
     Synchronize.validateIgnoreList := [];
     Synchronize.debug := false;
     Synchronize.logPrefix := js "[Test]" |}.

(** The same for the later revision, over SFTP. *)
Definition syncFilesConfigWith (d : DirectoryConfig.DirectoryType)
    (c : ConnectionType) (appPort : option Z) (key : jsstring)
  : SynchronizeSyncFiles.SynchronizeConfig :=
  {| SynchronizeSyncFiles.symitarHostname := js "symitar.example.com";
     SynchronizeSyncFiles.symNumber := 627;
     SynchronizeSyncFiles.symitarUserNumber := js "1";
     SynchronizeSyncFiles.symitarUserPassword := js "questpass";
     SynchronizeSyncFiles.sshUsername := js "testuser";
     SynchronizeSyncFiles.sshPassword := js "testpass";
     SynchronizeSyncFiles.sshPort := 22;
     SynchronizeSyncFiles.symitarAppPort := appPort;
     SynchronizeSyncFiles.apiKey := key;
     SynchronizeSyncFiles.localDirectoryPath := js "./powerons/";
     SynchronizeSyncFiles.directoryType := d;
     SynchronizeSyncFiles.connectionType := c;
     SynchronizeSyncFiles.syncMode := push;
     SynchronizeSyncFiles.syncMethod := SynchronizeSyncFiles.sftp;
     SynchronizeSyncFiles.sftpConcurrency := 4;
     SynchronizeSyncFiles.isDryRun := false;
     SynchronizeSyncFiles.installPowerOnList := [js "FILE1.PO"];
     SynchronizeSyncFiles.validateIgnoreList := [];
     SynchronizeSyncFiles.debug := false;
     SynchronizeSyncFiles.logPrefix := js "[Test]" |}.

(* ------------------------------------------------------------------ *)
(** ** src/directory-config.ts, on strings *)

(** [isValidDirectoryType] and [getDirectoryConfig] take any string; the
    orchestrator calls them at a [DirectoryType], the action's entry point
    at the raw input. *)
Module DirectoryConfigKeys.
Import Symitar DirectoryConfig.

(** The property name of each entry of [DIRECTORY_CONFIG]. *)
Definition key_of (t : DirectoryType) : jsstring :=
  match t with
  | powerOns => js "powerOns"
  | letterFiles => js "letterFiles"
  | dataFiles => js "dataFiles"
  | helpFiles => js "helpFiles"
  end.

(** [Object.keys(DIRECTORY_CONFIG)]: the own keys, in the order of the
    object literal. *)
Definition keys : list DirectoryType :=
  [powerOns; letterFiles; dataFiles; helpFiles].

(** The entry a string names as an own property, if any. *)
Definition ownKey (type : jsstring) : option DirectoryType :=
  find (fun t => jsstring_eqb (key_of t) type) keys.

(** [parts.join(sep)] *)
Fixpoint join (sep : jsstring) (parts : list jsstring) : jsstring :=
  match parts with
  | [] => []
  | [p] => p
  | p :: rest => p ++ sep ++ join sep rest
  end.

(** What [DIRECTORY_CONFIG[type]] evaluates to once [type in
    DIRECTORY_CONFIG] holds: an entry of the table, or the member of
    [Object.prototype] of that name. *)
Inductive Member :=
| Entry (config : DirectoryTypeConfig)
| Inherited (name : jsstring).

Section Runtime.

(** [name in Object.prototype], for the [Object.prototype] of the runtime:
    the operator [in] follows the prototype chain, and the table is a plain
    object literal. *)
Variable inObjectPrototype : jsstring -> bool.

(** [type in DIRECTORY_CONFIG] *)
Definition isValidDirectoryType (type : jsstring) : bool :=
  match ownKey type with
  | Some _ => true
  | None => inObjectPrototype type
  end.

Definition getDirectoryConfig (type : jsstring) : Outcome Member :=
  if negb (isValidDirectoryType type) then
    let validTypes := join (js ", ") (map key_of keys) in
    Throws (ErrorObject (Error
      (js "Invalid directory type: " ++ type ++ js ". Must be one of: "
         ++ validTypes)))
  else
    Returns (match ownKey type with
             | Some t => Entry (DIRECTORY_CONFIG t)
             | None => Inherited type
             end).

End Runtime.

(** Property names every [Object.prototype] has (ECMA-262, 20.1.3). *)
Definition standardObjectPrototype (name : jsstring) : bool :=
  existsb (jsstring_eqb name)
    [js "constructor"; js "hasOwnProperty"; js "isPrototypeOf";
     js "propertyIsEnumerable"; js "toLocaleString"; js "toString";
     js "valueOf"].

End DirectoryConfigKeys.

(* ------------------------------------------------------------------ *)
(** ** Vocabulary of the further properties of the validator *)

(** Why a parsed response body is refused, in the order the checks are
    made; [None] when it is accepted. *)
Definition payloadError (data : JsonValue) : option jsstring :=
  if negb (Subscription.isSubscriptionResponse data) then
    Some (js "Invalid response format from license server")
  else if negb (Subscription.data_isFound data) then
    Some (js "Provided API key was not found. Please make sure 'apiKey' is set properly in your workflow.")
  else if (length (Subscription.data_subscriptions data) =? 0)%nat then
    Some (js "No active subscription found for the provided API key.")
  else None.

(** What one attempt comes to, given the answer to its request: it
    succeeds ([Returns tt]) or throws. *)
Definition attemptVerdict (apiKey : jsstring) (o : FetchOutcome) : Outcome unit :=
  match o with
  | FetchRejects v => Throws v
  | FetchResolves r =>
      if ok r then
        match json r with
        | Throws v => Throws v
        | Returns data =>
            match payloadError data with
            | Some msg => Throws (ErrorObject (AuthenticationError msg apiKey []))
            | None => Returns tt
            end
        end
      else
        Throws (ErrorObject (AuthenticationError
          (js "Failed to validate API key: " ++ js_of_Z (status r)
             ++ js " " ++ statusText r)
          apiKey []))
  end.

(** The answers that validate a key: a success status and a body with
    [isFound = true] and at least one subscription. *)
Definition isActiveSubscription (o : FetchOutcome) : bool :=
  match o with
  | FetchRejects _ => false
  | FetchResolves r =>
      ok r &&
      match json r with
      | Throws _ => false
      | Returns data =>
          match payloadError data with Some _ => false | None => true end
      end
  end.

(** Console lines and waits: the events of an attempt other than its
    request and its timer. *)
Definition isQuietEvent (e : Event) : bool :=
  match e with
  | ConsoleInfo _ | ConsoleError _ | AwaitTimeout _ => true
  | _ => false
  end.

(** The abort timer along a trace: [Some pending] while every timer is set
    for [API_REQUEST_TIMEOUT_MS] with none pending, every request is made
    with one pending, and [clearTimeout] clears a pending one; [None] once
    that is broken. *)
Definition timerStep (s : option bool) (e : Event) : option bool :=
  match s, e with
  | None, _ => None
  | Some pending, SetTimeoutAbort ms =>
      if negb pending && (ms =? Subscription.API_REQUEST_TIMEOUT_MS)
      then Some true else None
  | Some pending, ClearTimeout => if pending then Some false else None
  | Some pending, Fetch _ _ _ => if pending then Some true else None
  | Some pending, _ => Some pending
  end.

Definition timerState (t : Trace) : option bool :=
  fold_left timerStep t (Some false).

(** The request the validator sends. *)
Definition licenseRequest (w : World) (apiKey : jsstring) : Event :=
  Fetch (Subscription.url w) (js "GET")
    [(js "Content-Type", js "application/json"); (js "X-API-Key", apiKey)].

(** The host the [ConnectionError] of the validator names. *)
Definition connectionErrorHost (w : World) : jsstring :=
  js "license" ++ (if Subscription.isSandbox w then js ".libum-sandbox" else [])
    ++ js ".libum.io".

(** The [ConnectionError] the validator builds around a last failure. *)
Definition retriesExhausted (w : World) (v : Thrown) : Thrown :=
  ErrorObject (ConnectionError
    (js "Failed to fetch PowerOn Pipelines API key subscription data after multiple attempts")
    (connectionErrorHost w) 443 true (Some (asError v))).

(** The outcome of the retry loop entered at [attempt] with [remaining]
    passes left, and the number of requests it makes, read off the answers
    of the environment: request number [attempt] is the one of that
    attempt. *)
Fixpoint loopVerdict (w : World) (apiKey : jsstring)
    (remaining attempt : nat) : Outcome unit * nat :=
  match remaining with
  | O => (Returns tt, 0%nat)
  | S remaining' =>
      match attemptVerdict apiKey (fetch_outcome w attempt) with
      | Returns _ => (Returns tt, 1%nat)
      | Throws v =>
          if isCustomError v then (Throws v, 1%nat)
          else if (Subscription.MAX_API_RETRIES <=? attempt)%nat
          then (Throws (retriesExhausted w v), 1%nat)
          else
            let (o, n) := loopVerdict w apiKey remaining' (S attempt) in
            (o, S n)
      end
  end.

(* ------------------------------------------------------------------ *)
(** ** Vocabulary of the further properties of the orchestrator *)

(** The inputs of one call of the client's synchronize primitive, whatever
    the flavour and the revision: [synchronizeFiles] takes them as
    arguments, [syncFiles] takes the two lists (and the transport
    settings) inside its options object. *)
Record SyncCall := {
  call_flavour : ConnectionType;
  call_localDirectoryPath : jsstring;
  call_symitarDirectory : Symitar.SymitarSyncDirectory;
  call_syncMode : Symitar.SymitarSyncMode;
  call_installList : list jsstring;
  call_validateIgnoreList : list jsstring;
  call_isDryRun : bool;
  call_transport : option (Symitar.SymitarSyncTransport * Z)
}.

Definition syncCall_of (e : Event) : option SyncCall :=
  match e with
  | HTTPsSynchronizeFiles p il dry d m ign =>
      Some {| call_flavour := https; call_localDirectoryPath := p;
              call_symitarDirectory := d; call_syncMode := m;
              call_installList := il; call_validateIgnoreList := ign;
              call_isDryRun := dry; call_transport := None |}
  | SSHSynchronizeFiles _ p il dry d m ign =>
      Some {| call_flavour := ssh; call_localDirectoryPath := p;
              call_symitarDirectory := d; call_syncMode := m;
              call_installList := il; call_validateIgnoreList := ign;
              call_isDryRun := dry; call_transport := None |}
  | HTTPsSyncFiles p d m opts dry =>
      Some {| call_flavour := https; call_localDirectoryPath := p;
              call_symitarDirectory := d; call_syncMode := m;
              call_installList := Symitar.installList (Symitar.powerOn opts);
              call_validateIgnoreList :=
                Symitar.validateIgnoreList (Symitar.powerOn opts);
              call_isDryRun := dry;
              call_transport :=
                Some (Symitar.transport opts, Symitar.concurrency opts) |}
  | SSHSyncFiles _ p d m opts dry =>
      Some {| call_flavour := ssh; call_localDirectoryPath := p;
              call_symitarDirectory := d; call_syncMode := m;
              call_installList := Symitar.installList (Symitar.powerOn opts);
              call_validateIgnoreList :=
                Symitar.validateIgnoreList (Symitar.powerOn opts);
              call_isDryRun := dry;
              call_transport :=
                Some (Symitar.transport opts, Symitar.concurrency opts) |}
  | _ => None
  end.

(** The calls of the synchronize primitive in a trace, in order. *)
Fixpoint syncCalls (t : Trace) : list SyncCall :=
  match t with
  | [] => []
  | e :: t' =>
      match syncCall_of e with
      | Some c => c :: syncCalls t'
      | None => syncCalls t'
      end
  end.

(** The steps of an invocation that reach outside: a request to the
    license server and the four uses of the transport client. *)
Inductive Step :=
| LicenseRequest
| ClientConstruction
| ReadinessAwaited
| Synchronization
| Teardown.

Definition step_of (e : Event) : option Step :=
  match e with
  | Fetch _ _ _ => Some LicenseRequest
  | NewSymitarHTTPs _ _ _ _ | NewSymitarSSH _ _ => Some ClientConstruction
  | AwaitIsReady => Some ReadinessAwaited
  | HTTPsSynchronizeFiles _ _ _ _ _ _ | SSHSynchronizeFiles _ _ _ _ _ _ _
  | HTTPsSyncFiles _ _ _ _ _ | SSHSyncFiles _ _ _ _ _ _ => Some Synchronization
  | ClientEnd => Some Teardown
  | _ => None
  end.

(** The steps of a trace, in order. *)
Fixpoint steps (t : Trace) : list Step :=
  match t with
  | [] => []
  | e :: t' =>
      match step_of e with
      | Some s => s :: steps t'
      | None => steps t'
      end
  end.

Definition returns {A} (o : Outcome A) : bool :=
  match o with Returns _ => true | Throws _ => false end.

(** The steps the client goes through once the orchestrator gets to
    construct it: the SSH flavour awaits readiness, and synchronizes only
    when ready; whoever got a client closes it, last. *)
Definition clientSteps (w : World) (c : ConnectionType) : list Step :=
  ClientConstruction ::
  (if returns (client_new w) then
     match c with
     | https => [Synchronization]
     | ssh =>
         ReadinessAwaited ::
         (if returns (client_isReady w) then [Synchronization] else [])
     end ++ [Teardown]
   else []).

(** Whether the invocation gets as far as calling the synchronize
    primitive. *)
Definition synchronizes (w : World) (c : ConnectionType) : bool :=
  returns (client_new w)
  && match c with https => true | ssh => returns (client_isReady w) end.

(** Whether the license validation of an invocation succeeds and the
    orchestrator then gets to construct a client. *)
Definition constructsClient (i : Invocation) : bool :=
  returns (fst (run (Subscription.validateApiKey (world_of i) (apiKey_of i))))
  && reachesConstruction (connectionType_of i) (symitarAppPort_of i).

(** The call the configuration asks for. *)
Definition intendedCall (i : Invocation) : SyncCall :=
  let directoryConfig := DirectoryConfig.DIRECTORY_CONFIG (directoryType_of i) in
  let mode m :=
    match m with
    | push => Symitar.PUSH | pull => Symitar.PULL | mirror => Symitar.MIRROR
    end in
  let installs l :=
    if DirectoryConfig.supportsInstall directoryConfig then l else [] in
  match i with
  | Invoke _ config =>
      {| call_flavour := Synchronize.connectionType config;
         call_localDirectoryPath := Synchronize.localDirectoryPath config;
         call_symitarDirectory := DirectoryConfig.symitarDirectory directoryConfig;
         call_syncMode := mode (Synchronize.syncMode config);
         call_installList := installs (Synchronize.installPowerOnList config);
         call_validateIgnoreList := Synchronize.validateIgnoreList config;
         call_isDryRun := Synchronize.isDryRun config;
         call_transport := None |}
  | InvokeSyncFiles _ config =>
      {| call_flavour := SynchronizeSyncFiles.connectionType config;
         call_localDirectoryPath := SynchronizeSyncFiles.localDirectoryPath config;
         call_symitarDirectory := DirectoryConfig.symitarDirectory directoryConfig;
         call_syncMode := mode (SynchronizeSyncFiles.syncMode config);
         call_installList :=
           installs (SynchronizeSyncFiles.installPowerOnList config);
         call_validateIgnoreList := SynchronizeSyncFiles.validateIgnoreList config;
         call_isDryRun := SynchronizeSyncFiles.isDryRun config;
         call_transport :=
           Some (match SynchronizeSyncFiles.syncMethod config with
                 | SynchronizeSyncFiles.sftp => Symitar.SFTP
                 | SynchronizeSyncFiles.rsync => Symitar.RSYNC
                 end,
                 SynchronizeSyncFiles.sftpConcurrency config) |}
  end.

(** What [synchronizeToSymitar] does once the key is validated and the
    two lines about the run are logged: the call of the flavour the
    configuration names, and the result object. *)
Definition transportPhase (i : Invocation) : M SynchronizeResult :=
  match i with
  | Invoke w config =>
      let directoryConfig :=
        DirectoryConfig.getDirectoryConfig (Synchronize.directoryType config) in
      let installList :=
        DirectoryConfig.getInstallList (Synchronize.directoryType config)
          (Synchronize.installPowerOnList config) in
      let syncMode_ := Synchronize.getSyncMode (Synchronize.syncMode config) in
      bind
        (match Synchronize.connectionType config with
         | https =>
             Synchronize.synchronizeViaHTTPs w config
               (DirectoryConfig.symitarDirectory directoryConfig)
               syncMode_ installList
         | ssh =>
             Synchronize.synchronizeViaSSH w config
               (DirectoryConfig.symitarDirectory directoryConfig)
               syncMode_ installList
         end)
        (fun result => ret (Synchronize.toSynchronizeResult result))
  | InvokeSyncFiles w config =>
      let directoryConfig :=
        DirectoryConfig.getDirectoryConfig
          (SynchronizeSyncFiles.directoryType config) in
      let installList_ :=
        DirectoryConfig.getInstallList
          (SynchronizeSyncFiles.directoryType config)
          (SynchronizeSyncFiles.installPowerOnList config) in
      let syncMode_ :=
        SynchronizeSyncFiles.getSyncMode (SynchronizeSyncFiles.syncMode config) in
      let syncOptions :=
        {| Symitar.transport :=
             SynchronizeSyncFiles.getSyncTransport
               (SynchronizeSyncFiles.syncMethod config);
           Symitar.concurrency := SynchronizeSyncFiles.sftpConcurrency config;
           Symitar.powerOn :=
             {| Symitar.installList := installList_;
                Symitar.validateIgnoreList :=
                  SynchronizeSyncFiles.validateIgnoreList config |} |} in
      bind
        (match SynchronizeSyncFiles.connectionType config with
         | https =>
             SynchronizeSyncFiles.synchronizeViaHTTPs w config
               (DirectoryConfig.symitarDirectory directoryConfig)
               syncMode_ syncOptions
         | ssh =>
             SynchronizeSyncFiles.synchronizeViaSSH w config
               (DirectoryConfig.symitarDirectory directoryConfig)
               syncMode_ syncOptions
         end)
        (fun result => ret (SynchronizeSyncFiles.toSynchronizeResult result))
  end.

(** The events before the transport phase: those of the validator and
    lines of the action's log. *)
Definition isPreambleEvent (e : Event) : bool :=
  isLicenseEvent e || match e with CoreInfo _ => true | _ => false end.

(* ------------------------------------------------------------------ *)
(** ** src/main.ts *)

(** [parseInt(s, 10)]: white space is skipped, then an optional sign, then
    the longest run of decimal digits is read; [None] is [NaN] (no digit
    there).  The value is kept exact: [run] only compares it with bounds
    that are exact in floating point, and passes it on when it lies within
    them, where it is exact too ([-0] is 0 here). *)
Definition isDigit (c : N) : bool := (48 <=? c)%N && (c <=? 57)%N.

Fixpoint leadingDigits (s : jsstring) : list N :=
  match s with
  | c :: s' => if isDigit c then c :: leadingDigits s' else []
  | [] => []
  end.

Definition digitsValue (ds : list N) : Z :=
  fold_left (fun acc c => 10 * acc + (Z.of_N c - 48)) ds 0.

Definition parseInt10 (s : jsstring) : option Z :=
  let s1 := trimStart s in
  let '(sign, s2) :=
    match s1 with
    | 45%N :: r => (-1, r)
    | 43%N :: r => (1, r)
    | _ => (1, s1)
    end in
  match leadingDigits s2 with
  | [] => None
  | ds => Some (sign * digitsValue ds)
  end.

(** [s.split(',')]: the fields between the commas, at least one. *)
Fixpoint splitComma (s : jsstring) : list jsstring :=
  match s with
  | [] => [[]]
  | c :: s' =>
      if (c =? 44)%N then [] :: splitComma s'
      else match splitComma s' with
           | field :: fields => (c :: field) :: fields
           | [] => [[c]]
           end
  end.

(** [input.split(',').map((f) => f.trim()).filter((f) => f.length > 0)] *)
Definition parseList (input : jsstring) : list jsstring :=
  filter (fun f => (0 <? length f)%nat) (map trim (splitComma input)).

(** [/^[a-zA-Z0-9.-]+$/]: one or more letters, digits, dots and hyphens,
    and nothing else. *)
Definition isHostnameChar (c : N) : bool :=
  ((97 <=? c) && (c <=? 122) || (65 <=? c) && (c <=? 90)
   || (48 <=? c) && (c <=? 57) || (c =? 46) || (c =? 45))%N.

Definition matchesHostname (s : jsstring) : bool :=
  truthy s && forallb isHostnameChar s.

(** A boolean inside a template literal. *)
Definition js_of_bool (b : bool) : jsstring :=
  if b then js "true" else js "false".

Module Main.
Import Symitar DirectoryConfig DirectoryConfigKeys.

(** What the action does to the outside: it reads inputs, masks secrets,
    writes error and debug lines, sets outputs and the failure message;
    [Inner] wraps the events of the orchestrator, among them every line of
    [core.info]. *)
Inductive ActionEvent :=
| GetInput (name : jsstring) (required : bool)
| SetSecret (secret : jsstring)
| CoreError (msg : jsstring)
| CoreDebug (msg : jsstring)
| SetOutput (name : jsstring) (value : nat)
| SetFailed (msg : jsstring)
| Inner (e : Event).

Definition ActionTrace := list ActionEvent.

(** The environment of a run of the action: the world of the
    orchestrator; what [core.getInput(name, { required })] answers; which
    names the runtime's [Object.prototype] has; the [version] of
    [package.json]; the elapsed time as [toFixed(2)] renders it; and the
    [stack] of an error, [None] when it is absent or empty. *)
Record ActionEnv := {
  world : World;
  getInput : jsstring -> bool -> Outcome jsstring;
  inObjectPrototype : jsstring -> bool;
  version : jsstring;
  elapsedTime : jsstring;
  stack_of : JsError -> option jsstring
}.

(** How a computation of the action ends: with a value, with a thrown
    value, or outside this embedding (see [run]). *)
Inductive Ending (X : Type) :=
| Done (x : X)
| Raised (v : Thrown)
| Unmodelled.
Arguments Done {X} x.
Arguments Raised {X} v.
Arguments Unmodelled {X}.

Definition Action (X : Type) : Type := ActionTrace -> Ending X * ActionTrace.

Definition pure {X} (x : X) : Action X := fun t => (Done x, t).

Definition andThen {X Y} (m : Action X) (k : X -> Action Y) : Action Y := fun t =>
  match m t with
  | (Done x, t') => k x t'
  | (Raised v, t') => (Raised v, t')
  | (Unmodelled, t') => (Unmodelled, t')
  end.

Definition raise {X} (v : Thrown) : Action X := fun t => (Raised v, t).

Definition unmodelled {X} : Action X := fun t => (Unmodelled, t).

Definition act (e : ActionEvent) : Action unit := fun t => (Done tt, t ++ [e]).

(** [try { body } catch (error) { handler }] *)
Definition tryCatch {X} (body : Action X) (handler : Thrown -> Action X)
  : Action X := fun t =>
  match body t with
  | (Raised v, t') => handler v t'
  | other => other
  end.

(** A call of the orchestrator: it runs in its own monad, from a trace
    with no event of its own, and its events are appended. *)
Definition call {X} (m : M X) : Action X := fun t =>
  match run m with
  | (Returns x, events) => (Done x, t ++ map Inner events)
  | (Throws v, events) => (Raised v, t ++ map Inner events)
  end.

Declare Scope act_scope.
Delimit Scope act_scope with act.
Notation "x <- m ;; k" := (andThen m (fun x => k))
  (at level 61, m at next level, right associativity) : act_scope.
Notation "m ;; k" := (andThen m (fun _ => k))
  (at level 61, right associativity) : act_scope.
Local Open Scope act_scope.

Definition info (msg : jsstring) : Action unit := act (Inner (CoreInfo msg)).
Definition error (msg : jsstring) : Action unit := act (CoreError msg).
Definition debug_ (msg : jsstring) : Action unit := act (CoreDebug msg).
Definition setOutput (name : jsstring) (value : nat) : Action unit :=
  act (SetOutput name value).
Definition setFailed (msg : jsstring) : Action unit := act (SetFailed msg).
Definition setSecret (secret : jsstring) : Action unit := act (SetSecret secret).

(** [core.getInput(name, { required })] *)
Definition input (env : ActionEnv) (name : jsstring) (required : bool)
  : Action jsstring := fun t =>
  (match getInput env name required with
   | Returns value => Done value
   | Throws v => Raised v
   end,
   t ++ [GetInput name required]).

(** [value || fallback] on strings *)
Definition orElse (value fallback : jsstring) : jsstring :=
  if truthy value then value else fallback.

(** [for (const file of files) body(file)] *)
Fixpoint forEach (files : list jsstring) (body : jsstring -> Action unit)
  : Action unit :=
  match files with
  | [] => pure tt
  | file :: rest => body file ;; forEach rest body
  end.

Definition when (b : bool) (m : Action unit) : Action unit :=
  if b then m else pure tt.

Definition logPrefix : jsstring := js "[SynchronizeSymitar]".

(** The check mark and the ballot x of the log lines. *)
Definition checkMark : jsstring := [10003%N].
Definition ballotX : jsstring := [10007%N].

(** The [catch] block of [run]. *)
Definition handler (env : ActionEnv) (thrown : Thrown) : Action unit :=
  match thrown with
  | ErrorObject (AuthenticationError message apiKey host as e) =>
      error (logPrefix ++ js " Authentication failed: " ++ message) ;;
      error (logPrefix ++ js " API Key: "
               ++ (if truthy apiKey then js "***" else js "not provided")) ;;
      error (logPrefix ++ js " Host: " ++ host) ;;
      match stack_of env e with
      | Some stack => debug_ (logPrefix ++ js " Stack trace: " ++ stack)
      | None => pure tt
      end ;;
      setFailed (js "API key validation failed: " ++ message)
  | ErrorObject (ConnectionError message host port isSSL originalError as e) =>
      error (logPrefix ++ js " Connection failed: " ++ message) ;;
      error (logPrefix ++ js " Host: " ++ host ++ js ":" ++ js_of_Z port) ;;
      match originalError with
      | Some original =>
          error (logPrefix ++ js " Original error: " ++ message_of original) ;;
          match stack_of env original with
          | Some stack =>
              debug_ (logPrefix ++ js " Original stack trace: " ++ stack)
          | None => pure tt
          end
      | None => pure tt
      end ;;
      match stack_of env e with
      | Some stack => debug_ (logPrefix ++ js " Stack trace: " ++ stack)
      | None => pure tt
      end ;;
      setFailed (js "Failed to connect to license server: " ++ message)
  | ErrorObject (Error message as e) =>
      error (logPrefix ++ js " Unexpected error: " ++ message) ;;
      match stack_of env e with
      | Some stack => debug_ (logPrefix ++ js " Stack trace: " ++ stack)
      | None => pure tt
      end ;;
      setFailed message
  | OtherValue asString =>
      error (logPrefix ++ js " Unknown error: " ++ asString) ;;
      setFailed asString
  end.

(** The summary [run] logs after a synchronization. *)
Definition summary (env : ActionEnv) (directoryConfig : DirectoryTypeConfig)
    (isDryRun : bool) (totalChanges : nat) (result : SynchronizeResult)
  : Action unit :=
  info [] ;;
  info (logPrefix ++ js " ========================================") ;;
  info (logPrefix ++ js " Synchronization Summary - " ++ name directoryConfig
          ++ (if isDryRun then js " (DRY RUN)" else [])) ;;
  info (logPrefix ++ js " ========================================") ;;
  (if (totalChanges =? 0)%nat then
     info (logPrefix ++ js " No changes to synchronize")
   else
     info (logPrefix ++ js " Files Deployed: "
             ++ js_of_nat (filesDeployed result)) ;;
     when (0 <? length (deployedFiles result))%nat
       (forEach (deployedFiles result)
          (fun file => info (logPrefix ++ js "   + " ++ file))) ;;
     info (logPrefix ++ js " Files Deleted: "
             ++ js_of_nat (filesDeleted result)) ;;
     when (0 <? length (deletedFiles result))%nat
       (forEach (deletedFiles result)
          (fun file => info (logPrefix ++ js "   - " ++ file))) ;;
     when (supportsInstall directoryConfig)
       (info (logPrefix ++ js " Files Installed: "
                ++ js_of_nat (filesInstalled result)) ;;
        when (0 <? length (installedFiles result))%nat
          (forEach (installedFiles result)
             (fun file =>
                info (logPrefix ++ js "   " ++ checkMark ++ js " " ++ file))) ;;
        info (logPrefix ++ js " Files Uninstalled: "
                ++ js_of_nat (filesUninstalled result)) ;;
        when (0 <? length (uninstalledFiles result))%nat
          (forEach (uninstalledFiles result)
             (fun file =>
                info (logPrefix ++ js "   " ++ ballotX ++ js " " ++ file))))) ;;
  info (logPrefix ++ js " ========================================") ;;
  info (logPrefix ++ js " Completed in " ++ elapsedTime env ++ js "s") ;;
  (if isDryRun then
     info (logPrefix ++ js " This was a dry run - no changes were made")
   else
     info (logPrefix ++ js " Synchronization completed successfully!")).

(** The first half of the [try] block of [run]: the inputs are read, the
    three secrets masked, and the inputs checked and parsed into the
    values the configuration object is made of.  Where the directory-type
    input is not one of the four keys but names a member of
    [Object.prototype], the check [isValidDirectoryType] passes and the
    code goes on with a value that is no [DirectoryType]: the embedding
    stops there, with [Unmodelled]. *)
Definition configure (env : ActionEnv) : Action Synchronize.SynchronizeConfig :=
  directoryTypeInput <- input env (js "directory-type") true ;;
  localDirectoryPathInput <- input env (js "local-directory-path") false ;;
  connectionType <- input env (js "connection-type") true ;;
  syncMode <- input env (js "sync-mode") true ;;
  dryRunInput <- input env (js "dry-run") false ;;
  let isDryRun := jsstring_eqb dryRunInput (js "true") in
  symitarHostname <- input env (js "symitar-hostname") true ;;
  symitarAppPortInput <- input env (js "symitar-app-port") false ;;
  sshUsername <- input env (js "ssh-username") true ;;
  sshPassword <- input env (js "ssh-password") true ;;
  sshPortRaw <- input env (js "ssh-port") false ;;
  let sshPortInput := orElse sshPortRaw (js "22") in
  symNumberInput <- input env (js "sym-number") true ;;
  symitarUserNumber <- input env (js "symitar-user-number") true ;;
  symitarUserPassword <- input env (js "symitar-user-password") true ;;
  apiKey <- input env (js "api-key") true ;;
  installRaw <- input env (js "install-poweron-list") false ;;
  let installPowerOnListInput := orElse installRaw [] in
  ignoreRaw <- input env (js "validate-ignore-list") false ;;
  let validateIgnoreListInput := orElse ignoreRaw [] in
  debugInput <- input env (js "debug") false ;;
  let debug := jsstring_eqb debugInput (js "true") in
  setSecret apiKey ;;
  setSecret symitarUserPassword ;;
  setSecret sshPassword ;;
  directoryType <-
    (if negb (isValidDirectoryType (inObjectPrototype env) directoryTypeInput)
     then
       raise (ErrorObject (Error
         (js "Invalid directory type: " ++ directoryTypeInput
            ++ js ". Must be one of: powerOns, letterFiles, dataFiles, helpFiles")))
     else
       match ownKey directoryTypeInput with
       | Some t => pure t
       | None => unmodelled
       end) ;;
  connection <-
    (if negb (jsstring_eqb connectionType (js "https"))
        && negb (jsstring_eqb connectionType (js "ssh"))
     then
       raise (ErrorObject (Error
         (js "Invalid connection type: " ++ connectionType
            ++ js ". Must be 'https' or 'ssh'")))
     else pure (if jsstring_eqb connectionType (js "https") then https else ssh)) ;;
  mode <-
    (if negb (jsstring_eqb syncMode (js "push"))
        && negb (jsstring_eqb syncMode (js "pull"))
        && negb (jsstring_eqb syncMode (js "mirror"))
     then
       raise (ErrorObject (Error
         (js "Invalid sync mode: " ++ syncMode
            ++ js ". Must be 'push', 'pull', or 'mirror'")))
     else pure (if jsstring_eqb syncMode (js "push") then push
                else if jsstring_eqb syncMode (js "pull") then pull
                else mirror)) ;;
  when (negb (matchesHostname symitarHostname))
    (raise (ErrorObject (Error
       (js "Invalid hostname format: " ++ symitarHostname)))) ;;
  sshPort <-
    match parseInt10 sshPortInput with
    | Some port =>
        if (port <? 1) || (65535 <? port) then
          raise (ErrorObject (Error
            (js "Invalid SSH port: " ++ sshPortInput
               ++ js ". Must be between 1-65535")))
        else pure port
    | None =>
        raise (ErrorObject (Error
          (js "Invalid SSH port: " ++ sshPortInput
             ++ js ". Must be between 1-65535")))
    end ;;
  symitarAppPort <-
    match connection with
    | https =>
        if negb (truthy symitarAppPortInput) then
          raise (ErrorObject (Error
            (js "symitar-app-port is required when connection-type is https")))
        else
          match parseInt10 symitarAppPortInput with
          | Some port =>
              if (port <? 1) || (65535 <? port) then
                raise (ErrorObject (Error
                  (js "Invalid Symitar app port: " ++ symitarAppPortInput
                     ++ js ". Must be between 1-65535")))
              else pure (Some port)
          | None =>
              raise (ErrorObject (Error
                (js "Invalid Symitar app port: " ++ symitarAppPortInput
                   ++ js ". Must be between 1-65535")))
          end
    | ssh => pure None
    end ;;
  symNumber <-
    match parseInt10 symNumberInput with
    | Some number =>
        if (number <? 0) || (9999 <? number) then
          raise (ErrorObject (Error
            (js "Invalid sym number: " ++ symNumberInput
               ++ js ". Must be between 0-9999")))
        else pure number
    | None =>
        raise (ErrorObject (Error
          (js "Invalid sym number: " ++ symNumberInput
             ++ js ". Must be between 0-9999")))
    end ;;
  let localDirectoryPath :=
    getLocalDirectoryPath directoryType
      (if truthy localDirectoryPathInput then Some localDirectoryPathInput
       else None) in
  let installPowerOnList := parseList installPowerOnListInput in
  let validateIgnoreList := parseList validateIgnoreListInput in
  pure {| Synchronize.symitarHostname := symitarHostname;
          Synchronize.symNumber := symNumber;
          Synchronize.symitarUserNumber := symitarUserNumber;
          Synchronize.symitarUserPassword := symitarUserPassword;
          Synchronize.sshUsername := sshUsername;
          Synchronize.sshPassword := sshPassword;
          Synchronize.sshPort := sshPort;
          Synchronize.symitarAppPort := symitarAppPort;
          Synchronize.apiKey := apiKey;
          Synchronize.localDirectoryPath := localDirectoryPath;
          Synchronize.directoryType := directoryType;
          Synchronize.connectionType := connection;
          Synchronize.syncMode := mode;
          Synchronize.isDryRun := isDryRun;
          Synchronize.installPowerOnList := installPowerOnList;
          Synchronize.validateIgnoreList := validateIgnoreList;
          Synchronize.debug := debug;
          Synchronize.logPrefix := logPrefix |}.

(** The second half of the [try] block: the run is announced, the
    orchestrator called with the configuration, the outputs set and the
    summary logged.  The connection type and the sync mode of the
    configuration are the strings the inputs held. *)
Definition proceed (env : ActionEnv) (config : Synchronize.SynchronizeConfig)
  : Action unit :=
  let directoryType := Synchronize.directoryType config in
  let directoryConfig := DirectoryConfig.getDirectoryConfig directoryType in
  let isDryRun := Synchronize.isDryRun config in
  let installPowerOnList := Synchronize.installPowerOnList config in
  let validateIgnoreList := Synchronize.validateIgnoreList config in
  info (logPrefix ++ js " Starting Symitar synchronization (v" ++ version env
          ++ js ")") ;;
  info (logPrefix ++ js " Directory Type: " ++ name directoryConfig) ;;
  info (logPrefix ++ js " Connection Type: "
          ++ toUpperCase
               (ConnectionType_toString (Synchronize.connectionType config))) ;;
  info (logPrefix ++ js " Sync Mode: "
          ++ SyncMode_toString (Synchronize.syncMode config)) ;;
  info (logPrefix ++ js " Hostname: " ++ Synchronize.symitarHostname config) ;;
  match Synchronize.connectionType config with
  | https =>
      info (logPrefix ++ js " Symitar App Port: "
              ++ js_of_port (Synchronize.symitarAppPort config))
  | ssh =>
      info (logPrefix ++ js " SSH Port: " ++ js_of_Z (Synchronize.sshPort config))
  end ;;
  info (logPrefix ++ js " Sym: " ++ js_of_Z (Synchronize.symNumber config)) ;;
  info (logPrefix ++ js " Local Directory: "
          ++ Synchronize.localDirectoryPath config) ;;
  info (logPrefix ++ js " Dry Run: " ++ js_of_bool isDryRun) ;;
  info (logPrefix ++ js " Debug: " ++ js_of_bool (Synchronize.debug config)) ;;
  info (logPrefix ++ js " API Key: "
          ++ (if truthy (Synchronize.apiKey config)
              then checkMark ++ js " provided"
              else ballotX ++ js " missing")) ;;
  when (supportsInstall directoryConfig && (0 <? length installPowerOnList)%nat)
    (info (logPrefix ++ js " Install PowerOn List: "
             ++ join (js ", ") installPowerOnList)) ;;
  when (0 <? length validateIgnoreList)%nat
    (info (logPrefix ++ js " Validate Ignore List: "
             ++ join (js ", ") validateIgnoreList)) ;;
  result <- call (Synchronize.synchronizeToSymitar (world env) config) ;;
  setOutput (js "files-deployed") (filesDeployed result) ;;
  setOutput (js "files-deleted") (filesDeleted result) ;;
  setOutput (js "files-installed") (filesInstalled result) ;;
  setOutput (js "files-uninstalled") (filesUninstalled result) ;;
  let totalChanges :=
    calculateTotalChanges directoryType
      {| deployed := deployedFiles result;
         deleted := deletedFiles result;
         installed := installedFiles result;
         uninstalled := uninstalledFiles result |} in
  summary env directoryConfig isDryRun totalChanges result.

Definition run (env : ActionEnv) : Action unit :=
  tryCatch (config <- configure env ;; proceed env config) (handler env).

End Main.

(* ------------------------------------------------------------------ *)
(** ** Vocabulary of the properties of the action *)

(** The outputs a run sets, in order. *)
Definition outputs (t : Main.ActionTrace) : list (jsstring * nat) :=
  flat_map (fun e => match e with Main.SetOutput n v => [(n, v)] | _ => [] end) t.

(** The messages given to [core.setFailed], in order. *)
Definition failures (t : Main.ActionTrace) : list jsstring :=
  flat_map (fun e => match e with Main.SetFailed m => [m] | _ => [] end) t.

(** The values given to [core.setSecret], in order. *)
Definition maskedSecrets (t : Main.ActionTrace) : list jsstring :=
  flat_map (fun e => match e with Main.SetSecret s => [s] | _ => [] end) t.

(** The events of the orchestrator and the lines of [core.info]. *)
Definition innerEvents (t : Main.ActionTrace) : Trace :=
  flat_map (fun e => match e with Main.Inner e' => [e'] | _ => [] end) t.

(** The four outputs of a result. *)
Definition resultOutputs (r : SynchronizeResult) : list (jsstring * nat) :=
  [(js "files-deployed", filesDeployed r);
   (js "files-deleted", filesDeleted r);
   (js "files-installed", filesInstalled r);
   (js "files-uninstalled", filesUninstalled r)].

(** The failure message by the class of what was thrown. *)
Definition failureMessage (v : Thrown) : jsstring :=
  if instanceofAuthenticationError v then
    js "API key validation failed: " ++ errorMessage_of v
  else if instanceofConnectionError v then
    js "Failed to connect to license server: " ++ errorMessage_of v
  else errorMessage_of v.

(** An entry of a parsed list: not empty, no white space at either end,
    no comma. *)
Definition cleanEntry (f : jsstring) : bool :=
  truthy f && jsstring_eqb (trim f) f && negb (existsb (N.eqb 44) f).

(** What a transport event carries of the configuration of an
    invocation: the connection parameters, the credentials and the log
    level of the client. *)
Definition carriesConfiguration (i : Invocation) (e : Event) : Prop :=
  match i with
  | Invoke _ config =>
      let symitarConfig :=
        {| Symitar.sc_symNumber := Synchronize.symNumber config;
           Symitar.sc_symitarUserNumber := Synchronize.symitarUserNumber config;
           Symitar.sc_symitarUserPassword :=
             Synchronize.symitarUserPassword config |} in
      let level := if Synchronize.debug config then debug_level else info_level in
      match e with
      | NewSymitarSSH connection logLevel =>
          connection
          = {| Symitar.host := Synchronize.symitarHostname config;
               Symitar.port := Synchronize.sshPort config;
               Symitar.username := Synchronize.sshUsername config;
               Symitar.password := Synchronize.sshPassword config |}
          /\ logLevel = level
      | NewSymitarHTTPs baseUrl symitarConfig' logLevel sshConfig =>
          baseUrl
          = js "https://" ++ Synchronize.symitarHostname config ++ js ":"
              ++ js_of_port (Synchronize.symitarAppPort config)
          /\ symitarConfig' = symitarConfig
          /\ logLevel = level
          /\ sshConfig
             = {| Symitar.ss_port := Synchronize.sshPort config;
                  Symitar.ss_username := Synchronize.sshUsername config;
                  Symitar.ss_password := Synchronize.sshPassword config |}
      | SSHSynchronizeFiles symitarConfig' _ _ _ _ _ _ =>
          symitarConfig' = symitarConfig
      | HTTPsSyncFiles _ _ _ _ _ | SSHSyncFiles _ _ _ _ _ _ => False
      | _ => True
      end
  | InvokeSyncFiles _ config =>
      let symitarConfig :=
        {| Symitar.sc_symNumber := SynchronizeSyncFiles.symNumber config;
           Symitar.sc_symitarUserNumber :=
             SynchronizeSyncFiles.symitarUserNumber config;
           Symitar.sc_symitarUserPassword :=
             SynchronizeSyncFiles.symitarUserPassword config |} in
      let level :=
        if SynchronizeSyncFiles.debug config then debug_level else warn_level in
      match e with
      | NewSymitarSSH connection logLevel =>
          connection
          = {| Symitar.host := SynchronizeSyncFiles.symitarHostname config;
               Symitar.port := SynchronizeSyncFiles.sshPort config;
               Symitar.username := SynchronizeSyncFiles.sshUsername config;
               Symitar.password := SynchronizeSyncFiles.sshPassword config |}
          /\ logLevel = level
      | NewSymitarHTTPs baseUrl symitarConfig' logLevel sshConfig =>
          baseUrl
          = js "https://" ++ SynchronizeSyncFiles.symitarHostname config
              ++ js ":" ++ js_of_port (SynchronizeSyncFiles.symitarAppPort config)
          /\ symitarConfig' = symitarConfig
          /\ logLevel = level
          /\ sshConfig
             = {| Symitar.ss_port := SynchronizeSyncFiles.sshPort config;
                  Symitar.ss_username := SynchronizeSyncFiles.sshUsername config;
                  Symitar.ss_password := SynchronizeSyncFiles.sshPassword config |}
      | SSHSyncFiles symitarConfig' _ _ _ _ _ =>
          symitarConfig' = symitarConfig
      | HTTPsSynchronizeFiles _ _ _ _ _ _
      | SSHSynchronizeFiles _ _ _ _ _ _ _ => False
      | _ => True
      end
  end.

(** The lines of [core.info] as events of the action. *)
Definition logged (lines : list jsstring) : Main.ActionTrace :=
  map (fun line => Main.Inner (CoreInfo line)) lines.

(** A computation that only logs [lines] and goes on. *)
Definition logs (m : Main.Action unit) (lines : list jsstring) : Prop :=
  forall t, m t = (Main.Done tt, t ++ logged lines).

Definition isGetInput (e : Main.ActionEvent) : bool :=
  match e with Main.GetInput _ _ => true | _ => false end.

Definition isReading (e : Main.ActionEvent) : bool :=
  match e with Main.GetInput _ _ | Main.SetSecret _ => true | _ => false end.

(** The lines of [core.error] and [core.debug]. *)
Definition isDiagnostic (e : Main.ActionEvent) : bool :=
  match e with Main.CoreError _ | Main.CoreDebug _ => true | _ => false end.

(** A configuration the entry point lets through. *)
Definition validated (config : Synchronize.SynchronizeConfig) : Prop :=
  matchesHostname (Synchronize.symitarHostname config) = true
  /\ 1 <= Synchronize.sshPort config <= 65535
  /\ 0 <= Synchronize.symNumber config <= 9999
  /\ match Synchronize.connectionType config with
     | https =>
         exists port,
           Synchronize.symitarAppPort config = Some port /\ 1 <= port <= 65535
     | ssh => Synchronize.symitarAppPort config = None
     end
  /\ Synchronize.localDirectoryPath config <> []
  /\ forallb cleanEntry (Synchronize.installPowerOnList config) = true
  /\ forallb cleanEntry (Synchronize.validateIgnoreList config) = true
  /\ Synchronize.logPrefix config = Main.logPrefix.

(** The reads of the seventeen inputs, in the order of the source. *)
Definition inputReads : Main.ActionTrace :=
  [Main.GetInput (js "directory-type") true;
   Main.GetInput (js "local-directory-path") false;
   Main.GetInput (js "connection-type") true;
   Main.GetInput (js "sync-mode") true;
   Main.GetInput (js "dry-run") false;
   Main.GetInput (js "symitar-hostname") true;
   Main.GetInput (js "symitar-app-port") false;
   Main.GetInput (js "ssh-username") true;
   Main.GetInput (js "ssh-password") true;
   Main.GetInput (js "ssh-port") false;
   Main.GetInput (js "sym-number") true;
   Main.GetInput (js "symitar-user-number") true;
   Main.GetInput (js "symitar-user-password") true;
   Main.GetInput (js "api-key") true;
   Main.GetInput (js "install-poweron-list") false;
   Main.GetInput (js "validate-ignore-list") false;
   Main.GetInput (js "debug") false].

(** The events [u] are the reads of all the inputs and then the masking
    of the three secrets as they were read. *)
Definition masking (env : Main.ActionEnv) (u : Main.ActionTrace)
    (apiKey symitarUserPassword sshPassword : jsstring) : Prop :=
  u = inputReads ++ [Main.SetSecret apiKey;
                     Main.SetSecret symitarUserPassword;
                     Main.SetSecret sshPassword]
  /\ Main.getInput env (js "api-key") true = Returns apiKey
  /\ Main.getInput env (js "symitar-user-password") true
     = Returns symitarUserPassword
  /\ Main.getInput env (js "ssh-password") true = Returns sshPassword.

(** What [configure] leaves behind, by its ending: a validated
    configuration after the reads and the masking; a thrown value, of a
    read that threw or of a check made after the masking; or the
    directory type that is a member of [Object.prototype]. *)
Definition configureSpec (env : Main.ActionEnv) (t : Main.ActionTrace)
    (r : Main.Ending Synchronize.SynchronizeConfig * Main.ActionTrace) : Prop :=
  exists u,
    snd r = t ++ u
    /\ match fst r with
       | Main.Done c =>
           validated c
           /\ masking env u (Synchronize.apiKey c)
                (Synchronize.symitarUserPassword c) (Synchronize.sshPassword c)
       | Main.Raised v =>
           (forallb isGetInput u = true
            /\ exists name required, Main.getInput env name required = Throws v)
           \/ (exists k p s, masking env u k p s)
       | Main.Unmodelled => exists k p s, masking env u k p s
       end.


(** What the environment answers to the read of an input. *)
Definition inputOf (env : Main.ActionEnv) (name : string) (required : bool)
  : Outcome jsstring :=
  Main.getInput env (js name) required.

(** How a configuration reflects the inputs it is made of. *)
Definition fromInputs (env : Main.ActionEnv)
    (config : Synchronize.SynchronizeConfig) : Prop :=
  inputOf env "directory-type" true
  = Returns (DirectoryConfigKeys.key_of (Synchronize.directoryType config))
  /\ inputOf env "connection-type" true
     = Returns (ConnectionType_toString (Synchronize.connectionType config))
  /\ inputOf env "sync-mode" true
     = Returns (SyncMode_toString (Synchronize.syncMode config))
  /\ inputOf env "symitar-hostname" true
     = Returns (Synchronize.symitarHostname config)
  /\ inputOf env "ssh-username" true = Returns (Synchronize.sshUsername config)
  /\ inputOf env "ssh-password" true = Returns (Synchronize.sshPassword config)
  /\ inputOf env "symitar-user-number" true
     = Returns (Synchronize.symitarUserNumber config)
  /\ inputOf env "symitar-user-password" true
     = Returns (Synchronize.symitarUserPassword config)
  /\ inputOf env "api-key" true = Returns (Synchronize.apiKey config)
  /\ (exists raw,
         inputOf env "dry-run" false = Returns raw
         /\ Synchronize.isDryRun config = jsstring_eqb raw (js "true"))
  /\ (exists raw,
         inputOf env "debug" false = Returns raw
         /\ Synchronize.debug config = jsstring_eqb raw (js "true"))
  /\ (exists raw,
         inputOf env "ssh-port" false = Returns raw
         /\ parseInt10 (if truthy raw then raw else js "22")
            = Some (Synchronize.sshPort config))
  /\ (exists raw,
         inputOf env "sym-number" true = Returns raw
         /\ parseInt10 raw = Some (Synchronize.symNumber config))
  /\ (exists raw,
         inputOf env "symitar-app-port" false = Returns raw
         /\ Synchronize.symitarAppPort config
            = match Synchronize.connectionType config with
              | https => parseInt10 raw
              | ssh => None
              end)
  /\ (exists raw,
         inputOf env "local-directory-path" false = Returns raw
         /\ Synchronize.localDirectoryPath config
            = if truthy raw then raw
              else DirectoryConfig.defaultPath
                     (DirectoryConfig.DIRECTORY_CONFIG
                        (Synchronize.directoryType config)))
  /\ (exists raw,
         inputOf env "install-poweron-list" false = Returns raw
         /\ Synchronize.installPowerOnList config = parseList raw)
  /\ (exists raw,
         inputOf env "validate-ignore-list" false = Returns raw
         /\ Synchronize.validateIgnoreList config = parseList raw).

Definition configureReadsSpec (env : Main.ActionEnv)
    (r : Main.Ending Synchronize.SynchronizeConfig * Main.ActionTrace) : Prop :=
  match fst r with
  | Main.Done config => fromInputs env config
  | _ => True
  end.

(** The four calls of [core.setOutput] for a result. *)
Definition outputEvents (r : SynchronizeResult) : Main.ActionTrace :=
  [Main.SetOutput (js "files-deployed") (filesDeployed r);
   Main.SetOutput (js "files-deleted") (filesDeleted r);
   Main.SetOutput (js "files-installed") (filesInstalled r);
   Main.SetOutput (js "files-uninstalled") (filesUninstalled r)].

(** What [proceed] does with a configuration: it logs, runs the
    orchestrator once and, when that returns, sets the outputs and logs
    the summary. *)
Definition proceedSpec (env : Main.ActionEnv)
    (config : Synchronize.SynchronizeConfig) (t : Main.ActionTrace)
    (r : Main.Ending unit * Main.ActionTrace) : Prop :=
  match orchestrate (Invoke (Main.world env) config) with
  | (Returns result, events) =>
      exists announce summaryLines,
        r = (Main.Done tt,
             t ++ logged announce ++ map Main.Inner events
               ++ outputEvents result ++ logged summaryLines)
  | (Throws v, events) =>
      exists announce,
        r = (Main.Raised v, t ++ logged announce ++ map Main.Inner events)
  end.

(** The shapes of a run: the reads, then whatever the ending of the
    checks and of the orchestrator leads to. *)
Inductive RunShape (env : Main.ActionEnv)
  : Main.Ending unit * Main.ActionTrace -> Prop :=
| RunUnread (u lines : Main.ActionTrace) (v : Thrown) (name : jsstring)
    (required : bool) :
    fst (Main.configure env []) = Main.Raised v ->
    forallb isGetInput u = true ->
    Main.getInput env name required = Throws v ->
    forallb isDiagnostic lines = true ->
    RunShape env
      (Main.Done tt, (u ++ lines) ++ [Main.SetFailed (failureMessage v)])
| RunRefused (u lines : Main.ActionTrace) (v : Thrown) (k p s : jsstring) :
    fst (Main.configure env []) = Main.Raised v ->
    masking env u k p s ->
    forallb isDiagnostic lines = true ->
    RunShape env
      (Main.Done tt, (u ++ lines) ++ [Main.SetFailed (failureMessage v)])
| RunInherited (u : Main.ActionTrace) (k p s : jsstring) :
    fst (Main.configure env []) = Main.Unmodelled ->
    masking env u k p s ->
    RunShape env (Main.Unmodelled, u)
| RunFailed (u lines : Main.ActionTrace) (config : Synchronize.SynchronizeConfig)
    (announce : list jsstring) (v : Thrown) (events : Trace) :
    fst (Main.configure env []) = Main.Done config ->
    validated config ->
    masking env u (Synchronize.apiKey config)
      (Synchronize.symitarUserPassword config) (Synchronize.sshPassword config) ->
    orchestrate (Invoke (Main.world env) config) = (Throws v, events) ->
    forallb isDiagnostic lines = true ->
    RunShape env
      (Main.Done tt,
       ((u ++ logged announce ++ map Main.Inner events) ++ lines)
         ++ [Main.SetFailed (failureMessage v)])
| RunSynchronized (u : Main.ActionTrace)
    (config : Synchronize.SynchronizeConfig)
    (announce summaryLines : list jsstring) (result : SynchronizeResult)
    (events : Trace) :
    fst (Main.configure env []) = Main.Done config ->
    validated config ->
    masking env u (Synchronize.apiKey config)
      (Synchronize.symitarUserPassword config) (Synchronize.sshPassword config) ->
    orchestrate (Invoke (Main.world env) config) = (Returns result, events) ->
    RunShape env
      (Main.Done tt,
       u ++ logged announce ++ map Main.Inner events
         ++ outputEvents result ++ logged summaryLines).

(* ------------------------------------------------------------------ *)
(** ** Sample runs of the action *)

(** [core.getInput] of [@actions/core] over a table of inputs: a required
    input that is missing or empty throws, and the value is trimmed. *)
Definition coreGetInput (inputs : list (jsstring * jsstring))
    (name : jsstring) (required : bool) : Outcome jsstring :=
  let val :=
    match find (fun kv => jsstring_eqb (fst kv) name) inputs with
    | Some kv => snd kv
    | None => []
    end in
  if required && negb (truthy val) then
    Throws (ErrorObject (Error (js "Input required and not supplied: " ++ name)))
  else Returns (trim val).

Definition sample_env (w : World) (inputs : list (jsstring * jsstring))
  : Main.ActionEnv :=
  {| Main.world := w;
     Main.getInput := coreGetInput inputs;
     Main.inObjectPrototype := DirectoryConfigKeys.standardObjectPrototype;
     Main.version := js "1.0.0";
     Main.elapsedTime := js "0.42";
     Main.stack_of := fun _ => None |}.

(** The inputs of a run over SSH, with [overrides] in front. *)
Definition inputsWith (overrides : list (jsstring * jsstring))
  : list (jsstring * jsstring) :=
  overrides ++
  [(js "directory-type", js "powerOns");
   (js "local-directory-path", []);
   (js "connection-type", js "ssh");
   (js "sync-mode", js "push");
   (js "dry-run", js "false");
   (js "symitar-hostname", js "symitar.example.com");
   (js "symitar-app-port", []);
   (js "ssh-username", js "testuser");
   (js "ssh-password", js "testpass");
   (js "ssh-port", js "22");
   (js "sym-number", js "627");
   (js "symitar-user-number", js "1");
   (js "symitar-user-password", js "questpass");
   (js "api-key", js "test-api-key");
   (js "install-poweron-list", js "FILE1.PO, FILE2.PO");
   (js "validate-ignore-list", []);
   (js "debug", js "false")].

(** A run over SSH with a license server that accepts the key, and the
    same run with an SSH port out of range. *)
Definition env_licensed : Main.ActionEnv :=
  sample_env world_licensed (inputsWith []).

Definition env_bad_port : Main.ActionEnv :=
  sample_env world_licensed (inputsWith [(js "ssh-port", js "99999")]).

Definition invalid_ssh_port : Thrown :=
  ErrorObject (Error (js "Invalid SSH port: 99999. Must be between 1-65535")).

(** The configuration [run] makes of [inputsWith []]. *)
Definition sampleConfiguration : Synchronize.SynchronizeConfig :=
  {| Synchronize.symitarHostname := js "symitar.example.com";
     Synchronize.symNumber := 627;
     Synchronize.symitarUserNumber := js "1";
     Synchronize.symitarUserPassword := js "questpass";
     Synchronize.sshUsername := js "testuser";
     Synchronize.sshPassword := js "testpass";
     Synchronize.sshPort := 22;
     Synchronize.symitarAppPort := None;
     Synchronize.apiKey := js "test-api-key";
     Synchronize.localDirectoryPath := js "REPWRITERSPECS/";
     Synchronize.directoryType := DirectoryConfig.powerOns;
     Synchronize.connectionType := ssh;
     Synchronize.syncMode := push;
     Synchronize.isDryRun := false;
     Synchronize.installPowerOnList := [js "FILE1.PO"; js "FILE2.PO"];
     Synchronize.validateIgnoreList := [];
     Synchronize.debug := false;
     Synchronize.logPrefix := Main.logPrefix |}.

(* ------------------------------------------------------------------ *)
(** ** Further sample inputs *)

(** The license server does not know the key. *)
Definition key_not_found : FetchOutcome :=
  FetchResolves
    {| ok := true; status := 200; statusText := js "OK";
       json := Returns (JObject [(js "isFound", JBool false);
                                 (js "subscriptions", JArray [])]) |}.

Definition world_key_not_found : World :=
  sample_world None (fun _ => key_not_found) (Returns tt).

(** Two network errors, then the license server accepts the key. *)
Definition world_licensed_late : World :=
  sample_world None
    (fun k => if (k <=? 2)%nat then network_error else active_subscription)
    (Returns tt).

(* ================================================================== *)
(** * Properties *)

(* ------------------------------------------------------------------ *)
(** ** Blank keys and [trim] *)

Lemma trimStart_shape (s : jsstring) :
  trimStart s = [] \/
  exists c r, trimStart s = c :: r /\ isWhiteSpace c = false.
Proof.
  induction s as [|c s IH]; cbn [trimStart].
  - now left.
  - destruct (isWhiteSpace c) eqn:Hc.
    + exact IH.
    + right. now exists c, s.
Qed.

Lemma trimStart_nil_iff (s : jsstring) :
  trimStart s = [] <-> forallb isWhiteSpace s = true.
Proof.
  induction s as [|c s IH]; cbn [trimStart forallb].
  - tauto.
  - destruct (isWhiteSpace c); cbn [andb].
    + exact IH.
    + split; discriminate.
Qed.

Lemma forallb_rev {A} (p : A -> bool) (l : list A) :
  forallb p (rev l) = forallb p l.
Proof.
  induction l as [|a l IH]; cbn [rev forallb].
  - reflexivity.
  - rewrite forallb_app, IH. cbn [forallb]. rewrite andb_true_r. apply andb_comm.
Qed.

Lemma rev_nil_iff {A} (l : list A) : rev l = [] <-> l = [].
Proof.
  split; intros H.
  - rewrite <- (rev_involutive l), H. reflexivity.
  - now subst.
Qed.

(** [s.trim()] is empty exactly when [s] consists of white space only
    (the empty string included). *)
Lemma trim_nil_iff (s : jsstring) :
  trim s = [] <-> forallb isWhiteSpace s = true.
Proof.
  unfold trim, trimEnd.
  transitivity (forallb isWhiteSpace (trimStart s) = true).
  - etransitivity; [apply rev_nil_iff|].
    etransitivity; [apply trimStart_nil_iff|].
    now rewrite forallb_rev.
  - etransitivity; [|apply trimStart_nil_iff].
    destruct (trimStart_shape s) as [E | (c & r & E & Hc)]; rewrite E.
    + cbn. split; reflexivity.
    + cbn [forallb]. rewrite Hc. cbn. split; discriminate.
Qed.

(** The guard [!apiKey || !apiKey.trim()] in terms of the key's code
    units. *)
Lemma blank_guard (apiKey : jsstring) :
  negb (truthy apiKey) || negb (truthy (trim apiKey))
  = forallb isWhiteSpace apiKey.
Proof.
  destruct (forallb isWhiteSpace apiKey) eqn:Hw.
  - apply trim_nil_iff in Hw. rewrite Hw. cbn. apply orb_true_r.
  - assert (Ht : trim apiKey <> []).
    { intros E. apply trim_nil_iff in E. congruence. }
    assert (Hk : apiKey <> []).
    { intros E. subst. cbn in Hw. discriminate. }
    destruct apiKey; [congruence|]. destruct (trim (n :: apiKey)); [congruence|].
    reflexivity.
Qed.

(* ------------------------------------------------------------------ *)
(** ** Counting events in a trace *)

Lemma fetchCalls_app (t u : Trace) :
  fetchCalls (t ++ u) = (fetchCalls t + fetchCalls u)%nat.
Proof. unfold fetchCalls. now rewrite filter_app, length_app. Qed.

Lemma endCalls_app (t u : Trace) :
  endCalls (t ++ u) = (endCalls t + endCalls u)%nat.
Proof. unfold endCalls. now rewrite filter_app, length_app. Qed.

Lemma clientsConstructed_app (t u : Trace) :
  clientsConstructed (t ++ u) = (clientsConstructed t + clientsConstructed u)%nat.
Proof. unfold clientsConstructed. now rewrite filter_app, length_app. Qed.

Lemma delaysWaited_app (t u : Trace) :
  delaysWaited (t ++ u) = delaysWaited t ++ delaysWaited u.
Proof.
  induction t as [|e t IH]; cbn [app delaysWaited].
  - reflexivity.
  - destruct e; cbn [app]; now rewrite ?IH.
Qed.

(* ------------------------------------------------------------------ *)
(** ** Programs are regular *)

Lemma regular_ret P {A} (a : A) : regular P (ret a).
Proof.
  intros t1 t2 _. exists (Returns a), []. cbn. now rewrite !app_nil_r.
Qed.

Lemma regular_throw P {A} (v : Thrown) : regular P (@throw A v).
Proof.
  intros t1 t2 _. exists (Throws v), []. cbn. now rewrite !app_nil_r.
Qed.

Lemma regular_await P {A} (o : Outcome A) : regular P (await o).
Proof.
  intros t1 t2 _. exists o, []. cbn. now rewrite !app_nil_r.
Qed.

Lemma regular_emit (P : Event -> bool) (e : Event) :
  P e = true -> regular P (emit e).
Proof.
  intros He t1 t2 _. exists (Returns tt), [e]. cbn. now rewrite He.
Qed.

Lemma regular_bind P {A B} (m : M A) (k : A -> M B) :
  regular P m -> (forall a, regular P (k a)) -> regular P (bind m k).
Proof.
  intros Hm Hk t1 t2 Ht. unfold bind.
  destruct (Hm t1 t2 Ht) as (o & u & -> & -> & Hu). destruct o as [a|v].
  - destruct (Hk a (t1 ++ u) (t2 ++ u)) as (o' & u' & -> & -> & Hu').
    { rewrite !fetchCalls_app. now rewrite Ht. }
    exists o', (u ++ u'). rewrite !app_assoc, forallb_app, Hu, Hu'.
    now repeat split.
  - exists (Throws v), u. now repeat split.
Qed.

Lemma regular_try_catch P {A} (m : M A) (h : Thrown -> M A) :
  regular P m -> (forall v, regular P (h v)) -> regular P (try_catch m h).
Proof.
  intros Hm Hh t1 t2 Ht. unfold try_catch.
  destruct (Hm t1 t2 Ht) as (o & u & -> & -> & Hu). destruct o as [a|v].
  - exists (Returns a), u. now repeat split.
  - destruct (Hh v (t1 ++ u) (t2 ++ u)) as (o' & u' & -> & -> & Hu').
    { rewrite !fetchCalls_app. now rewrite Ht. }
    exists o', (u ++ u'). rewrite !app_assoc, forallb_app, Hu, Hu'.
    now repeat split.
Qed.

Lemma regular_try_finally P {A} (m : M A) (f : M unit) :
  regular P m -> regular P f -> regular P (try_finally m f).
Proof.
  intros Hm Hf t1 t2 Ht. unfold try_finally.
  destruct (Hm t1 t2 Ht) as (o & u & -> & -> & Hu).
  destruct (Hf (t1 ++ u) (t2 ++ u)) as (o' & u' & -> & -> & Hu').
  { rewrite !fetchCalls_app. now rewrite Ht. }
  destruct o' as [x|v].
  - exists o, (u ++ u'). rewrite !app_assoc, forallb_app, Hu, Hu'.
    now repeat split.
  - exists (Throws v), (u ++ u'). rewrite !app_assoc, forallb_app, Hu, Hu'.
    now repeat split.
Qed.

Lemma regular_fetch (P : Event -> bool) (w : World) (apiKey : jsstring) :
  (forall u m h, P (Fetch u m h) = true) ->
  regular P (Subscription.fetch w apiKey).
Proof.
  intros HP t1 t2 Ht. unfold Subscription.fetch. rewrite Ht.
  destruct (fetch_outcome w (S (fetchCalls t2))) as [v|r];
    eexists; eexists; (split; [reflexivity|]); (split; [reflexivity|]);
    cbn; now rewrite HP.
Qed.

Ltac regular_tac :=
  repeat first
    [ apply regular_ret
    | apply regular_throw
    | apply regular_await
    | apply regular_emit; reflexivity
    | apply regular_fetch; reflexivity
    | apply regular_bind; [|intros ?]
    | apply regular_try_catch; [|intros ?]
    | apply regular_try_finally
    | match goal with
      | |- regular _ (if ?b then _ else _) => destruct b
      | |- regular _ (match ?x with _ => _ end) => destruct x
      end ].

Lemma regular_loop_body w apiKey attempt :
  regular isLicenseEvent (Subscription.loop_body w apiKey attempt).
Proof.
  unfold Subscription.loop_body, Subscription.try_block,
    Subscription.catch_block, console_info, console_error.
  regular_tac.
Qed.

Lemma regular_retry_loop w apiKey remaining :
  forall attempt,
    regular isLicenseEvent (Subscription.retry_loop w apiKey remaining attempt).
Proof.
  induction remaining as [|r IH]; intros attempt; cbn [Subscription.retry_loop].
  - apply regular_ret.
  - apply regular_bind; [apply regular_loop_body|].
    intros []; [apply regular_ret | apply IH].
Qed.

Lemma regular_validateApiKey w apiKey :
  regular isLicenseEvent (Subscription.validateApiKey w apiKey).
Proof.
  unfold Subscription.validateApiKey, console_info, console_error.
  apply regular_bind; [apply regular_emit; reflexivity|]. intros _.
  destruct (negb (truthy apiKey) || negb (truthy (trim apiKey))).
  - regular_tac.
  - apply regular_retry_loop.
Qed.

(** A regular program extends the trace it is started on. *)
Lemma regular_extends P {A} (m : M A) :
  regular P m -> forall t, exists u, snd (m t) = t ++ u.
Proof.
  intros Hm t. destruct (Hm t t eq_refl) as (o & u & E & _).
  exists u. now rewrite E.
Qed.

(** Started on a trace without any call of [fetch], the validator does
    what it does from the empty trace. *)
Lemma validateApiKey_frame w apiKey (t : Trace) :
  fetchCalls t = 0%nat ->
  Subscription.validateApiKey w apiKey t
  = (fst (run (Subscription.validateApiKey w apiKey)),
     t ++ snd (run (Subscription.validateApiKey w apiKey))).
Proof.
  intros Ht. unfold run.
  destruct (regular_validateApiKey w apiKey t [] Ht) as (o & u & -> & -> & _).
  reflexivity.
Qed.

(** The validator neither constructs nor closes a transport client. *)
Lemma license_events_no_client (u : Trace) :
  forallb isLicenseEvent u = true ->
  clientsConstructed u = 0%nat /\ endCalls u = 0%nat.
Proof.
  induction u as [|e u IH]; [now split|].
  cbn [forallb]. intros H. apply andb_prop in H as [He Hu].
  destruct (IH Hu) as [IH1 IH2].
  unfold clientsConstructed, endCalls in *.
  destruct e; cbn in He |- *; try discriminate; now split.
Qed.

Lemma validateApiKey_no_client w apiKey :
  clientsConstructed (snd (run (Subscription.validateApiKey w apiKey))) = 0%nat
  /\ endCalls (snd (run (Subscription.validateApiKey w apiKey))) = 0%nat.
Proof.
  unfold run.
  destruct (regular_validateApiKey w apiKey [] [] eq_refl) as (o & u & E & _ & Hu).
  rewrite E. cbn [snd app]. now apply license_events_no_client.
Qed.

(* ------------------------------------------------------------------ *)
(** ** One pass through the retry loop *)

Ltac step_eff :=
  cbv beta iota delta [bind ret throw emit await try_catch try_finally
                         console_info console_error core_info].

Section LoopBody.
Import Subscription.
Variables (w : World) (apiKey : jsstring).

Lemma fetchCalls_after_timer (t : Trace) (ms : Z) :
  fetchCalls (t ++ [SetTimeoutAbort ms]) = fetchCalls t.
Proof. rewrite fetchCalls_app. cbn. lia. Qed.

(** A retryable failure makes the [try] block throw, after the call of
    [fetch] and nothing else. *)
Lemma try_block_retryable (t : Trace) (v : Thrown) :
  retryableFailure (fetch_outcome w (S (fetchCalls t))) = Some v ->
  try_block w apiKey t
  = (Throws v,
     t ++ [Fetch (url w) (js "GET")
             [(js "Content-Type", js "application/json");
              (js "X-API-Key", apiKey)]])
  /\ isCustomError v = false.
Proof.
  intros H. unfold try_block, fetch. step_eff.
  destruct (fetch_outcome w (S (fetchCalls t))) as [v0 | r]; cbn in H.
  - destruct (isCustomError v0) eqn:Hc; [discriminate|].
    injection H as ->. now split.
  - destruct (ok r); [|discriminate]. cbn [negb].
    destruct (json r) as [d | v0]; [discriminate|].
    destruct (isCustomError v0) eqn:Hc; [discriminate|].
    injection H as ->. now split.
Qed.

(** Not the last attempt: the failure is logged, the backoff delay is
    waited, and the loop goes on. *)
Lemma loop_body_retry (attempt : nat) (t : Trace) (v : Thrown) :
  retryableFailure (fetch_outcome w (S (fetchCalls t))) = Some v ->
  (attempt < MAX_API_RETRIES)%nat ->
  exists u,
    loop_body w apiKey attempt t = (Returns NextIteration, t ++ u)
    /\ fetchCalls u = 1%nat
    /\ delaysWaited u = [backoffDelay attempt].
Proof.
  intros H Hlt. unfold loop_body. step_eff.
  rewrite <- (fetchCalls_after_timer t API_REQUEST_TIMEOUT_MS) in H.
  destruct (try_block_retryable _ _ H) as [-> Hc].
  unfold catch_block. step_eff.
  unfold isCustomError in Hc. rewrite Hc. cbn [orb].
  apply Nat.leb_gt in Hlt. rewrite Hlt.
  eexists. split.
  - rewrite <- !app_assoc. reflexivity.
  - split; reflexivity.
Qed.

(** The last attempt: the failure is wrapped in a [ConnectionError]. *)
Lemma loop_body_last (attempt : nat) (t : Trace) (v : Thrown) :
  retryableFailure (fetch_outcome w (S (fetchCalls t))) = Some v ->
  (MAX_API_RETRIES <= attempt)%nat ->
  exists u,
    loop_body w apiKey attempt t
    = (Throws (ErrorObject (ConnectionError
         (js "Failed to fetch PowerOn Pipelines API key subscription data after multiple attempts")
         (js "license" ++ (if isSandbox w then js ".libum-sandbox" else [])
            ++ js ".libum.io")
         443 true (Some (asError v)))),
       t ++ u)
    /\ fetchCalls u = 1%nat
    /\ delaysWaited u = [].
Proof.
  intros H Hge. unfold loop_body. step_eff.
  rewrite <- (fetchCalls_after_timer t API_REQUEST_TIMEOUT_MS) in H.
  destruct (try_block_retryable _ _ H) as [-> Hc].
  unfold catch_block. step_eff.
  unfold isCustomError in Hc. rewrite Hc. cbn [orb].
  apply Nat.leb_le in Hge. rewrite Hge.
  eexists. split.
  - rewrite <- !app_assoc. reflexivity.
  - split; reflexivity.
Qed.

(** A response whose status is not a success ends the loop at once with
    an [AuthenticationError], whatever the attempt number. *)
Lemma loop_body_not_ok (attempt : nat) (t : Trace) (r : Response) :
  fetch_outcome w (S (fetchCalls t)) = FetchResolves r ->
  ok r = false ->
  exists u,
    loop_body w apiKey attempt t
    = (Throws (ErrorObject (AuthenticationError
         (js "Failed to validate API key: " ++ js_of_Z (status r)
            ++ js " " ++ statusText r)
         apiKey [])),
       t ++ u)
    /\ fetchCalls u = 1%nat
    /\ delaysWaited u = [].
Proof.
  intros H Hok. unfold loop_body. step_eff.
  rewrite <- (fetchCalls_after_timer t API_REQUEST_TIMEOUT_MS) in H.
  unfold try_block, fetch. step_eff. rewrite H, Hok. cbn [negb].
  unfold catch_block. step_eff. cbn [instanceofAuthenticationError orb].
  eexists. split.
  - rewrite <- !app_assoc. reflexivity.
  - split; reflexivity.
Qed.

End LoopBody.

(* ------------------------------------------------------------------ *)
(** ** The retry loop *)

Section RetryLoop.
Import Subscription.
Variables (w : World) (apiKey : jsstring).

(** [n] retryable failures in a row, none of them on the last attempt,
    cost [n] calls of [fetch] and the [n] backoff delays of those
    attempts, and leave the loop at attempt [attempt + n]. *)
Lemma retry_loop_skip (n : nat) :
  forall remaining attempt t,
    (attempt + n <= MAX_API_RETRIES)%nat ->
    (forall j, (j < n)%nat ->
       retryableFailure (fetch_outcome w (S (fetchCalls t) + j)) <> None) ->
    exists u,
      retry_loop w apiKey (n + remaining) attempt t
      = retry_loop w apiKey remaining (attempt + n) (t ++ u)
      /\ fetchCalls u = n
      /\ delaysWaited u = map backoffDelay (seq attempt n).
Proof.
  induction n as [|n IH]; intros remaining attempt t Hle Hretry.
  - exists []. rewrite app_nil_r, Nat.add_0_r. now repeat split.
  - destruct (retryableFailure (fetch_outcome w (S (fetchCalls t)))) as [v|] eqn:Hv.
    2:{ exfalso. apply (Hretry 0%nat); [lia|]. now rewrite Nat.add_0_r. }
    destruct (loop_body_retry w apiKey attempt t v Hv) as (u1 & E1 & F1 & D1);
      [lia|].
    destruct (IH remaining (S attempt) (t ++ u1)) as (u2 & E2 & F2 & D2);
      [lia| |].
    { intros j Hj. rewrite fetchCalls_app, F1.
      replace (S (fetchCalls t + 1) + j)%nat
        with (S (fetchCalls t) + S j)%nat by lia.
      apply Hretry. lia. }
    exists (u1 ++ u2). split; [|split].
    + cbn [Nat.add retry_loop]. unfold bind at 1. rewrite E1, E2.
      now rewrite app_assoc, Nat.add_succ_r.
    + rewrite fetchCalls_app. lia.
    + rewrite delaysWaited_app, D1, D2. reflexivity.
Qed.

(** With a key that is not blank the validator enters the loop at
    attempt 1, no call of [fetch] made so far. *)
Lemma validateApiKey_enters_loop (t : Trace) :
  forallb isWhiteSpace apiKey = false ->
  validateApiKey w apiKey t
  = retry_loop w apiKey MAX_API_RETRIES 1
      (t ++ [ConsoleInfo (logPrefix ++ js " Validating API key")]).
Proof.
  intros Hk. unfold validateApiKey. rewrite blank_guard, Hk. reflexivity.
Qed.

(** Three retryable failures in a row: three calls of [fetch], the two
    backoff delays, and a [ConnectionError] that wraps the third
    failure and names the license host without the stage prefix. *)
Lemma validateApiKey_exhausts_retries :
  forallb isWhiteSpace apiKey = false ->
  (forall k, (1 <= k <= 3)%nat ->
     retryableFailure (fetch_outcome w k) <> None) ->
  exists v tr,
    retryableFailure (fetch_outcome w 3) = Some v
    /\ run (validateApiKey w apiKey)
       = (Throws (ErrorObject (ConnectionError
            (js "Failed to fetch PowerOn Pipelines API key subscription data after multiple attempts")
            (js "license" ++ (if isSandbox w then js ".libum-sandbox" else [])
               ++ js ".libum.io")
            443 true (Some (asError v)))),
          tr)
    /\ fetchCalls tr = 3%nat
    /\ delaysWaited tr = [500; 1000].
Proof.
  intros Hk Hretry. unfold run. rewrite (validateApiKey_enters_loop _ Hk).
  set (t0 := [] ++ [ConsoleInfo (logPrefix ++ js " Validating API key")]).
  destruct (retry_loop_skip 2 1 1 t0) as (u & E & F & D).
  { unfold MAX_API_RETRIES. lia. }
  { intros j Hj. apply Hretry. cbn. lia. }
  change MAX_API_RETRIES with (2 + 1)%nat. rewrite E.
  destruct (retryableFailure (fetch_outcome w 3)) as [v|] eqn:Hv.
  2:{ exfalso. apply (Hretry 3%nat); [lia | exact Hv]. }
  assert (Hidx : S (fetchCalls (t0 ++ u)) = 3%nat).
  { rewrite fetchCalls_app, F. reflexivity. }
  rewrite <- Hidx in Hv.
  destruct (loop_body_last w apiKey (1 + 2) (t0 ++ u) v Hv) as (u' & E' & F' & D');
    [unfold MAX_API_RETRIES; lia|].
  exists v, ((t0 ++ u) ++ u'). split; [reflexivity|]. split; [|split].
  - cbn [retry_loop]. unfold bind at 1. rewrite E'. reflexivity.
  - rewrite !fetchCalls_app, F, F'. reflexivity.
  - rewrite !delaysWaited_app, D, D'. reflexivity.
Qed.

End RetryLoop.

(* ------------------------------------------------------------------ *)
(** ** The license validator *)

Section LicenseValidator.
Import Subscription.

(** C5. A key that is empty, or empty once trimmed, fails at once with
    an [AuthenticationError] that carries the key as given and an empty
    host; the only events are the two log lines, so [fetch] is never
    called and no delay is waited. *)
Theorem validateApiKey_blank_key (w : World) (apiKey : jsstring) :
  trim apiKey = [] ->
  run (validateApiKey w apiKey)
  = (Throws (ErrorObject (AuthenticationError
       (js "PowerOn Pipelines API Key is missing") apiKey [])),
     [ConsoleInfo (logPrefix ++ js " Validating API key");
      ConsoleError (logPrefix ++ js " No API key provided. Please make sure 'apiKey' is set properly in your workflow.")])
  /\ fetchCalls (snd (run (validateApiKey w apiKey))) = 0%nat
  /\ delaysWaited (snd (run (validateApiKey w apiKey))) = [].
Proof.
  intros Hblank. apply trim_nil_iff in Hblank.
  assert (E : run (validateApiKey w apiKey)
              = (Throws (ErrorObject (AuthenticationError
                   (js "PowerOn Pipelines API Key is missing") apiKey [])),
                 [ConsoleInfo (logPrefix ++ js " Validating API key");
                  ConsoleError (logPrefix ++ js " No API key provided. Please make sure 'apiKey' is set properly in your workflow.")])).
  { unfold run, validateApiKey. rewrite blank_guard, Hblank. reflexivity. }
  rewrite E. repeat split.
Qed.

Lemma validateApiKey_blank_key_witness :
  run (validateApiKey world_licensed (js "   "))
  = (Throws (ErrorObject (AuthenticationError
       (js "PowerOn Pipelines API Key is missing") (js "   ") [])),
     [ConsoleInfo (logPrefix ++ js " Validating API key");
      ConsoleError (logPrefix ++ js " No API key provided. Please make sure 'apiKey' is set properly in your workflow.")])
  /\ fetchCalls (snd (run (validateApiKey world_licensed (js "   ")))) = 0%nat
  /\ delaysWaited (snd (run (validateApiKey world_licensed (js "   ")))) = [].
Proof.
  apply (validateApiKey_blank_key world_licensed (js "   ")).
  reflexivity.
Defined.

(** C4, as the code has it.  When the [k]-th attempt ([k] = 1, 2 or 3,
    the earlier ones having failed retryably) receives a response whose
    status is not a success, the validator stops there: [fetch] has been
    called exactly [k] times, and the failure is an
    [AuthenticationError] that carries the offending key and an empty
    host string. *)
Theorem validateApiKey_not_ok_is_terminal
    (w : World) (apiKey : jsstring) (k : nat) (r : Response) :
  forallb isWhiteSpace apiKey = false ->
  (1 <= k <= MAX_API_RETRIES)%nat ->
  (forall j, (1 <= j < k)%nat ->
     retryableFailure (fetch_outcome w j) <> None) ->
  fetch_outcome w k = FetchResolves r ->
  ok r = false ->
  fst (run (validateApiKey w apiKey))
  = Throws (ErrorObject (AuthenticationError
      (js "Failed to validate API key: " ++ js_of_Z (status r)
         ++ js " " ++ statusText r)
      apiKey []))
  /\ fetchCalls (snd (run (validateApiKey w apiKey))) = k.
Proof.
  intros Hk Hrange Hretry Hresp Hok.
  unfold run. rewrite (validateApiKey_enters_loop _ _ _ Hk).
  set (t0 := [] ++ [ConsoleInfo (logPrefix ++ js " Validating API key")]).
  destruct (retry_loop_skip w apiKey (k - 1) (S (MAX_API_RETRIES - k)) 1 t0)
    as (u & E & F & D).
  { lia. }
  { intros j Hj. apply Hretry. cbn. lia. }
  replace MAX_API_RETRIES
    with ((k - 1) + S (MAX_API_RETRIES - k))%nat at 1 2 by lia.
  rewrite E.
  assert (Hidx : S (fetchCalls (t0 ++ u)) = k).
  { rewrite fetchCalls_app, F. cbn. lia. }
  rewrite <- Hidx in Hresp.
  destruct (loop_body_not_ok w apiKey (1 + (k - 1)) (t0 ++ u) r Hresp Hok)
    as (u' & E' & F' & D').
  cbn [retry_loop]. unfold bind at 1 2. rewrite E'. cbn [fst snd].
  split; [reflexivity|].
  rewrite fetchCalls_app, F'. lia.
Qed.

Lemma validateApiKey_not_ok_is_terminal_witness :
  fst (run (validateApiKey world_unauthorized_late (js "bad-api-key")))
  = Throws (ErrorObject (AuthenticationError
      (js "Failed to validate API key: " ++ js_of_Z 401
         ++ js " " ++ js "Unauthorized")
      (js "bad-api-key") []))
  /\ fetchCalls (snd (run (validateApiKey world_unauthorized_late
                             (js "bad-api-key")))) = 3%nat.
Proof.
  apply (validateApiKey_not_ok_is_terminal world_unauthorized_late
           (js "bad-api-key") 3
           {| ok := false; status := 401; statusText := js "Unauthorized";
              json := Returns JNull |}).
  - reflexivity.
  - unfold MAX_API_RETRIES. lia.
  - intros j Hj.
    assert (Hcases : j = 1%nat \/ j = 2%nat) by lia.
    destruct Hcases as [-> | ->]; cbn; discriminate.
  - reflexivity.
  - reflexivity.
Defined.

(** C4, the counterexample: on a 401 the [AuthenticationError] carries
    the empty string as its host, not the host the request went to. *)
Lemma authentication_error_host_counterexample :
  fst (run (validateApiKey world_unauthorized (js "bad-api-key")))
  = Throws (ErrorObject (AuthenticationError
      (js "Failed to validate API key: 401 Unauthorized")
      (js "bad-api-key") []))
  /\ urlHost world_unauthorized = js "license.libum.io"
  /\ [] <> urlHost world_unauthorized.
Proof.
  split; [vm_compute; reflexivity|].
  split; [vm_compute; reflexivity|].
  vm_compute. discriminate.
Qed.

End LicenseValidator.

Section Backoff.
Import Subscription.

(** C6. When attempts 1 to [n] all fail retryably and [n] is 1 or 2 (so
    attempt [n] is not the final one), the delay waited after attempt
    [n] is [min (500 * 2^(n-1)) 10000] milliseconds, which is 500 after
    attempt 1 and 1000 after attempt 2. *)
Theorem backoff_delay_after_attempt (w : World) (apiKey : jsstring) (n : nat) :
  forallb isWhiteSpace apiKey = false ->
  (1 <= n <= 2)%nat ->
  (forall k, (1 <= k <= n)%nat ->
     retryableFailure (fetch_outcome w k) <> None) ->
  nth_error (delaysWaited (snd (run (validateApiKey w apiKey)))) (n - 1)
  = Some (Z.min (500 * 2 ^ (Z.of_nat n - 1)) 10000)
  /\ Z.min (500 * 2 ^ (Z.of_nat n - 1)) 10000
     = (if (n =? 1)%nat then 500 else 1000).
Proof.
  intros Hk Hrange Hretry.
  unfold run. rewrite (validateApiKey_enters_loop _ _ _ Hk).
  set (t0 := [] ++ [ConsoleInfo (logPrefix ++ js " Validating API key")]).
  destruct (retry_loop_skip w apiKey n (MAX_API_RETRIES - n) 1 t0)
    as (u & E & F & D).
  { unfold MAX_API_RETRIES. lia. }
  { intros j Hj. apply Hretry. cbn. lia. }
  replace MAX_API_RETRIES with (n + (MAX_API_RETRIES - n))%nat at 1
    by (unfold MAX_API_RETRIES; lia).
  rewrite E.
  destruct (regular_extends _ _
              (regular_retry_loop w apiKey (MAX_API_RETRIES - n) (1 + n))
              (t0 ++ u)) as [u' ->].
  rewrite !delaysWaited_app, D.
  assert (Hn : n = 1%nat \/ n = 2%nat) by lia.
  destruct Hn as [-> | ->]; split; reflexivity.
Qed.

Lemma backoff_delay_after_attempt_witness :
  nth_error (delaysWaited (snd (run (validateApiKey world_offline
                                       (js "api-key"))))) (2 - 1)
  = Some (Z.min (500 * 2 ^ (Z.of_nat 2 - 1)) 10000)
  /\ Z.min (500 * 2 ^ (Z.of_nat 2 - 1)) 10000
     = (if (2 =? 1)%nat then 500 else 1000).
Proof.
  apply (backoff_delay_after_attempt world_offline (js "api-key") 2).
  - reflexivity.
  - lia.
  - intros k _. cbn. discriminate.
Defined.

(** C3, at the failing input.  On a development stage
    ([SST_STAGE_PREFIX=dev-]) with the license server out of reach, the
    validator calls [fetch] three times, each time on the host
    [dev-license.libum.io], waits 500 ms and 1000 ms in between, and
    fails with a [ConnectionError] for port 443 over a secure transport
    that wraps the last network error; the host that error carries is
    [license.libum.io], which is not the host the requests went to. *)
Theorem connection_error_host_on_stage :
  fst (run (validateApiKey world_offline_staged (js "api-key")))
  = Throws (ErrorObject (ConnectionError
      (js "Failed to fetch PowerOn Pipelines API key subscription data after multiple attempts")
      (js "license.libum.io") 443 true
      (Some (Error (js "Network error")))))
  /\ fetchCalls (snd (run (validateApiKey world_offline_staged (js "api-key"))))
     = 3%nat
  /\ delaysWaited (snd (run (validateApiKey world_offline_staged (js "api-key"))))
     = [500; 1000]
  /\ urlHost world_offline_staged = js "dev-license.libum.io"
  /\ js "license.libum.io" <> urlHost world_offline_staged.
Proof.
  destruct (validateApiKey_exhausts_retries world_offline_staged (js "api-key"))
    as (v & tr & Hv & E & F & D).
  { reflexivity. }
  { intros k _. cbn. discriminate. }
  cbn in Hv. injection Hv as <-.
  rewrite E. cbn [fst snd asError].
  split; [reflexivity|]. split; [exact F|]. split; [exact D|].
  split; [vm_compute; reflexivity|].
  vm_compute. discriminate.
Qed.

End Backoff.

(* ------------------------------------------------------------------ *)
(** ** The transport calls and their teardown *)

Ltac teardown_tac :=
  step_eff;
  repeat match goal with
         | H : ?x = _ |- context [?x] => rewrite H
         end;
  repeat match goal with
         | |- context [match ?o with Returns _ => _ | Throws _ => _ end] =>
             destruct o as [[]|?] || destruct o
         end;
  eexists; (split; [rewrite <- ?app_assoc; reflexivity|]);
  split; reflexivity.

Section Transport.
Import Symitar.
Variable w : World.

Lemma https_teardown cfg dir mode installList t :
  port_missing (Synchronize.symitarAppPort cfg) = false ->
  exists u,
    Synchronize.synchronizeViaHTTPs w cfg dir mode installList t
    = (afterConstruction w (afterTeardown w (client_synchronizeFiles w)),
       t ++ u)
    /\ clientsConstructed u = 1%nat
    /\ endCalls u = clientsReturned w.
Proof.
  intros Hport.
  unfold Synchronize.synchronizeViaHTTPs, afterConstruction, afterTeardown,
    clientsReturned.
  rewrite Hport. teardown_tac.
Qed.

Lemma ssh_teardown cfg dir mode installList t :
  exists u,
    Synchronize.synchronizeViaSSH w cfg dir mode installList t
    = (afterConstruction w
         (afterTeardown w (whenReady w (client_synchronizeFiles w))),
       t ++ u)
    /\ clientsConstructed u = 1%nat
    /\ endCalls u = clientsReturned w.
Proof.
  unfold Synchronize.synchronizeViaSSH, afterConstruction, afterTeardown,
    whenReady, clientsReturned.
  teardown_tac.
Qed.

Lemma syncFiles_https_teardown cfg dir mode syncOptions t :
  port_missing (SynchronizeSyncFiles.symitarAppPort cfg) = false ->
  exists u,
    SynchronizeSyncFiles.synchronizeViaHTTPs w cfg dir mode syncOptions t
    = (afterConstruction w (afterTeardown w (client_syncFiles w)), t ++ u)
    /\ clientsConstructed u = 1%nat
    /\ endCalls u = clientsReturned w.
Proof.
  intros Hport.
  unfold SynchronizeSyncFiles.synchronizeViaHTTPs, afterConstruction,
    afterTeardown, clientsReturned.
  rewrite Hport. teardown_tac.
Qed.

Lemma syncFiles_ssh_teardown cfg dir mode syncOptions t :
  exists u,
    SynchronizeSyncFiles.synchronizeViaSSH w cfg dir mode syncOptions t
    = (afterConstruction w
         (afterTeardown w (whenReady w (client_syncFiles w))),
       t ++ u)
    /\ clientsConstructed u = 1%nat
    /\ endCalls u = clientsReturned w.
Proof.
  unfold SynchronizeSyncFiles.synchronizeViaSSH, afterConstruction,
    afterTeardown, whenReady, clientsReturned.
  teardown_tac.
Qed.

End Transport.

(** Without an application port the HTTPS flavour throws before it
    constructs a client: no event at all is emitted. *)
Lemma https_without_port w cfg dir mode installList t :
  port_missing (Synchronize.symitarAppPort cfg) = true ->
  Synchronize.synchronizeViaHTTPs w cfg dir mode installList t
  = (Throws (ErrorObject (Error
       (js "symitar-app-port is required when using HTTPS connection"))), t).
Proof.
  intros Hport. unfold Synchronize.synchronizeViaHTTPs. now rewrite Hport.
Qed.

Lemma syncFiles_https_without_port w cfg dir mode syncOptions t :
  port_missing (SynchronizeSyncFiles.symitarAppPort cfg) = true ->
  SynchronizeSyncFiles.synchronizeViaHTTPs w cfg dir mode syncOptions t
  = (Throws (ErrorObject (Error
       (js "symitar-app-port is required when using HTTPS connection"))), t).
Proof.
  intros Hport. unfold SynchronizeSyncFiles.synchronizeViaHTTPs.
  now rewrite Hport.
Qed.

Ltac orchestrator_tac NC NE :=
  match goal with
  | |- context [(match _ with https => _ | ssh => _ end) ?t] =>
      let t2 := fresh "t2" in
      let C0 := fresh "C0" in
      let E0 := fresh "E0" in
      set (t2 := t);
      assert (C0 : clientsConstructed t2 = 0%nat)
        by (subst t2; rewrite !clientsConstructed_app, NC; reflexivity);
      assert (E0 : endCalls t2 = 0%nat)
        by (subst t2; rewrite !endCalls_app, NE; reflexivity);
      clearbody t2
  end.

Ltac finish_reached :=
  match goal with
  | E : _ = (_, ?t ++ ?u),
    C : clientsConstructed ?u = _, N : endCalls ?u = _,
    C0 : clientsConstructed ?t = 0%nat, E0 : endCalls ?t = 0%nat |- _ =>
      rewrite E; cbn [syncCompletion];
      match goal with
      | |- context [afterConstruction ?w ?b] => destruct (afterConstruction w b)
      end;
      cbn [fst snd outcome_map];
      rewrite clientsConstructed_app, endCalls_app, C, N, C0, E0;
      repeat split
  end.

Section Orchestrator.
Import Symitar DirectoryConfig.
Variable w : World.

Lemma synchronizeToSymitar_cases (cfg : Synchronize.SynchronizeConfig) :
  let r := run (Synchronize.synchronizeToSymitar w cfg) in
  match fst (run (Subscription.validateApiKey w (Synchronize.apiKey cfg))) with
  | Throws v =>
      fst r = Throws v
      /\ clientsConstructed (snd r) = 0%nat /\ endCalls (snd r) = 0%nat
  | Returns _ =>
      if reachesConstruction (Synchronize.connectionType cfg)
           (Synchronize.symitarAppPort cfg)
      then
        fst r = outcome_map Synchronize.toSynchronizeResult
                  (afterConstruction w (afterTeardown w
                     (syncCompletion w (Synchronize.connectionType cfg)
                        (client_synchronizeFiles w))))
        /\ clientsConstructed (snd r) = 1%nat
        /\ endCalls (snd r) = clientsReturned w
      else
        fst r = Throws (ErrorObject (Error
                  (js "symitar-app-port is required when using HTTPS connection")))
        /\ clientsConstructed (snd r) = 0%nat /\ endCalls (snd r) = 0%nat
  end.
Proof.
  cbv zeta.
  change (run (Synchronize.synchronizeToSymitar w cfg))
    with (Synchronize.synchronizeToSymitar w cfg []).
  unfold Synchronize.synchronizeToSymitar. step_eff.
  rewrite validateApiKey_frame by reflexivity.
  destruct (validateApiKey_no_client w (Synchronize.apiKey cfg)) as [NC NE].
  destruct (fst (run (Subscription.validateApiKey w (Synchronize.apiKey cfg))))
    as [[]|v].
  2:{ cbn [fst snd]. rewrite clientsConstructed_app, endCalls_app, NC, NE.
      now repeat split. }
  orchestrator_tac NC NE.
  unfold reachesConstruction.
  destruct (Synchronize.connectionType cfg).
  - destruct (port_missing (Synchronize.symitarAppPort cfg)) eqn:Hp; cbn [negb].
    + rewrite https_without_port by exact Hp. cbn [fst snd]. now repeat split.
    + destruct (https_teardown w cfg
                  (symitarDirectory (getDirectoryConfig (Synchronize.directoryType cfg)))
                  (Synchronize.getSyncMode (Synchronize.syncMode cfg))
                  (getInstallList (Synchronize.directoryType cfg)
                     (Synchronize.installPowerOnList cfg)) t2 Hp)
        as (u & E & C & N).
      finish_reached.
  - destruct (ssh_teardown w cfg
                (symitarDirectory (getDirectoryConfig (Synchronize.directoryType cfg)))
                (Synchronize.getSyncMode (Synchronize.syncMode cfg))
                (getInstallList (Synchronize.directoryType cfg)
                   (Synchronize.installPowerOnList cfg)) t2)
      as (u & E & C & N).
    finish_reached.
Qed.

Lemma syncFiles_synchronizeToSymitar_cases
    (cfg : SynchronizeSyncFiles.SynchronizeConfig) :
  let r := run (SynchronizeSyncFiles.synchronizeToSymitar w cfg) in
  match fst (run (Subscription.validateApiKey w
                    (SynchronizeSyncFiles.apiKey cfg))) with
  | Throws v =>
      fst r = Throws v
      /\ clientsConstructed (snd r) = 0%nat /\ endCalls (snd r) = 0%nat
  | Returns _ =>
      if reachesConstruction (SynchronizeSyncFiles.connectionType cfg)
           (SynchronizeSyncFiles.symitarAppPort cfg)
      then
        fst r = outcome_map SynchronizeSyncFiles.toSynchronizeResult
                  (afterConstruction w (afterTeardown w
                     (syncCompletion w (SynchronizeSyncFiles.connectionType cfg)
                        (client_syncFiles w))))
        /\ clientsConstructed (snd r) = 1%nat
        /\ endCalls (snd r) = clientsReturned w
      else
        fst r = Throws (ErrorObject (Error
                  (js "symitar-app-port is required when using HTTPS connection")))
        /\ clientsConstructed (snd r) = 0%nat /\ endCalls (snd r) = 0%nat
  end.
Proof.
  cbv zeta.
  change (run (SynchronizeSyncFiles.synchronizeToSymitar w cfg))
    with (SynchronizeSyncFiles.synchronizeToSymitar w cfg []).
  unfold SynchronizeSyncFiles.synchronizeToSymitar. step_eff.
  rewrite validateApiKey_frame by reflexivity.
  destruct (validateApiKey_no_client w (SynchronizeSyncFiles.apiKey cfg))
    as [NC NE].
  destruct (fst (run (Subscription.validateApiKey w
                        (SynchronizeSyncFiles.apiKey cfg)))) as [[]|v].
  2:{ cbn [fst snd app]. rewrite NC, NE. now repeat split. }
  destruct (SynchronizeSyncFiles.syncMethod cfg); step_eff;
    orchestrator_tac NC NE;
    unfold reachesConstruction;
    (destruct (SynchronizeSyncFiles.connectionType cfg);
     [ destruct (port_missing (SynchronizeSyncFiles.symitarAppPort cfg)) eqn:Hp;
       cbn [negb];
       [ rewrite syncFiles_https_without_port by exact Hp;
         cbn [fst snd]; now repeat split
       | match goal with
         | |- context [SynchronizeSyncFiles.synchronizeViaHTTPs w cfg ?d ?m ?o ?t] =>
             destruct (syncFiles_https_teardown w cfg d m o t Hp)
               as (u & E & C & N)
         end;
         finish_reached ]
     | match goal with
       | |- context [SynchronizeSyncFiles.synchronizeViaSSH w cfg ?d ?m ?o ?t] =>
           destruct (syncFiles_ssh_teardown w cfg d m o t) as (u & E & C & N)
       end;
       finish_reached ]).
Qed.

End Orchestrator.

(* ------------------------------------------------------------------ *)
(** ** The directory-type registry and the result aggregator *)

Section Registry.
Import Symitar DirectoryConfig.

(** C8. For every directory type and every four file lists the total is
    the number of deployed plus deleted files, plus the number of
    installed plus uninstalled files exactly when the type supports
    install, which only [powerOns] does; for deployed [A, B], deleted
    [C], installed [A], uninstalled [D, E] it is 6 for [powerOns] and 3
    for each of the three other types. *)
Theorem calculateTotalChanges_spec
    (directoryType : DirectoryType) (result : FileLists) :
  calculateTotalChanges directoryType result
  = (length (deployed result) + length (deleted result)
     + (if supportsInstall (DIRECTORY_CONFIG directoryType)
        then length (installed result) + length (uninstalled result)
        else 0))%nat
  /\ supportsInstall (DIRECTORY_CONFIG directoryType)
     = match directoryType with powerOns => true | _ => false end
  /\ calculateTotalChanges powerOns resultWithInstall = 6%nat
  /\ calculateTotalChanges letterFiles resultWithInstall = 3%nat
  /\ calculateTotalChanges dataFiles resultWithInstall = 3%nat
  /\ calculateTotalChanges helpFiles resultWithInstall = 3%nat.
Proof.
  split; [|split].
  - unfold calculateTotalChanges.
    destruct (supportsInstall (DIRECTORY_CONFIG directoryType)); lia.
  - now destruct directoryType.
  - repeat split.
Qed.

(** C9. [getInstallList] returns the requested list unchanged for
    [powerOns] and the empty list for each other directory type,
    whatever the requested list holds; it never fails. *)
Theorem getInstallList_spec (installPowerOns : list jsstring) :
  getInstallList powerOns installPowerOns = installPowerOns
  /\ getInstallList letterFiles installPowerOns = []
  /\ getInstallList dataFiles installPowerOns = []
  /\ getInstallList helpFiles installPowerOns = []
  /\ getInstallList letterFiles [js "FILE1.PO"; js "FILE2.PO"] = [].
Proof. repeat split. Qed.

End Registry.


(* ------------------------------------------------------------------ *)
(** ** The orchestrator *)

Lemma outcome_map_afterTeardown (w : World) {A B} (f : A -> B) (o : Outcome A) :
  outcome_map f (afterTeardown w o) = afterTeardown w (outcome_map f o).
Proof. unfold afterTeardown. now destruct (client_end w). Qed.

Lemma outcome_map_afterConstruction (w : World) {A B} (f : A -> B)
    (o : Outcome A) :
  outcome_map f (afterConstruction w o) = afterConstruction w (outcome_map f o).
Proof. unfold afterConstruction. now destruct (client_new w). Qed.

Lemma outcome_map_syncCompletion (w : World) {A B} (f : A -> B)
    (c : ConnectionType) (o : Outcome A) :
  outcome_map f (syncCompletion w c o) = syncCompletion w c (outcome_map f o).
Proof.
  unfold syncCompletion, whenReady. destruct c; [reflexivity|].
  now destruct (client_isReady w).
Qed.

(** The three ways an invocation can go, in either revision: the license
    validation fails; or the HTTPS flavour misses its port; or a client
    constructor is called, once, and the client, if there is one, is
    closed once. *)
Lemma orchestrate_cases (i : Invocation) :
  match fst (run (Subscription.validateApiKey (world_of i) (apiKey_of i))) with
  | Throws v =>
      fst (orchestrate i) = Throws v
      /\ clientsConstructed (snd (orchestrate i)) = 0%nat
      /\ endCalls (snd (orchestrate i)) = 0%nat
  | Returns _ =>
      if reachesConstruction (connectionType_of i) (symitarAppPort_of i)
      then
        fst (orchestrate i)
        = afterConstruction (world_of i)
            (afterTeardown (world_of i)
               (syncCompletion (world_of i) (connectionType_of i)
                  (transportOutcome i)))
        /\ clientsConstructed (snd (orchestrate i)) = 1%nat
        /\ endCalls (snd (orchestrate i)) = clientsReturned (world_of i)
      else
        fst (orchestrate i) = Throws portRequired
        /\ clientsConstructed (snd (orchestrate i)) = 0%nat
        /\ endCalls (snd (orchestrate i)) = 0%nat
  end.
Proof.
  destruct i as [w cfg | w cfg];
    cbn [orchestrate world_of apiKey_of connectionType_of symitarAppPort_of
           transportOutcome];
    rewrite <- outcome_map_syncCompletion, <- outcome_map_afterTeardown,
      <- outcome_map_afterConstruction.
  - exact (synchronizeToSymitar_cases w cfg).
  - exact (syncFiles_synchronizeToSymitar_cases w cfg).
Qed.

(** Whatever the orchestrator returns is what the transport's synchronize
    primitive resolved to, in the shape of the result. *)
Lemma orchestrate_returns (i : Invocation) (r : SynchronizeResult) :
  fst (orchestrate i) = Returns r -> transportOutcome i = Returns r.
Proof.
  intros H. pose proof (orchestrate_cases i) as Hc.
  destruct (fst (run (Subscription.validateApiKey (world_of i) (apiKey_of i)))).
  2:{ destruct Hc as [Hc _]. congruence. }
  destruct (reachesConstruction _ _).
  2:{ destruct Hc as [Hc _]. congruence. }
  destruct Hc as [Hc _]. rewrite H in Hc.
  unfold afterConstruction, afterTeardown, syncCompletion, whenReady in Hc.
  destruct (client_new (world_of i)), (client_end (world_of i)),
    (connectionType_of i), (client_isReady (world_of i));
    congruence.
Qed.

Lemma optional_length_list (l : option (list jsstring)) :
  SynchronizeSyncFiles.optional_length l
  = length (SynchronizeSyncFiles.optional_list l).
Proof. now destruct l. Qed.

(** Each count of a result built from a transport outcome is the length of
    the list beside it, and its install lists are those of the outcome. *)
Lemma transportOutcome_shape (i : Invocation) (r : SynchronizeResult) :
  transportOutcome i = Returns r ->
  (filesDeployed r = length (deployedFiles r)
   /\ filesDeleted r = length (deletedFiles r)
   /\ filesInstalled r = length (installedFiles r)
   /\ filesUninstalled r = length (uninstalledFiles r))
  /\ transportInstallLists i = Returns (installedFiles r, uninstalledFiles r).
Proof.
  destruct i as [w cfg | w cfg]; cbn [transportOutcome transportInstallLists].
  - destruct (client_synchronizeFiles w) as [o|v]; cbn [outcome_map];
      [|discriminate].
    intros [= <-]. cbn. now repeat split.
  - destruct (client_syncFiles w) as [o|v]; cbn [outcome_map]; [|discriminate].
    intros [= <-]. cbn. rewrite !optional_length_list. now repeat split.
Qed.

Section OrchestratorResults.
Import Symitar DirectoryConfig.

(** C10. In every result the orchestrator returns, in either revision,
    each count is the length of its file list. *)
Theorem counts_are_lengths (i : Invocation) (r : SynchronizeResult) :
  fst (orchestrate i) = Returns r ->
  filesDeployed r = length (deployedFiles r)
  /\ filesDeleted r = length (deletedFiles r)
  /\ filesInstalled r = length (installedFiles r)
  /\ filesUninstalled r = length (uninstalledFiles r).
Proof.
  intros H. apply orchestrate_returns in H.
  now destruct (transportOutcome_shape i r H) as [Hcounts _].
Qed.

Lemma counts_are_lengths_witness :
  filesDeployed defaultSyncFilesResult'
  = length (deployedFiles defaultSyncFilesResult')
  /\ filesDeleted defaultSyncFilesResult'
     = length (deletedFiles defaultSyncFilesResult')
  /\ filesInstalled defaultSyncFilesResult'
     = length (installedFiles defaultSyncFilesResult')
  /\ filesUninstalled defaultSyncFilesResult'
     = length (uninstalledFiles defaultSyncFilesResult').
Proof.
  apply (counts_are_lengths
           (InvokeSyncFiles world_licensed
              (syncFilesConfigWith powerOns https (Some 42627)
                 (js "test-api-key")))
           defaultSyncFilesResult').
  vm_compute. reflexivity.
Defined.

(** C1, as the code has it.  For a directory type that does not support
    install, the result the orchestrator returns, in either revision,
    reports the installed and the uninstalled files of the transport
    outcome as they are, and their numbers; what leaves them out is the
    total of changes, which is the number of deployed plus deleted files
    whatever the outcome holds. *)
Theorem install_lists_reported_not_counted
    (i : Invocation) (r : SynchronizeResult) :
  supportsInstall (DIRECTORY_CONFIG (directoryType_of i)) = false ->
  fst (orchestrate i) = Returns r ->
  transportInstallLists i = Returns (installedFiles r, uninstalledFiles r)
  /\ filesInstalled r = length (installedFiles r)
  /\ filesUninstalled r = length (uninstalledFiles r)
  /\ calculateTotalChanges (directoryType_of i) (fileLists r)
     = (filesDeployed r + filesDeleted r)%nat.
Proof.
  intros Hs H. apply orchestrate_returns in H.
  destruct (transportOutcome_shape i r H) as [(Hd & Hx & Hi & Hu) Hl].
  unfold calculateTotalChanges. rewrite Hs, Hd, Hx. now repeat split.
Qed.

Lemma install_lists_reported_not_counted_witness :
  transportInstallLists
    (Invoke world_licensed (configWith letterFiles ssh None (js "test-api-key")))
  = Returns (installedFiles defaultResult, uninstalledFiles defaultResult)
  /\ filesInstalled defaultResult = length (installedFiles defaultResult)
  /\ filesUninstalled defaultResult = length (uninstalledFiles defaultResult)
  /\ calculateTotalChanges
       (directoryType_of
          (Invoke world_licensed
             (configWith letterFiles ssh None (js "test-api-key"))))
       (fileLists defaultResult)
     = (filesDeployed defaultResult + filesDeleted defaultResult)%nat.
Proof.
  apply (install_lists_reported_not_counted
           (Invoke world_licensed
              (configWith letterFiles ssh None (js "test-api-key")))
           defaultResult).
  - reflexivity.
  - vm_compute. reflexivity.
Defined.

(** C1, the counterexample: for [letterFiles], with a transport outcome
    that lists one installed file, the result has [filesInstalled = 1]
    and a non-empty list of installed files. *)
Lemma install_count_not_forced_counterexample :
  supportsInstall (DIRECTORY_CONFIG letterFiles) = false
  /\ fst (run (Synchronize.synchronizeToSymitar world_licensed
                 (configWith letterFiles ssh None (js "test-api-key"))))
     = Returns defaultResult
  /\ filesInstalled defaultResult = 1%nat
  /\ installedFiles defaultResult = [js "FILE1.PO"]
  /\ filesInstalled defaultResult <> 0%nat
  /\ installedFiles defaultResult <> [].
Proof.
  split; [reflexivity|]. split; [vm_compute; reflexivity|].
  split; [reflexivity|]. split; [reflexivity|].
  split; [cbn; discriminate | vm_compute; discriminate].
Qed.

End OrchestratorResults.

Section OrchestratorTeardown.
Import Symitar DirectoryConfig.

(** C2, as the code has it.  In every invocation of the orchestrator, in
    either revision, that reaches the construction of a transport client
    (over HTTPS or SSH) and gets one, [client.end()] is called exactly
    once, whether the synchronize call inside the [try] block returned or
    threw.  The caller then sees that original outcome or error when [end]
    succeeds, and the exception of [end] in place of it when [end] fails:
    this is [afterTeardown]. *)
Theorem teardown_exactly_once (i : Invocation) :
  client_new (world_of i) = Returns tt ->
  clientsConstructed (snd (orchestrate i)) = 1%nat ->
  endCalls (snd (orchestrate i)) = 1%nat
  /\ fst (orchestrate i)
     = afterTeardown (world_of i)
         (syncCompletion (world_of i) (connectionType_of i)
            (transportOutcome i)).
Proof.
  intros Hnew Hreach. pose proof (orchestrate_cases i) as Hc.
  destruct (fst (run (Subscription.validateApiKey (world_of i) (apiKey_of i)))).
  2:{ destruct Hc as (_ & Hc & _). congruence. }
  destruct (reachesConstruction _ _).
  2:{ destruct Hc as (_ & Hc & _). congruence. }
  destruct Hc as (Ho & _ & He).
  rewrite He, Ho. unfold clientsReturned, afterConstruction. rewrite Hnew.
  now split.
Qed.

Lemma teardown_exactly_once_witness :
  endCalls
    (snd (orchestrate
            (Invoke world_end_fails
               (configWith powerOns ssh None (js "test-api-key")))))
  = 1%nat
  /\ fst (orchestrate
            (Invoke world_end_fails
               (configWith powerOns ssh None (js "test-api-key"))))
     = afterTeardown
         (world_of
            (Invoke world_end_fails
               (configWith powerOns ssh None (js "test-api-key"))))
         (syncCompletion
            (world_of
               (Invoke world_end_fails
                  (configWith powerOns ssh None (js "test-api-key"))))
            (connectionType_of
               (Invoke world_end_fails
                  (configWith powerOns ssh None (js "test-api-key"))))
            (transportOutcome
               (Invoke world_end_fails
                  (configWith powerOns ssh None (js "test-api-key"))))).
Proof.
  apply (teardown_exactly_once
           (Invoke world_end_fails
              (configWith powerOns ssh None (js "test-api-key")))).
  - reflexivity.
  - vm_compute. reflexivity.
Defined.

(** C2, the counterexample: the synchronize call resolves to the default
    outcome, [client.end()] then rejects, and the caller gets the error of
    [end] instead of the outcome. *)
Lemma teardown_failure_masks_outcome_counterexample :
  syncCompletion world_end_fails ssh (client_synchronizeFiles world_end_fails)
  = Returns defaultSyncResult
  /\ client_end world_end_fails = Throws (ErrorObject (Error (js "end failed")))
  /\ fst (run (Synchronize.synchronizeToSymitar world_end_fails
                 (configWith powerOns ssh None (js "test-api-key"))))
     = Throws (ErrorObject (Error (js "end failed")))
  /\ fst (run (Synchronize.synchronizeToSymitar world_end_fails
                 (configWith powerOns ssh None (js "test-api-key"))))
     <> Returns defaultResult.
Proof.
  split; [reflexivity|]. split; [reflexivity|].
  split; [vm_compute; reflexivity | vm_compute; discriminate].
Qed.

(** C7, as the code has it.  With [connectionType = https] and no
    [symitarAppPort], the orchestrator, in either revision, fails without
    ever calling a client constructor: with the error of the license
    validation when that fails, and otherwise with the configuration error
    of the HTTPS flavour. *)
Theorem https_without_port_fails_before_construction (i : Invocation) :
  connectionType_of i = https ->
  symitarAppPort_of i = None ->
  clientsConstructed (snd (orchestrate i)) = 0%nat
  /\ fst (orchestrate i)
     = match fst (run (Subscription.validateApiKey (world_of i) (apiKey_of i)))
       with
       | Returns _ => Throws portRequired
       | Throws v => Throws v
       end.
Proof.
  intros Hc Hp. pose proof (orchestrate_cases i) as H.
  rewrite Hc, Hp in H. cbn [reachesConstruction port_missing negb] in H.
  destruct (fst (run (Subscription.validateApiKey (world_of i) (apiKey_of i))));
    destruct H as (Ho & Hn & _); now split.
Qed.

Lemma https_without_port_fails_before_construction_witness :
  clientsConstructed
    (snd (orchestrate
            (Invoke world_licensed
               (configWith powerOns https None (js "test-api-key")))))
  = 0%nat
  /\ fst (orchestrate
            (Invoke world_licensed
               (configWith powerOns https None (js "test-api-key"))))
     = match fst (run (Subscription.validateApiKey
                         (world_of
                            (Invoke world_licensed
                               (configWith powerOns https None
                                  (js "test-api-key"))))
                         (apiKey_of
                            (Invoke world_licensed
                               (configWith powerOns https None
                                  (js "test-api-key"))))))
       with
       | Returns _ => Throws portRequired
       | Throws v => Throws v
       end.
Proof.
  apply (https_without_port_fails_before_construction
           (Invoke world_licensed
              (configWith powerOns https None (js "test-api-key"))));
    reflexivity.
Defined.

(** C7, the counterexample: with an empty API key the same configuration
    fails with the [AuthenticationError] of the license validation, not
    with the configuration error. *)
Lemma https_without_port_counterexample :
  Synchronize.connectionType (configWith powerOns https None []) = https
  /\ Synchronize.symitarAppPort (configWith powerOns https None []) = None
  /\ fst (run (Synchronize.synchronizeToSymitar world_licensed
                 (configWith powerOns https None [])))
     = Throws (ErrorObject (AuthenticationError
         (js "PowerOn Pipelines API Key is missing") [] []))
  /\ fst (run (Synchronize.synchronizeToSymitar world_licensed
                 (configWith powerOns https None [])))
     <> Throws portRequired.
Proof.
  split; [reflexivity|]. split; [reflexivity|].
  split; [vm_compute; reflexivity | vm_compute; discriminate].
Qed.

End OrchestratorTeardown.

(* ================================================================== *)
(** * Further properties *)

(* ------------------------------------------------------------------ *)
(** ** Every pass of the retry loop, whatever the answer *)

Lemma jsstring_eqb_eq (a b : jsstring) : jsstring_eqb a b = true <-> a = b.
Proof.
  revert b. induction a as [|x a IH]; intros [|y b]; cbn [jsstring_eqb];
    try (split; congruence).
  rewrite andb_true_iff, N.eqb_eq, IH. split.
  - now intros [-> ->].
  - now intros [= -> ->].
Qed.

Lemma timerState_app (t u : Trace) :
  timerState (t ++ u) = fold_left timerStep u (timerState t).
Proof. unfold timerState. apply fold_left_app. Qed.

Lemma timerStep_quiet (u : Trace) (s : option bool) :
  forallb isQuietEvent u = true -> fold_left timerStep u s = s.
Proof.
  revert s. induction u as [|e u IH]; intros s H; [reflexivity|].
  cbn [forallb] in H. apply andb_prop in H as [He Hu]. cbn [fold_left].
  rewrite (IH _ Hu). destruct s as [p|]; [|reflexivity].
  destruct e; cbn in He |- *; congruence.
Qed.

Lemma quiet_no_fetch (u : Trace) :
  forallb isQuietEvent u = true -> filter isFetch u = [].
Proof.
  induction u as [|e u IH]; [reflexivity|].
  cbn [forallb filter]. intros H. apply andb_prop in H as [He Hu].
  rewrite (IH Hu). destruct e; cbn in He |- *; congruence.
Qed.

Lemma retryableFailure_verdict (apiKey : jsstring) (o : FetchOutcome) (v : Thrown) :
  retryableFailure o = Some v
  <-> attemptVerdict apiKey o = Throws v /\ isCustomError v = false.
Proof.
  destruct o as [v0 | r]; cbn [retryableFailure attemptVerdict].
  - destruct (isCustomError v0) eqn:Hc; split.
    + discriminate.
    + intros [[= ->] H]. congruence.
    + intros [= ->]. now split.
    + now intros [[= ->] _].
  - destruct (ok r).
    + destruct (json r) as [data | v0].
      * destruct (payloadError data); split; try discriminate;
          intros [[= <-] H]; cbn in H; discriminate.
      * destruct (isCustomError v0) eqn:Hc; split.
        -- discriminate.
        -- intros [[= ->] H]. congruence.
        -- intros [= ->]. now split.
        -- now intros [[= ->] _].
    + split; [discriminate|]. intros [[= <-] H]. cbn in H. discriminate.
Qed.

Lemma attemptVerdict_returns (apiKey : jsstring) (o : FetchOutcome) (x : unit) :
  attemptVerdict apiKey o = Returns x <-> isActiveSubscription o = true.
Proof.
  destruct x.
  destruct o as [v | r]; cbn [attemptVerdict isActiveSubscription].
  - split; discriminate.
  - destruct (ok r); cbn [andb]; [|split; discriminate].
    destruct (json r) as [data | v]; [|split; discriminate].
    destruct (payloadError data); split; congruence.
Qed.

Section AnyPass.
Import Subscription.
Variables (w : World) (apiKey : jsstring).

(** The [try] block makes one request, logs, and completes as the verdict
    of the answer says. *)
Lemma try_block_verdict (t : Trace) :
  exists logs,
    try_block w apiKey t
    = (outcome_map (fun _ => ReturnFromFunction)
         (attemptVerdict apiKey (fetch_outcome w (S (fetchCalls t)))),
       t ++ licenseRequest w apiKey :: logs)
    /\ forallb isQuietEvent logs = true
    /\ delaysWaited logs = [].
Proof.
  unfold try_block, fetch, licenseRequest, attemptVerdict, payloadError.
  step_eff.
  destruct (fetch_outcome w (S (fetchCalls t))) as [v | r]; step_eff.
  - exists []. now repeat split.
  - destruct (ok r); cbn [negb]; step_eff.
    + destruct (json r) as [data | v]; step_eff;
        [|exists []; now repeat split].
      destruct (negb (isSubscriptionResponse data)); step_eff;
        [exists []; now repeat split|].
      destruct (negb (data_isFound data)); step_eff;
        [exists []; now repeat split|].
      destruct (length (data_subscriptions data) =? 0)%nat; step_eff;
        [exists []; now repeat split|].
      eexists. rewrite <- (app_assoc t). cbn [app outcome_map].
      split; [reflexivity|]. now split.
    + eexists. rewrite <- (app_assoc t). cbn [app outcome_map].
      split; [reflexivity|]. now split.
Qed.

(** The [catch] block rethrows the two classes of the validator, wraps
    anything else on the last attempt, and otherwise waits and goes on. *)
Lemma catch_block_cases (attempt : nat) (v : Thrown) (t : Trace) :
  exists logs,
    catch_block w attempt v t
    = (if isCustomError v then Throws v
       else if (MAX_API_RETRIES <=? attempt)%nat
            then Throws (retriesExhausted w v)
            else Returns NextIteration,
       t ++ logs)
    /\ forallb isQuietEvent logs = true
    /\ delaysWaited logs
       = (if isCustomError v || (MAX_API_RETRIES <=? attempt)%nat
          then [] else [backoffDelay attempt]).
Proof.
  unfold catch_block, isCustomError, retriesExhausted, connectionErrorHost.
  step_eff.
  destruct (instanceofAuthenticationError v || instanceofConnectionError v);
    cbn [orb].
  - eexists. split; [reflexivity|]. now split.
  - destruct (MAX_API_RETRIES <=? attempt)%nat.
    + eexists. split; [reflexivity|]. now split.
    + eexists. rewrite <- !app_assoc. cbn [app].
      split; [reflexivity|]. now split.
Qed.

(** One pass: the timer is set, the request made, the timer cleared; in
    between only console lines and, when the loop goes on, the backoff
    wait. *)
Lemma loop_body_verdict (attempt : nat) (t : Trace) :
  exists logs,
    loop_body w apiKey attempt t
    = (match attemptVerdict apiKey (fetch_outcome w (S (fetchCalls t))) with
       | Returns _ => Returns ReturnFromFunction
       | Throws v =>
           if isCustomError v then Throws v
           else if (MAX_API_RETRIES <=? attempt)%nat
                then Throws (retriesExhausted w v)
                else Returns NextIteration
       end,
       t ++ SetTimeoutAbort API_REQUEST_TIMEOUT_MS
         :: licenseRequest w apiKey :: logs ++ [ClearTimeout])
    /\ forallb isQuietEvent logs = true
    /\ delaysWaited logs
       = match attemptVerdict apiKey (fetch_outcome w (S (fetchCalls t))) with
         | Returns _ => []
         | Throws v =>
             if isCustomError v || (MAX_API_RETRIES <=? attempt)%nat
             then [] else [backoffDelay attempt]
         end.
Proof.
  unfold loop_body. step_eff.
  destruct (try_block_verdict (t ++ [SetTimeoutAbort API_REQUEST_TIMEOUT_MS]))
    as (logs1 & E1 & Q1 & D1).
  rewrite fetchCalls_after_timer in E1. rewrite E1.
  destruct (attemptVerdict apiKey (fetch_outcome w (S (fetchCalls t))))
    as [[] | v]; cbn [outcome_map].
  - exists logs1. rewrite <- !app_assoc. cbn [app]. now repeat split.
  - destruct (catch_block_cases attempt v
                ((t ++ [SetTimeoutAbort API_REQUEST_TIMEOUT_MS])
                   ++ licenseRequest w apiKey :: logs1))
      as (logs2 & E2 & Q2 & D2).
    rewrite E2. exists (logs1 ++ logs2).
    rewrite <- !app_assoc. cbn [app]. rewrite <- ?app_assoc.
    split; [reflexivity|]. split.
    + now rewrite forallb_app, Q1, Q2.
    + now rewrite delaysWaited_app, D1, D2.
Qed.

End AnyPass.

(* ------------------------------------------------------------------ *)
(** ** The loop against its verdict *)

Section LoopVerdict.
Import Subscription.
Variables (w : World) (apiKey : jsstring).

(** The events of one pass, seen through the projections. *)
Lemma pass_events (logs : Trace) :
  forallb isQuietEvent logs = true ->
  let u := SetTimeoutAbort API_REQUEST_TIMEOUT_MS
             :: licenseRequest w apiKey :: logs ++ [ClearTimeout] in
  filter isFetch u = [licenseRequest w apiKey]
  /\ delaysWaited u = delaysWaited logs
  /\ fold_left timerStep u (Some false) = Some false.
Proof.
  intros Q. cbv zeta. split; [|split].
  - cbn [filter isFetch licenseRequest]. rewrite filter_app, (quiet_no_fetch _ Q).
    reflexivity.
  - cbn [delaysWaited licenseRequest]. rewrite delaysWaited_app. cbn.
    now rewrite app_nil_r.
  - cbn [fold_left timerStep licenseRequest].
    rewrite Z.eqb_refl. cbn [negb andb].
    rewrite fold_left_app, (timerStep_quiet _ _ Q). reflexivity.
Qed.

Lemma loopVerdict_pos (remaining attempt : nat) :
  (1 <= remaining)%nat -> (1 <= snd (loopVerdict w apiKey remaining attempt))%nat.
Proof.
  destruct remaining as [|r]; [lia|]. intros _. cbn [loopVerdict].
  destruct (attemptVerdict apiKey (fetch_outcome w attempt)) as [x|v];
    [cbn; lia|].
  destruct (isCustomError v); [cbn; lia|].
  destruct (MAX_API_RETRIES <=? attempt)%nat; [cbn; lia|].
  destruct (loopVerdict w apiKey r (S attempt)). cbn. lia.
Qed.

Lemma loopVerdict_bound (remaining attempt : nat) :
  (snd (loopVerdict w apiKey remaining attempt) <= remaining)%nat.
Proof.
  revert attempt. induction remaining as [|r IH]; intros attempt;
    cbn [loopVerdict]; [cbn; lia|].
  destruct (attemptVerdict apiKey (fetch_outcome w attempt)) as [x|v];
    [cbn; lia|].
  destruct (isCustomError v); [cbn; lia|].
  destruct (MAX_API_RETRIES <=? attempt)%nat; [cbn; lia|].
  specialize (IH (S attempt)).
  destruct (loopVerdict w apiKey r (S attempt)). cbn in *. lia.
Qed.

(** The loop does what its verdict says: the outcome, the requests (all
    the same), the waits between them, and a timer set and cleared around
    each request. *)
Lemma retry_loop_verdict (remaining : nat) :
  forall attempt t,
    S (fetchCalls t) = attempt ->
    (attempt + remaining = S MAX_API_RETRIES)%nat ->
    exists u,
      retry_loop w apiKey remaining attempt t
      = (fst (loopVerdict w apiKey remaining attempt), t ++ u)
      /\ filter isFetch u
         = repeat (licenseRequest w apiKey)
             (snd (loopVerdict w apiKey remaining attempt))
      /\ delaysWaited u
         = map backoffDelay
             (seq attempt (snd (loopVerdict w apiKey remaining attempt) - 1))
      /\ fold_left timerStep u (Some false) = Some false.
Proof.
  induction remaining as [|r IH]; intros attempt t Hidx Hinv.
  - exists []. rewrite app_nil_r. now repeat split.
  - destruct (loop_body_verdict w apiKey attempt t) as (logs & E & Q & D).
    rewrite Hidx in E, D.
    destruct (pass_events logs Q) as (PF & PD & PT). cbv zeta in PF, PD, PT.
    cbn [retry_loop loopVerdict]. unfold bind at 1. rewrite E.
    destruct (attemptVerdict apiKey (fetch_outcome w attempt)) as [x|v].
    { eexists. split; [reflexivity|]. cbn [fst snd repeat].
      rewrite PF, PD, PT, D. now repeat split. }
    destruct (isCustomError v); cbn [orb] in D.
    { eexists. split; [reflexivity|]. cbn [fst snd repeat].
      rewrite PF, PD, PT, D. now repeat split. }
    destruct (MAX_API_RETRIES <=? attempt)%nat eqn:Hlast.
    { eexists. split; [reflexivity|]. cbn [fst snd repeat].
      rewrite PF, PD, PT, D. now repeat split. }
    apply Nat.leb_gt in Hlast.
    set (u1 := SetTimeoutAbort API_REQUEST_TIMEOUT_MS
                 :: licenseRequest w apiKey :: logs ++ [ClearTimeout]) in *.
    destruct (IH (S attempt) (t ++ u1)) as (u2 & E2 & F2 & D2 & T2).
    { rewrite fetchCalls_app. unfold fetchCalls at 2. rewrite PF. cbn. lia. }
    { lia. }
    pose proof (loopVerdict_pos r (S attempt)) as Hpos.
    rewrite E2. destruct (loopVerdict w apiKey r (S attempt)) as [o n].
    cbn [fst snd] in *.
    exists (u1 ++ u2). rewrite app_assoc. split; [reflexivity|].
    split; [|split].
    + rewrite filter_app, PF, F2. reflexivity.
    + rewrite delaysWaited_app, PD, D, D2.
      assert (Hn : (1 <= n)%nat) by (apply Hpos; lia).
      replace (S n - 1)%nat with (S (n - 1)) by lia. reflexivity.
    + rewrite fold_left_app, PT. exact T2.
Qed.

(** The validator with a key that is not blank. *)
Lemma validateApiKey_verdict :
  forallb isWhiteSpace apiKey = false ->
  exists u,
    run (validateApiKey w apiKey)
    = (fst (loopVerdict w apiKey MAX_API_RETRIES 1),
       ConsoleInfo (logPrefix ++ js " Validating API key") :: u)
    /\ filter isFetch u
       = repeat (licenseRequest w apiKey)
           (snd (loopVerdict w apiKey MAX_API_RETRIES 1))
    /\ delaysWaited u
       = map backoffDelay
           (seq 1 (snd (loopVerdict w apiKey MAX_API_RETRIES 1) - 1))
    /\ fold_left timerStep u (Some false) = Some false.
Proof.
  intros Hk. unfold run. rewrite (validateApiKey_enters_loop _ _ _ Hk).
  destruct (retry_loop_verdict MAX_API_RETRIES 1
              ([] ++ [ConsoleInfo (logPrefix ++ js " Validating API key")]))
    as (u & E & F & D & T); [reflexivity | reflexivity |].
  exists u. rewrite E. now repeat split.
Qed.

(** The validator with a blank key. *)
Lemma validateApiKey_blank_run :
  forallb isWhiteSpace apiKey = true ->
  run (validateApiKey w apiKey)
  = (Throws (ErrorObject (AuthenticationError
       (js "PowerOn Pipelines API Key is missing") apiKey [])),
     [ConsoleInfo (logPrefix ++ js " Validating API key");
      ConsoleError (logPrefix ++ js " No API key provided. Please make sure 'apiKey' is set properly in your workflow.")]).
Proof.
  intros Hk. unfold run, validateApiKey. rewrite blank_guard, Hk. reflexivity.
Qed.

End LoopVerdict.

(* ------------------------------------------------------------------ *)
(** ** Reading the verdict *)

Section ReadingTheVerdict.
Import Subscription.
Variables (w : World) (apiKey : jsstring).

Lemma retriesExhausted_custom (v : Thrown) :
  isCustomError (retriesExhausted w v) = true.
Proof. reflexivity. Qed.

(** Retryable failures in a row, none on the last attempt, are skipped. *)
Lemma loopVerdict_skip (n : nat) :
  forall remaining attempt,
    (attempt + n <= MAX_API_RETRIES)%nat ->
    (forall j, (j < n)%nat ->
       retryableFailure (fetch_outcome w (attempt + j)) <> None) ->
    loopVerdict w apiKey (n + remaining) attempt
    = (fst (loopVerdict w apiKey remaining (attempt + n)),
       (n + snd (loopVerdict w apiKey remaining (attempt + n)))%nat).
Proof.
  induction n as [|n IH]; intros remaining attempt Hle Hretry.
  - rewrite Nat.add_0_r. cbn [Nat.add]. now destruct (loopVerdict _ _ _ _).
  - destruct (retryableFailure (fetch_outcome w attempt)) as [v|] eqn:Hv.
    2:{ exfalso. apply (Hretry 0%nat); [lia|]. now rewrite Nat.add_0_r. }
    apply (retryableFailure_verdict apiKey) in Hv as [Hv Hc].
    cbn [Nat.add loopVerdict]. rewrite Hv, Hc.
    assert (Hlt : (MAX_API_RETRIES <=? attempt)%nat = false)
      by (apply Nat.leb_gt; lia).
    rewrite Hlt, (IH remaining (S attempt)).
    + now rewrite Nat.add_succ_r.
    + lia.
    + intros j Hj. replace (S attempt + j)%nat with (attempt + S j)%nat by lia.
      apply Hretry. lia.
Qed.

(** The loop only ever throws the validator's own two classes of error. *)
Lemma loopVerdict_throws (remaining : nat) :
  forall attempt v,
    fst (loopVerdict w apiKey remaining attempt) = Throws v ->
    isCustomError v = true.
Proof.
  induction remaining as [|r IH]; intros attempt v; cbn [loopVerdict];
    [cbn; discriminate|].
  destruct (attemptVerdict apiKey (fetch_outcome w attempt)) as [x|v0];
    [cbn; discriminate|].
  destruct (isCustomError v0) eqn:Hc; [cbn; congruence|].
  destruct (MAX_API_RETRIES <=? attempt)%nat.
  - cbn. intros [= <-]. apply retriesExhausted_custom.
  - specialize (IH (S attempt) v).
    destruct (loopVerdict w apiKey r (S attempt)). exact IH.
Qed.

(** When the loop returns, some attempt got an accepting answer, and all
    attempts before it failed retryably. *)
Lemma loopVerdict_returns (remaining : nat) :
  forall attempt x,
    (attempt + remaining = S MAX_API_RETRIES)%nat ->
    (1 <= remaining)%nat ->
    fst (loopVerdict w apiKey remaining attempt) = Returns x ->
    exists j,
      (j < remaining)%nat
      /\ snd (loopVerdict w apiKey remaining attempt) = S j
      /\ isActiveSubscription (fetch_outcome w (attempt + j)) = true
      /\ forall i, (i < j)%nat ->
           retryableFailure (fetch_outcome w (attempt + i)) <> None.
Proof.
  induction remaining as [|r IH]; intros attempt x Hinv Hpos; [lia|].
  cbn [loopVerdict].
  destruct (attemptVerdict apiKey (fetch_outcome w attempt)) as [y|v] eqn:Hv.
  - intros _. exists 0%nat. rewrite Nat.add_0_r.
    apply attemptVerdict_returns in Hv.
    repeat split; [lia | exact Hv | intros i Hi; lia].
  - destruct (isCustomError v) eqn:Hc; [cbn; discriminate|].
    destruct (MAX_API_RETRIES <=? attempt)%nat eqn:Hlast; [cbn; discriminate|].
    apply Nat.leb_gt in Hlast.
    specialize (IH (S attempt) x).
    destruct (loopVerdict w apiKey r (S attempt)) as [o n]. cbn [fst snd] in *.
    intros Ho. destruct IH as (j & Hj & Hn & Ha & Hr); [lia | lia | exact Ho |].
    exists (S j). rewrite Nat.add_succ_r.
    repeat split; [lia | congruence | exact Ha |].
    intros [|i] Hi.
    + rewrite Nat.add_0_r. intros Hnone.
      assert (Hsome : retryableFailure (fetch_outcome w attempt) = Some v)
        by (apply (retryableFailure_verdict apiKey); now split).
      congruence.
    + rewrite Nat.add_succ_r. apply Hr. lia.
Qed.

End ReadingTheVerdict.

(* ------------------------------------------------------------------ *)
(** ** The license validator, whatever the answers *)

Section ValidatorAlways.
Import Subscription.

(** What holds of every run of the validator. *)
Lemma validateApiKey_summary (w : World) (apiKey : jsstring) :
  exists n,
    (n <= MAX_API_RETRIES)%nat
    /\ filter isFetch (snd (run (validateApiKey w apiKey)))
       = repeat (licenseRequest w apiKey) n
    /\ delaysWaited (snd (run (validateApiKey w apiKey)))
       = map backoffDelay (seq 1 (n - 1))
    /\ timerState (snd (run (validateApiKey w apiKey))) = Some false.
Proof.
  destruct (forallb isWhiteSpace apiKey) eqn:Hk.
  - rewrite (validateApiKey_blank_run w apiKey Hk). exists 0%nat.
    repeat split. unfold MAX_API_RETRIES. lia.
  - destruct (validateApiKey_verdict w apiKey Hk) as (u & E & F & D & T).
    rewrite E. exists (snd (loopVerdict w apiKey MAX_API_RETRIES 1)).
    split; [apply loopVerdict_bound|].
    cbn [snd filter isFetch delaysWaited]. unfold timerState.
    cbn [fold_left timerStep]. now repeat split.
Qed.

(** X4. The validator makes at most three requests, and the delays it
    waits are the first ones of 500 ms and 1000 ms, one fewer than the
    requests made: it never waits before the first request nor after the
    last. *)
Theorem validateApiKey_bounds (w : World) (apiKey : jsstring) :
  (fetchCalls (snd (run (validateApiKey w apiKey))) <= 3)%nat
  /\ delaysWaited (snd (run (validateApiKey w apiKey)))
     = firstn (fetchCalls (snd (run (validateApiKey w apiKey))) - 1)
         [500; 1000].
Proof.
  destruct (validateApiKey_summary w apiKey) as (n & Hn & F & D & _).
  unfold fetchCalls. rewrite F, D, repeat_length.
  unfold MAX_API_RETRIES in Hn.
  assert (Hcases : (n = 0 \/ n = 1 \/ n = 2 \/ n = 3)%nat) by lia.
  destruct Hcases as [-> | [-> | [-> | ->]]]; split; (lia || reflexivity).
Qed.

(** X5. In every run each request is made under an abort timer of
    30000 ms set just for it, and that timer is cleared before the next
    one is set and before the validator completes, however the attempt
    ends. *)
Theorem validateApiKey_timers (w : World) (apiKey : jsstring) :
  timerState (snd (run (validateApiKey w apiKey))) = Some false.
Proof.
  now destruct (validateApiKey_summary w apiKey) as (n & _ & _ & _ & T).
Qed.

(** X6. Every request of a run is the same one: a GET of the license URL
    with the key, as it was given, in the header [X-API-Key]; and the
    sandbox host is used exactly when [IS_SANDBOX] is the string [true]. *)
Theorem validateApiKey_requests (w : World) (apiKey : jsstring) :
  filter isFetch (snd (run (validateApiKey w apiKey)))
  = repeat
      (Fetch (url w) (js "GET")
         [(js "Content-Type", js "application/json"); (js "X-API-Key", apiKey)])
      (fetchCalls (snd (run (validateApiKey w apiKey))))
  /\ (isSandbox w = true <-> IS_SANDBOX w = Some (js "true"))
  /\ url w
     = js "https://" ++ sstStagePrefix w ++ js "license"
         ++ (if isSandbox w then js ".libum-sandbox" else [])
         ++ js ".libum.io/subscriptionsByApiKey?product=poweron-pipelines".
Proof.
  destruct (validateApiKey_summary w apiKey) as (n & _ & F & _ & _).
  split; [|split].
  - unfold fetchCalls. rewrite F, repeat_length. reflexivity.
  - unfold isSandbox. destruct (IS_SANDBOX w) as [v|].
    + rewrite jsstring_eqb_eq. split; congruence.
    + split; discriminate.
  - unfold url, urlHost. rewrite <- !app_assoc.
    destruct (isSandbox w); reflexivity.
Qed.

(** X3. Whatever the validator throws is an [AuthenticationError] or a
    [ConnectionError]. *)
Theorem validateApiKey_throws_own_errors
    (w : World) (apiKey : jsstring) (v : Thrown) :
  fst (run (validateApiKey w apiKey)) = Throws v ->
  instanceofAuthenticationError v || instanceofConnectionError v = true.
Proof.
  destruct (forallb isWhiteSpace apiKey) eqn:Hk.
  - rewrite (validateApiKey_blank_run w apiKey Hk). cbn [fst].
    now intros [= <-].
  - destruct (validateApiKey_verdict w apiKey Hk) as (u & E & _).
    rewrite E. cbn [fst]. apply loopVerdict_throws.
Qed.

Lemma validateApiKey_throws_own_errors_witness :
  instanceofAuthenticationError
    (retriesExhausted world_offline (ErrorObject (Error (js "Network error"))))
  || instanceofConnectionError
       (retriesExhausted world_offline (ErrorObject (Error (js "Network error"))))
  = true.
Proof.
  apply (validateApiKey_throws_own_errors world_offline (js "api-key")).
  vm_compute. reflexivity.
Defined.

(** X1. The validator returns exactly when the key is not blank and one
    of the three attempts gets a success status with a body that has
    [isFound = true] and a non-empty [subscriptions] array, every attempt
    before it having failed retryably. *)
Theorem validateApiKey_accepts_exactly (w : World) (apiKey : jsstring) :
  fst (run (validateApiKey w apiKey)) = Returns tt
  <-> forallb isWhiteSpace apiKey = false
      /\ exists k,
           (1 <= k <= MAX_API_RETRIES)%nat
           /\ isActiveSubscription (fetch_outcome w k) = true
           /\ forall j, (1 <= j < k)%nat ->
                retryableFailure (fetch_outcome w j) <> None.
Proof.
  split.
  - intros H. destruct (forallb isWhiteSpace apiKey) eqn:Hk.
    + rewrite (validateApiKey_blank_run w apiKey Hk) in H. discriminate.
    + split; [reflexivity|].
      destruct (validateApiKey_verdict w apiKey Hk) as (u & E & _).
      rewrite E in H. cbn [fst] in H.
      destruct (loopVerdict_returns w apiKey MAX_API_RETRIES 1 tt)
        as (j & Hj & _ & Ha & Hr); [reflexivity | unfold MAX_API_RETRIES; lia
                                     | exact H |].
      exists (1 + j)%nat. split; [lia|]. split; [exact Ha|].
      intros i Hi. replace i with (1 + (i - 1))%nat by lia. apply Hr. lia.
  - intros (Hk & k & Hrange & Ha & Hr).
    destruct (validateApiKey_verdict w apiKey Hk) as (u & E & _).
    rewrite E. cbn [fst].
    replace MAX_API_RETRIES
      with ((k - 1) + S (MAX_API_RETRIES - k))%nat by lia.
    rewrite loopVerdict_skip.
    + cbn [fst loopVerdict].
      replace (1 + (k - 1))%nat with k by lia.
      apply (attemptVerdict_returns apiKey _ tt) in Ha. now rewrite Ha.
    + lia.
    + intros j Hj. apply Hr. lia.
Qed.

End ValidatorAlways.

Section ValidatorEndings.
Import Subscription.

(** The attempt that ends the loop without exhausting it: an accepting
    answer, or one of the validator's own errors. *)
Lemma validateApiKey_ends_at
    (w : World) (apiKey : jsstring) (k : nat) (o : Outcome unit) :
  forallb isWhiteSpace apiKey = false ->
  (1 <= k <= MAX_API_RETRIES)%nat ->
  (forall j, (1 <= j < k)%nat ->
     retryableFailure (fetch_outcome w j) <> None) ->
  attemptVerdict apiKey (fetch_outcome w k) = o ->
  match o with Returns _ => True | Throws v => isCustomError v = true end ->
  fst (run (validateApiKey w apiKey)) = o
  /\ fetchCalls (snd (run (validateApiKey w apiKey))) = k
  /\ delaysWaited (snd (run (validateApiKey w apiKey)))
     = firstn (k - 1) [500; 1000].
Proof.
  intros Hk Hrange Hretry Hv Hend.
  destruct (validateApiKey_verdict w apiKey Hk) as (u & E & F & D & _).
  assert (L : loopVerdict w apiKey MAX_API_RETRIES 1 = (o, k)).
  { replace MAX_API_RETRIES
      with ((k - 1) + S (MAX_API_RETRIES - k))%nat by lia.
    rewrite loopVerdict_skip; [|lia|intros j Hj; apply Hretry; lia].
    replace (1 + (k - 1))%nat with k by lia.
    cbn [loopVerdict]. rewrite Hv.
    destruct o as [[]|v]; [|rewrite Hend]; cbn [fst snd]; f_equal; lia. }
  rewrite L in E, F, D. cbn [fst snd] in E, F, D. rewrite E.
  cbn [fst snd delaysWaited]. unfold fetchCalls. cbn [filter isFetch].
  rewrite F, D, repeat_length.
  unfold MAX_API_RETRIES in Hrange.
  assert (Hcases : (k = 1 \/ k = 2 \/ k = 3)%nat) by lia.
  destruct Hcases as [-> | [-> | ->]]; now repeat split.
Qed.

(** X2. An answer with a success status whose body has [isFound = true]
    and a [subscriptions] array with at least one entry validates the key,
    whatever that entry and the rest of the body hold: on attempt [k],
    after retryable failures only, the validator returns, having made
    exactly [k] requests and waited the first [k - 1] backoff delays. *)
Theorem validateApiKey_accepts_any_subscription
    (w : World) (apiKey : jsstring) (k : nat) (r : Response)
    (fields : list (jsstring * JsonValue)) (item : JsonValue)
    (items : list JsonValue) :
  forallb isWhiteSpace apiKey = false ->
  (1 <= k <= MAX_API_RETRIES)%nat ->
  (forall j, (1 <= j < k)%nat ->
     retryableFailure (fetch_outcome w j) <> None) ->
  fetch_outcome w k = FetchResolves r ->
  ok r = true ->
  json r = Returns (JObject fields) ->
  lookup (js "isFound") fields = Some (JBool true) ->
  lookup (js "subscriptions") fields = Some (JArray (item :: items)) ->
  fst (run (validateApiKey w apiKey)) = Returns tt
  /\ fetchCalls (snd (run (validateApiKey w apiKey))) = k
  /\ delaysWaited (snd (run (validateApiKey w apiKey)))
     = firstn (k - 1) [500; 1000].
Proof.
  intros Hk Hrange Hretry Hr Hok Hjson Hfound Hsubs.
  apply (validateApiKey_ends_at w apiKey k (Returns tt) Hk Hrange Hretry);
    [|exact I].
  rewrite Hr. cbn [attemptVerdict]. rewrite Hok, Hjson.
  unfold payloadError, isSubscriptionResponse, data_isFound, data_subscriptions.
  now rewrite Hfound, Hsubs.
Qed.

Lemma validateApiKey_accepts_any_subscription_witness :
  fst (run (validateApiKey world_licensed_late (js "api-key"))) = Returns tt
  /\ fetchCalls (snd (run (validateApiKey world_licensed_late (js "api-key"))))
     = 3%nat
  /\ delaysWaited (snd (run (validateApiKey world_licensed_late (js "api-key"))))
     = firstn (3 - 1) [500; 1000].
Proof.
  apply (validateApiKey_accepts_any_subscription
           world_licensed_late (js "api-key") 3
           {| ok := true; status := 200; statusText := js "OK";
              json := Returns (JObject
                        [(js "isFound", JBool true);
                         (js "subscriptions",
                          JArray [JObject [(js "id", JString (js "123"));
                                           (js "status", JString (js "active"))]])]) |}
           [(js "isFound", JBool true);
            (js "subscriptions",
             JArray [JObject [(js "id", JString (js "123"));
                              (js "status", JString (js "active"))]])]
           (JObject [(js "id", JString (js "123"));
                     (js "status", JString (js "active"))])
           []).
  - reflexivity.
  - unfold MAX_API_RETRIES. lia.
  - intros j Hj.
    assert (Hcases : j = 1%nat \/ j = 2%nat) by lia.
    destruct Hcases as [-> | ->]; cbn; discriminate.
  - reflexivity.
  - reflexivity.
  - reflexivity.
  - reflexivity.
  - reflexivity.
Defined.

(** X7. An answer with a success status whose body is refused ends the
    loop at once, on whatever attempt it comes: the validator throws an
    [AuthenticationError] with the message of the first check that fails
    (the shape of the body, then [isFound], then the number of
    subscriptions), the key and an empty host, and makes no further
    request. *)
Theorem validateApiKey_refuses_body
    (w : World) (apiKey : jsstring) (k : nat) (r : Response)
    (data : JsonValue) (msg : jsstring) :
  forallb isWhiteSpace apiKey = false ->
  (1 <= k <= MAX_API_RETRIES)%nat ->
  (forall j, (1 <= j < k)%nat ->
     retryableFailure (fetch_outcome w j) <> None) ->
  fetch_outcome w k = FetchResolves r ->
  ok r = true ->
  json r = Returns data ->
  (if negb (isSubscriptionResponse data) then
     Some (js "Invalid response format from license server")
   else if negb (data_isFound data) then
     Some (js "Provided API key was not found. Please make sure 'apiKey' is set properly in your workflow.")
   else if (length (data_subscriptions data) =? 0)%nat then
     Some (js "No active subscription found for the provided API key.")
   else None) = Some msg ->
  fst (run (validateApiKey w apiKey))
  = Throws (ErrorObject (AuthenticationError msg apiKey []))
  /\ fetchCalls (snd (run (validateApiKey w apiKey))) = k.
Proof.
  intros Hk Hrange Hretry Hr Hok Hjson Hmsg.
  destruct (validateApiKey_ends_at w apiKey k
              (Throws (ErrorObject (AuthenticationError msg apiKey [])))
              Hk Hrange Hretry) as (Ho & Hn & _).
  - rewrite Hr. cbn [attemptVerdict]. rewrite Hok, Hjson.
    unfold payloadError. now rewrite Hmsg.
  - reflexivity.
  - now split.
Qed.

Lemma validateApiKey_refuses_body_witness :
  fst (run (validateApiKey world_key_not_found (js "api-key")))
  = Throws (ErrorObject (AuthenticationError
      (js "Provided API key was not found. Please make sure 'apiKey' is set properly in your workflow.")
      (js "api-key") []))
  /\ fetchCalls (snd (run (validateApiKey world_key_not_found (js "api-key"))))
     = 1%nat.
Proof.
  apply (validateApiKey_refuses_body world_key_not_found (js "api-key") 1
           {| ok := true; status := 200; statusText := js "OK";
              json := Returns (JObject [(js "isFound", JBool false);
                                        (js "subscriptions", JArray [])]) |}
           (JObject [(js "isFound", JBool false);
                     (js "subscriptions", JArray [])])).
  - reflexivity.
  - unfold MAX_API_RETRIES. lia.
  - intros j Hj. lia.
  - reflexivity.
  - reflexivity.
  - reflexivity.
  - reflexivity.
Defined.

(** X8. Three retryable failures in a row, whatever they are: three
    requests, waits of 500 ms and 1000 ms between them, and a
    [ConnectionError] for port 443 over a secure transport, whose host is
    [license.libum.io] or, in the sandbox, [license.libum-sandbox.libum.io]
    (the stage prefix left out), and whose original error is the third
    failure when that is an [Error] and [new Error(String(failure))]
    otherwise. *)
Theorem validateApiKey_exhaustion
    (w : World) (apiKey : jsstring) (v1 v2 v3 : Thrown) :
  forallb isWhiteSpace apiKey = false ->
  retryableFailure (fetch_outcome w 1) = Some v1 ->
  retryableFailure (fetch_outcome w 2) = Some v2 ->
  retryableFailure (fetch_outcome w 3) = Some v3 ->
  fst (run (validateApiKey w apiKey))
  = Throws (ErrorObject (ConnectionError
      (js "Failed to fetch PowerOn Pipelines API key subscription data after multiple attempts")
      (if isSandbox w then js "license.libum-sandbox.libum.io"
       else js "license.libum.io")
      443 true
      (Some (match v3 with
             | ErrorObject e => e
             | OtherValue s => Error s
             end))))
  /\ fetchCalls (snd (run (validateApiKey w apiKey))) = 3%nat
  /\ delaysWaited (snd (run (validateApiKey w apiKey))) = [500; 1000].
Proof.
  intros Hk H1 H2 H3.
  destruct (validateApiKey_exhausts_retries w apiKey Hk)
    as (v & tr & Hv & E & F & D).
  { intros k Hrange.
    assert (Hcases : (k = 1 \/ k = 2 \/ k = 3)%nat) by lia.
    destruct Hcases as [-> | [-> | ->]]; congruence. }
  rewrite E. cbn [fst snd]. assert (v = v3) by congruence. subst v.
  split; [|now split].
  unfold asError. destruct (isSandbox w); reflexivity.
Qed.

Lemma validateApiKey_exhaustion_witness :
  fst (run (validateApiKey world_offline (js "api-key")))
  = Throws (ErrorObject (ConnectionError
      (js "Failed to fetch PowerOn Pipelines API key subscription data after multiple attempts")
      (if isSandbox world_offline then js "license.libum-sandbox.libum.io"
       else js "license.libum.io")
      443 true
      (Some (match ErrorObject (Error (js "Network error")) with
             | ErrorObject e => e
             | OtherValue s => Error s
             end))))
  /\ fetchCalls (snd (run (validateApiKey world_offline (js "api-key")))) = 3%nat
  /\ delaysWaited (snd (run (validateApiKey world_offline (js "api-key"))))
     = [500; 1000].
Proof.
  apply (validateApiKey_exhaustion world_offline (js "api-key")
           (ErrorObject (Error (js "Network error")))
           (ErrorObject (Error (js "Network error")))
           (ErrorObject (Error (js "Network error"))));
    reflexivity.
Defined.

End ValidatorEndings.

(* ------------------------------------------------------------------ *)
(** ** The registry on strings *)

Section RegistryKeys.
Import Symitar DirectoryConfig DirectoryConfigKeys.

Lemma ownKey_key_of (t : DirectoryType) : ownKey (key_of t) = Some t.
Proof. now destruct t. Qed.

Lemma ownKey_Some (type : jsstring) (t : DirectoryType) :
  ownKey type = Some t -> type = key_of t.
Proof.
  unfold ownKey. intros H. apply find_some in H as [_ H].
  apply jsstring_eqb_eq in H. now symmetry.
Qed.

Lemma ownKey_None (type : jsstring) :
  (forall t, type <> key_of t) -> ownKey type = None.
Proof.
  intros H. destruct (ownKey type) as [t|] eqn:E; [|reflexivity].
  apply ownKey_Some in E. now destruct (H t).
Qed.

Lemma DIRECTORY_CONFIG_injective (t t' : DirectoryType) :
  DIRECTORY_CONFIG t = DIRECTORY_CONFIG t' -> t = t'.
Proof.
  intros H. apply (f_equal symitarDirectory) in H.
  destruct t, t'; cbn in H; congruence.
Qed.

(** X9. Each of the four keys retrieves its own entry of the table,
    whatever else the runtime's [Object.prototype] holds, and no other
    string retrieves that entry: keys are matched exactly, case
    included. *)
Theorem getDirectoryConfig_round_trip
    (inObjectPrototype : jsstring -> bool) (t : DirectoryType)
    (type : jsstring) :
  getDirectoryConfig inObjectPrototype (key_of t)
  = Returns (Entry (DIRECTORY_CONFIG t))
  /\ (getDirectoryConfig inObjectPrototype type
      = Returns (Entry (DIRECTORY_CONFIG t))
      <-> type = key_of t).
Proof.
  assert (K : getDirectoryConfig inObjectPrototype (key_of t)
              = Returns (Entry (DIRECTORY_CONFIG t))).
  { unfold getDirectoryConfig, isValidDirectoryType.
    now rewrite ownKey_key_of. }
  split; [exact K|].
  split; [|now intros ->].
  unfold getDirectoryConfig, isValidDirectoryType.
  destruct (ownKey type) as [t'|] eqn:E; cbn [negb].
  - intros [= H]. apply DIRECTORY_CONFIG_injective in H. subst t'.
    now apply ownKey_Some.
  - destruct (inObjectPrototype type); cbn [negb]; discriminate.
Qed.

(** X10. A string that is none of the four keys is refused with an error
    that lists them in the order of the table, unless it names a member
    of [Object.prototype]: then the check passes and the lookup yields
    that member, which is no configuration. *)
Theorem getDirectoryConfig_not_a_key
    (inObjectPrototype : jsstring -> bool) (type : jsstring) :
  (forall t, type <> key_of t) ->
  isValidDirectoryType inObjectPrototype type = inObjectPrototype type
  /\ getDirectoryConfig inObjectPrototype type
     = if inObjectPrototype type then Returns (Inherited type)
       else Throws (ErrorObject (Error
              (js "Invalid directory type: " ++ type
                 ++ js ". Must be one of: powerOns, letterFiles, dataFiles, helpFiles"))).
Proof.
  intros H. unfold getDirectoryConfig, isValidDirectoryType.
  rewrite (ownKey_None type H). split; [reflexivity|].
  destruct (inObjectPrototype type); reflexivity.
Qed.

Lemma getDirectoryConfig_not_a_key_witness :
  isValidDirectoryType standardObjectPrototype (js "toString")
  = standardObjectPrototype (js "toString")
  /\ getDirectoryConfig standardObjectPrototype (js "toString")
     = if standardObjectPrototype (js "toString")
       then Returns (Inherited (js "toString"))
       else Throws (ErrorObject (Error
              (js "Invalid directory type: " ++ js "toString"
                 ++ js ". Must be one of: powerOns, letterFiles, dataFiles, helpFiles"))).
Proof.
  apply (getDirectoryConfig_not_a_key standardObjectPrototype (js "toString")).
  intros t. destruct t; vm_compute; discriminate.
Defined.

(** X11. The local path is never empty: it is the input path when that is
    a non-empty string, and the default of the directory type when the
    input is absent or the empty string; the four defaults are pairwise
    different, so the default tells the directory type. *)
Theorem getLocalDirectoryPath_spec
    (directoryType directoryType' : DirectoryType)
    (inputPath : option jsstring) (c : N) (rest : jsstring) :
  truthy (getLocalDirectoryPath directoryType inputPath) = true
  /\ getLocalDirectoryPath directoryType (Some (c :: rest)) = c :: rest
  /\ getLocalDirectoryPath directoryType (Some [])
     = getLocalDirectoryPath directoryType None
  /\ (getLocalDirectoryPath directoryType None
      = getLocalDirectoryPath directoryType' None
      <-> directoryType = directoryType').
Proof.
  split; [|split; [|split]].
  - destruct inputPath as [[|c' p]|]; cbn [getLocalDirectoryPath truthy];
      try reflexivity; now destruct directoryType.
  - reflexivity.
  - reflexivity.
  - split; [|now intros ->].
    destruct directoryType, directoryType'; cbn; intros H;
      try reflexivity; vm_compute in H; discriminate.
Qed.

End RegistryKeys.

(* ------------------------------------------------------------------ *)
(** ** The two phases of an invocation *)

Lemma syncCalls_app (t u : Trace) : syncCalls (t ++ u) = syncCalls t ++ syncCalls u.
Proof.
  induction t as [|e t IH]; [reflexivity|]. cbn [app syncCalls].
  destruct (syncCall_of e); cbn [app]; now rewrite IH.
Qed.

Lemma steps_app (t u : Trace) : steps (t ++ u) = steps t ++ steps u.
Proof.
  induction t as [|e t IH]; [reflexivity|]. cbn [app steps].
  destruct (step_of e); cbn [app]; now rewrite IH.
Qed.

(** Before the transport phase nothing touches the client, and the only
    steps are the requests to the license server. *)
Lemma preamble_events (pre : Trace) :
  forallb isPreambleEvent pre = true ->
  syncCalls pre = []
  /\ steps pre = repeat LicenseRequest (fetchCalls pre).
Proof.
  induction pre as [|e pre IH]; [now split|].
  cbn [forallb]. intros H. apply andb_prop in H as [He Hp].
  destruct (IH Hp) as [IH1 IH2]. unfold fetchCalls in *.
  destruct e; cbn in He |- *; try discriminate; rewrite ?IH1, ?IH2; now split.
Qed.

Lemma license_events_preamble (u : Trace) :
  forallb isLicenseEvent u = true -> forallb isPreambleEvent u = true.
Proof.
  induction u as [|e u IH]; [reflexivity|]. cbn [forallb].
  intros H. apply andb_prop in H as [He Hu]. unfold isPreambleEvent at 1.
  now rewrite He, (IH Hu).
Qed.

(** An invocation is the license validation, with lines of log around it,
    and then, when the key is valid, the transport phase. *)
Lemma orchestrate_phases (i : Invocation) :
  exists pre,
    forallb isPreambleEvent pre = true
    /\ fetchCalls pre
       = fetchCalls (snd (run (Subscription.validateApiKey (world_of i)
                                 (apiKey_of i))))
    /\ orchestrate i
       = match fst (run (Subscription.validateApiKey (world_of i)
                           (apiKey_of i))) with
         | Throws v => (Throws v, pre)
         | Returns _ => transportPhase i pre
         end.
Proof.
  destruct i as [w cfg | w cfg];
    cbn [orchestrate world_of apiKey_of transportPhase].
  - change (run (Synchronize.synchronizeToSymitar w cfg))
      with (Synchronize.synchronizeToSymitar w cfg []).
    unfold Synchronize.synchronizeToSymitar. step_eff.
    rewrite validateApiKey_frame by reflexivity.
    unfold run.
    destruct (regular_validateApiKey w (Synchronize.apiKey cfg) [] [] eq_refl)
      as (o & u & E & _ & Hu).
    rewrite E. cbn [fst snd app]. apply license_events_preamble in Hu.
    destruct o as [[]|v]; (eexists; split; [|split]; [| |reflexivity]).
    + cbn [forallb]. rewrite !forallb_app. cbn [forallb]. now rewrite Hu.
    + unfold fetchCalls. cbn [filter isFetch]. rewrite !filter_app.
      cbn [filter isFetch]. now rewrite !app_nil_r.
    + cbn [forallb]. now rewrite Hu.
    + reflexivity.
  - change (run (SynchronizeSyncFiles.synchronizeToSymitar w cfg))
      with (SynchronizeSyncFiles.synchronizeToSymitar w cfg []).
    unfold SynchronizeSyncFiles.synchronizeToSymitar. step_eff.
    rewrite validateApiKey_frame by reflexivity.
    unfold run.
    destruct (regular_validateApiKey w (SynchronizeSyncFiles.apiKey cfg)
                [] [] eq_refl) as (o & u & E & _ & Hu).
    rewrite E. cbn [fst snd app]. apply license_events_preamble in Hu.
    destruct o as [[]|v].
    + destruct (SynchronizeSyncFiles.syncMethod cfg); step_eff;
        (eexists; split; [|split]; [| |reflexivity]);
        [ rewrite !forallb_app; cbn [forallb]; now rewrite Hu
        | unfold fetchCalls; rewrite !filter_app; cbn [filter isFetch];
          now rewrite ?app_nil_r
        | rewrite !forallb_app; cbn [forallb]; now rewrite Hu
        | unfold fetchCalls; rewrite !filter_app; cbn [filter isFetch];
          now rewrite ?app_nil_r ].
    + eexists. split; [|split]; [| |reflexivity]; [exact Hu | reflexivity].
Qed.

Ltac phase_tac :=
  step_eff;
  repeat match goal with
         | |- context [match ?o with Returns _ => _ | Throws _ => _ end] =>
             destruct o as [[]|?] || destruct o
         end;
  cbn [returns andb app];
  eexists; eexists; (split; [rewrite <- ?app_assoc; reflexivity|]);
  split; reflexivity.

(** The transport phase: which steps it takes, and the one call of the
    synchronize primitive it makes, if any. *)
Lemma transportPhase_events (i : Invocation) (t : Trace) :
  exists o u,
    transportPhase i t = (o, t ++ u)
    /\ syncCalls u
       = (if reachesConstruction (connectionType_of i) (symitarAppPort_of i)
             && synchronizes (world_of i) (connectionType_of i)
          then [intendedCall i] else [])
    /\ steps u
       = (if reachesConstruction (connectionType_of i) (symitarAppPort_of i)
          then clientSteps (world_of i) (connectionType_of i) else []).
Proof.
  destruct i as [w cfg | w cfg];
    unfold transportPhase, intendedCall, reachesConstruction, synchronizes,
      clientSteps;
    cbn [world_of connectionType_of symitarAppPort_of directoryType_of].
  - destruct cfg as [host sym un up su sp sport aport key path dt c m dry il ign dbg lp].
    cbn [Synchronize.connectionType Synchronize.symitarAppPort
           Synchronize.directoryType].
    destruct c.
    + unfold Synchronize.synchronizeViaHTTPs.
      cbn [Synchronize.symitarAppPort].
      destruct (port_missing aport); cbn [negb andb].
      * step_eff. exists (Throws portRequired), [].
        rewrite app_nil_r. now repeat split.
      * phase_tac.
    + unfold Synchronize.synchronizeViaSSH. phase_tac.
  - destruct cfg as [host sym un up su sp sport aport key path dt c m meth conc dry il ign dbg lp].
    cbn [SynchronizeSyncFiles.connectionType SynchronizeSyncFiles.symitarAppPort
           SynchronizeSyncFiles.directoryType].
    destruct c.
    + unfold SynchronizeSyncFiles.synchronizeViaHTTPs.
      cbn [SynchronizeSyncFiles.symitarAppPort].
      destruct (port_missing aport); cbn [negb andb].
      * step_eff. exists (Throws portRequired), [].
        rewrite app_nil_r. now repeat split.
      * phase_tac.
    + unfold SynchronizeSyncFiles.synchronizeViaSSH. phase_tac.
Qed.

(* ------------------------------------------------------------------ *)
(** ** The orchestrator and its client *)

Section OrchestratorProtocol.
Import Symitar DirectoryConfig.

(** The calls of the synchronize primitive an invocation makes. *)
Lemma orchestrate_syncCalls (i : Invocation) :
  syncCalls (snd (orchestrate i))
  = if constructsClient i && synchronizes (world_of i) (connectionType_of i)
    then [intendedCall i] else [].
Proof.
  destruct (orchestrate_phases i) as (pre & Hpre & _ & E).
  destruct (preamble_events pre Hpre) as [Hs _].
  unfold constructsClient.
  destruct (fst (run (Subscription.validateApiKey (world_of i) (apiKey_of i))))
    as [[]|v]; cbn [returns andb].
  - destruct (transportPhase_events i pre) as (o & u & Eu & Hu & _).
    rewrite E, Eu. cbn [snd]. now rewrite syncCalls_app, Hs, Hu.
  - rewrite E. exact Hs.
Qed.

(** X12. An invocation calls the synchronize primitive at most once, and
    never again after a failure.  When it does (the key validated, the
    client constructed and, over SSH, ready), the call carries, in either
    flavour and revision, the local path, the dry-run flag and the
    ignore list of the configuration, the remote directory of its
    directory type, its sync mode, and as install list the one of the
    configuration for a type that supports install and the empty list for
    any other. *)
Theorem synchronize_called_once (i : Invocation) :
  syncCalls (snd (orchestrate i))
  = if constructsClient i && synchronizes (world_of i) (connectionType_of i)
    then [intendedCall i] else [].
Proof. exact (orchestrate_syncCalls i). Qed.

(** The steps of an invocation. *)
Lemma orchestrate_steps (i : Invocation) :
  steps (snd (orchestrate i))
  = repeat LicenseRequest
      (fetchCalls (snd (run (Subscription.validateApiKey (world_of i)
                               (apiKey_of i)))))
    ++ (if constructsClient i
        then clientSteps (world_of i) (connectionType_of i) else [])
  /\ (fetchCalls (snd (run (Subscription.validateApiKey (world_of i)
                              (apiKey_of i)))) <= 3)%nat.
Proof.
  split.
  2: { destruct (validateApiKey_summary (world_of i) (apiKey_of i))
         as (n & Hn & F & _).
       unfold fetchCalls. rewrite F, repeat_length. exact Hn. }
  destruct (orchestrate_phases i) as (pre & Hpre & Hf & E).
  destruct (preamble_events pre Hpre) as [_ Hs].
  unfold constructsClient. rewrite <- Hf.
  destruct (fst (run (Subscription.validateApiKey (world_of i) (apiKey_of i))))
    as [[]|v]; cbn [returns andb].
  - destruct (transportPhase_events i pre) as (o & u & Eu & _ & Hu).
    rewrite E, Eu. cbn [snd]. now rewrite steps_app, Hs, Hu.
  - rewrite E. cbn [snd]. now rewrite app_nil_r.
Qed.

(** X13. The steps of an invocation come in one order: first the requests
    to the license server, at most three; then, only when the key
    validated (and, over HTTPS, the port is there), the construction of
    the client, over SSH the wait for its readiness, the synchronize call
    when the client is ready, and the teardown, which is the last step
    whenever a client was obtained. *)
Theorem invocation_steps (i : Invocation) :
  steps (snd (orchestrate i))
  = repeat LicenseRequest
      (fetchCalls (snd (run (Subscription.validateApiKey (world_of i)
                               (apiKey_of i)))))
    ++ (if constructsClient i
        then clientSteps (world_of i) (connectionType_of i) else [])
  /\ (fetchCalls (snd (run (Subscription.validateApiKey (world_of i)
                              (apiKey_of i)))) <= 3)%nat.
Proof. exact (orchestrate_steps i). Qed.

(** X14. Over HTTPS an application port of 0 counts as missing: the
    orchestrator fails as it does without a port, and constructs no
    client. *)
Theorem https_port_zero_is_missing (i : Invocation) :
  connectionType_of i = https ->
  symitarAppPort_of i = Some 0 ->
  clientsConstructed (snd (orchestrate i)) = 0%nat
  /\ fst (orchestrate i)
     = match fst (run (Subscription.validateApiKey (world_of i) (apiKey_of i)))
       with
       | Returns _ => Throws portRequired
       | Throws v => Throws v
       end.
Proof.
  intros Hc Hp. pose proof (orchestrate_cases i) as H.
  rewrite Hc, Hp in H. cbn [reachesConstruction port_missing negb Z.eqb] in H.
  destruct (fst (run (Subscription.validateApiKey (world_of i) (apiKey_of i))));
    destruct H as (Ho & Hn & _); now split.
Qed.

Lemma https_port_zero_is_missing_witness :
  clientsConstructed
    (snd (orchestrate
            (Invoke world_licensed
               (configWith powerOns https (Some 0) (js "test-api-key")))))
  = 0%nat
  /\ fst (orchestrate
            (Invoke world_licensed
               (configWith powerOns https (Some 0) (js "test-api-key"))))
     = match fst (run (Subscription.validateApiKey
                         (world_of
                            (Invoke world_licensed
                               (configWith powerOns https (Some 0)
                                  (js "test-api-key"))))
                         (apiKey_of
                            (Invoke world_licensed
                               (configWith powerOns https (Some 0)
                                  (js "test-api-key"))))))
       with
       | Returns _ => Throws portRequired
       | Throws v => Throws v
       end.
Proof.
  apply (https_port_zero_is_missing
           (Invoke world_licensed
              (configWith powerOns https (Some 0) (js "test-api-key"))));
    reflexivity.
Defined.

End OrchestratorProtocol.

(* ------------------------------------------------------------------ *)
(** ** What the client is given *)

Lemma preamble_carries (i : Invocation) (pre : Trace) :
  forallb isPreambleEvent pre = true -> Forall (carriesConfiguration i) pre.
Proof.
  intros H. apply Forall_forall. intros e He.
  rewrite forallb_forall in H. specialize (H e He).
  destruct i, e; cbn in H |- *; try discriminate; exact I.
Qed.

Ltac carries_tac :=
  step_eff;
  repeat match goal with
         | |- context [match ?o with Returns _ => _ | Throws _ => _ end] =>
             destruct o as [[]|?] || destruct o
         end;
  eexists; eexists; (split; [rewrite <- ?app_assoc; reflexivity|]);
  repeat first [ apply Forall_nil
               | apply Forall_cons; [cbn; repeat split|] ].

Lemma transportPhase_carries (i : Invocation) (t : Trace) :
  exists o u,
    transportPhase i t = (o, t ++ u) /\ Forall (carriesConfiguration i) u.
Proof.
  destruct i as [w cfg | w cfg]; unfold transportPhase.
  - destruct cfg as [host sym un up su sp sport aport key path dt c m dry il ign dbg lp].
    cbn [Synchronize.connectionType Synchronize.symitarAppPort
           Synchronize.directoryType].
    destruct c.
    + unfold Synchronize.synchronizeViaHTTPs.
      cbn [Synchronize.symitarAppPort].
      destruct (port_missing aport).
      * step_eff. exists (Throws portRequired), [].
        rewrite app_nil_r. split; [reflexivity|constructor].
      * carries_tac.
    + unfold Synchronize.synchronizeViaSSH. carries_tac.
  - destruct cfg as [host sym un up su sp sport aport key path dt c m meth conc dry il ign dbg lp].
    cbn [SynchronizeSyncFiles.connectionType SynchronizeSyncFiles.symitarAppPort
           SynchronizeSyncFiles.directoryType].
    destruct c.
    + unfold SynchronizeSyncFiles.synchronizeViaHTTPs.
      cbn [SynchronizeSyncFiles.symitarAppPort].
      destruct (port_missing aport).
      * step_eff. exists (Throws portRequired), [].
        rewrite app_nil_r. split; [reflexivity|constructor].
      * carries_tac.
    + unfold SynchronizeSyncFiles.synchronizeViaSSH. carries_tac.
Qed.

Lemma orchestrate_carries (i : Invocation) :
  Forall (carriesConfiguration i) (snd (orchestrate i)).
Proof.
  destruct (orchestrate_phases i) as (pre & Hpre & _ & E).
  pose proof (preamble_carries i pre Hpre) as Hp.
  destruct (fst (run (Subscription.validateApiKey (world_of i) (apiKey_of i))))
    as [[]|v].
  - destruct (transportPhase_carries i pre) as (o & u & Eu & Hu).
    rewrite E, Eu. cbn [snd]. apply Forall_app. now split.
  - rewrite E. exact Hp.
Qed.

(** X15. Whatever an invocation hands to the transport client comes from
    its configuration: the SSH client is constructed with the host, the
    SSH port and the SSH credentials, the HTTPS client with the base URL
    [https://<host>:<app port>], the sym number and the Symitar
    credentials and the SSH settings; the SSH flavour passes the same sym
    number and credentials to the synchronize call.  The log level of the
    client is ['debug'] with the debug flag and otherwise ['info'] in the
    earlier revision and ['warn'] in the later one.  A revision never
    calls the other revision's primitive. *)
Theorem client_carries_configuration (i : Invocation) (e : Event) :
  In e (snd (orchestrate i)) -> carriesConfiguration i e.
Proof.
  intros He. pose proof (orchestrate_carries i) as H.
  rewrite Forall_forall in H. now apply H.
Qed.

Lemma client_carries_configuration_witness :
  carriesConfiguration
    (Invoke world_licensed
       (configWith DirectoryConfig.powerOns ssh None (js "test-api-key")))
    (NewSymitarSSH
       {| Symitar.host := js "symitar.example.com"; Symitar.port := 22;
          Symitar.username := js "testuser";
          Symitar.password := js "testpass" |} info_level).
Proof.
  apply (client_carries_configuration
           (Invoke world_licensed
              (configWith DirectoryConfig.powerOns ssh None (js "test-api-key")))).
  vm_compute. tauto.
Defined.

(* ------------------------------------------------------------------ *)
(** ** The lists of the inputs *)

Section InputLists.
Import DirectoryConfigKeys.

Lemma trimStart_decompose (s : jsstring) :
  exists ws, s = ws ++ trimStart s /\ forallb isWhiteSpace ws = true.
Proof.
  induction s as [|c s (ws & E & H)]; [now exists []|].
  cbn [trimStart]. destruct (isWhiteSpace c) eqn:Hc.
  - exists (c :: ws). cbn [app forallb]. now rewrite Hc, H, <- E.
  - now exists [].
Qed.

Lemma trimStart_head (c : N) (s : jsstring) :
  isWhiteSpace c = false -> trimStart (c :: s) = c :: s.
Proof. intros H. cbn [trimStart]. now rewrite H. Qed.

Lemma trimStart_idempotent (s : jsstring) : trimStart (trimStart s) = trimStart s.
Proof.
  destruct (trimStart_shape s) as [E | (c & r & E & Hc)]; rewrite E;
    [reflexivity | now apply trimStart_head].
Qed.

Lemma trimStart_skip (ws s : jsstring) :
  forallb isWhiteSpace ws = true -> trimStart (ws ++ s) = trimStart s.
Proof.
  induction ws as [|c ws IH]; [reflexivity|]. cbn [forallb app trimStart].
  intros H. apply andb_prop in H as [Hc Hws]. rewrite Hc. now apply IH.
Qed.

(** What [trim] keeps is a segment of the string that neither starts nor
    ends in white space. *)
Lemma trim_segment (s : jsstring) :
  exists before after,
    s = before ++ trim s ++ after
    /\ forallb isWhiteSpace before = true
    /\ forallb isWhiteSpace after = true
    /\ trimStart (trim s) = trim s
    /\ trimStart (rev (trim s)) = rev (trim s).
Proof.
  destruct (trimStart_decompose s) as (before & Es & Hb).
  destruct (trimStart_decompose (rev (trimStart s))) as (ws & Er & Hw).
  unfold trim, trimEnd.
  set (y := trimStart s) in *. set (z := trimStart (rev y)) in *.
  assert (Ey : y = rev z ++ rev ws).
  { rewrite <- (rev_involutive y), Er. now rewrite rev_app_distr. }
  exists before, (rev ws). repeat split.
  - now rewrite <- Ey.
  - exact Hb.
  - now rewrite forallb_rev.
  - destruct (rev z) as [|c r] eqn:Ez; [reflexivity|].
    destruct (trimStart_shape s) as [E | (c' & r' & E & Hc)]; fold y in E.
    + rewrite E in Ey. discriminate.
    + rewrite E in Ey. cbn [app] in Ey. injection Ey as -> _.
      now apply trimStart_head.
  - rewrite rev_involutive. apply trimStart_idempotent.
Qed.

Lemma trim_idempotent (s : jsstring) : trim (trim s) = trim s.
Proof.
  destruct (trim_segment s) as (_ & _ & _ & _ & _ & H1 & H2).
  unfold trim at 1. rewrite H1. unfold trimEnd. rewrite H2.
  apply rev_involutive.
Qed.

Lemma trim_incl (s : jsstring) (c : N) : In c (trim s) -> In c s.
Proof.
  destruct (trim_segment s) as (before & after & E & _). intros H.
  rewrite E. apply in_or_app. right. apply in_or_app. now left.
Qed.

Lemma trim_skip (ws s : jsstring) :
  forallb isWhiteSpace ws = true -> trim (ws ++ s) = trim s.
Proof. intros H. unfold trim. now rewrite trimStart_skip. Qed.

Lemma splitComma_field (a rest : jsstring) :
  ~ In 44%N a -> splitComma (a ++ 44%N :: rest) = a :: splitComma rest.
Proof.
  induction a as [|c a IH]; intros H.
  - reflexivity.
  - cbn [app splitComma]. destruct (N.eqb_spec c 44) as [->|_].
    + exfalso. apply H. now left.
    + rewrite IH; [reflexivity|]. intros Hin. apply H. now right.
Qed.

Lemma splitComma_last (a : jsstring) : ~ In 44%N a -> splitComma a = [a].
Proof.
  induction a as [|c a IH]; intros H; [reflexivity|].
  cbn [splitComma]. destruct (N.eqb_spec c 44) as [->|_].
  - exfalso. apply H. now left.
  - rewrite IH; [reflexivity|]. intros Hin. apply H. now right.
Qed.

Lemma splitComma_no_comma (s f : jsstring) :
  In f (splitComma s) -> ~ In 44%N f.
Proof.
  revert f. induction s as [|c s IH]; intros f.
  - cbn. intros [<-|[]]. intros [].
  - cbn [splitComma]. destruct (N.eqb_spec c 44) as [->|Hc].
    + intros [<-|H]; [intros []|now apply IH].
    + destruct (splitComma s) as [|field fields] eqn:E.
      * intros [<-|[]]. intros [H|[]]. now apply Hc.
      * intros [<-|H].
        -- intros [H|H]; [now apply Hc|]. revert H. apply IH. now left.
        -- apply IH. now right.
Qed.

Lemma existsb_comma (f : jsstring) :
  existsb (N.eqb 44) f = false <-> ~ In 44%N f.
Proof.
  split.
  - intros H Hin. assert (existsb (N.eqb 44) f = true); [|congruence].
    apply existsb_exists. exists 44%N. split; [exact Hin|apply N.eqb_refl].
  - intros H. destruct (existsb (N.eqb 44) f) eqn:E; [|reflexivity].
    apply existsb_exists in E as (c & Hc & Ec). apply N.eqb_eq in Ec.
    subst c. now destruct H.
Qed.

Lemma cleanEntry_spec (f : jsstring) :
  cleanEntry f = true <-> f <> [] /\ trim f = f /\ ~ In 44%N f.
Proof.
  unfold cleanEntry. rewrite !andb_true_iff, negb_true_iff, existsb_comma,
    jsstring_eqb_eq.
  destruct f; cbn [truthy]; intuition congruence.
Qed.

Lemma whitespace_no_comma (ws : jsstring) :
  forallb isWhiteSpace ws = true -> ~ In 44%N ws.
Proof.
  intros H Hin. rewrite forallb_forall in H. specialize (H _ Hin).
  discriminate.
Qed.

Lemma parse_fields (ws : jsstring) (l : list jsstring) :
  forallb isWhiteSpace ws = true ->
  forallb cleanEntry l = true ->
  l <> [] ->
  forall lead,
    forallb isWhiteSpace lead = true ->
    map trim (splitComma (lead ++ join (44%N :: ws) l)) = l.
Proof.
  intros Hws. induction l as [|a l IH]; [congruence|]. intros Hl _ lead Hlead.
  cbn [forallb] in Hl. apply andb_prop in Hl as [Ha Hl].
  apply cleanEntry_spec in Ha as (Hne & Ht & Hc).
  assert (Hwa : ~ In 44%N (lead ++ a)).
  { intros H. apply in_app_or in H as [H|H]; [|now apply Hc].
    now apply (whitespace_no_comma lead). }
  destruct l as [|b l].
  - cbn [join]. rewrite splitComma_last by exact Hwa. cbn [map].
    now rewrite trim_skip, Ht.
  - change (join (44%N :: ws) (a :: b :: l))
      with (a ++ (44%N :: ws) ++ join (44%N :: ws) (b :: l)).
    cbn [app]. rewrite app_assoc, splitComma_field by exact Hwa.
    cbn [map]. rewrite trim_skip, Ht by exact Hlead.
    f_equal. apply IH; [exact Hl | discriminate | exact Hws].
Qed.

Lemma filter_clean (l : list jsstring) :
  forallb cleanEntry l = true ->
  filter (fun f => (0 <? length f)%nat) l = l.
Proof.
  induction l as [|a l IH]; [reflexivity|]. cbn [forallb filter].
  intros H. apply andb_prop in H as [Ha Hl].
  apply cleanEntry_spec in Ha as (Hne & _).
  destruct a as [|c a]; [congruence|]. cbn [filter].
  change (0 <? length (c :: a))%nat with true. cbv iota. now rewrite IH.
Qed.

(** X16. Parsing a list input gives back the names it was written from:
    for names that are not empty, carry no comma and no white space at
    either end, joined by a comma and any white space (["A,B"],
    ["A, B"]), the parsed list is the list of the names, in order. *)
Theorem parseList_round_trip (ws : jsstring) (l : list jsstring) :
  forallb isWhiteSpace ws = true ->
  forallb cleanEntry l = true ->
  parseList (join (44%N :: ws) l) = l.
Proof.
  intros Hws Hl. unfold parseList. destruct l as [|a l]; [reflexivity|].
  pose proof (parse_fields ws (a :: l) Hws Hl) as H.
  specialize (H ltac:(discriminate) [] eq_refl). cbn [app] in H.
  rewrite H. now apply filter_clean.
Qed.

Lemma parseList_round_trip_witness :
  parseList (join (44%N :: [32%N]) [js "FILE1.PO"; js "FILE2.PO"; js "FILE3.PO"])
  = [js "FILE1.PO"; js "FILE2.PO"; js "FILE3.PO"].
Proof.
  apply (parseList_round_trip [32%N]
           [js "FILE1.PO"; js "FILE2.PO"; js "FILE3.PO"]); reflexivity.
Defined.

Lemma splitComma_chars (s f : jsstring) (c : N) :
  In f (splitComma s) -> In c f -> In c s.
Proof.
  revert f. induction s as [|d s IH]; intros f.
  - cbn. intros [<-|[]]. intros [].
  - cbn [splitComma]. destruct (d =? 44)%N.
    + intros [<-|H]; [intros []|]. intros Hc. right. now apply (IH f).
    + destruct (splitComma s) as [|field fields] eqn:E.
      * intros [<-|[]]. intros [->|[]]. now left.
      * intros [<-|H].
        -- intros [->|Hc]; [now left|]. right. apply (IH field); [now left|easy].
        -- intros Hc. right. apply (IH f); [now right|easy].
Qed.

Lemma splitComma_covers (s : jsstring) (c : N) :
  In c s -> c <> 44%N -> exists f, In f (splitComma s) /\ In c f.
Proof.
  induction s as [|d s IH]; [intros []|]. intros Hin Hc.
  cbn [splitComma]. destruct (N.eqb_spec d 44) as [->|Hd].
  - destruct Hin as [<-|Hin]; [congruence|].
    destruct (IH Hin Hc) as (f & Hf & Hcf). exists f. split; [now right|easy].
  - destruct Hin as [->|Hin].
    + destruct (splitComma s) as [|field fields].
      * exists [c]. split; now left.
      * exists (c :: field). split; now left.
    + destruct (IH Hin Hc) as (f & Hf & Hcf).
      destruct (splitComma s) as [|field fields]; [destruct Hf|].
      destruct Hf as [->|Hf].
      * exists (d :: f). split; [now left|now right].
      * exists f. split; [now right|easy].
Qed.

Lemma parseList_In (input f : jsstring) :
  In f (parseList input)
  <-> f <> [] /\ exists field, In field (splitComma input) /\ f = trim field.
Proof.
  unfold parseList. rewrite filter_In, in_map_iff. split.
  - intros [(field & <- & Hf) Hlen]. split.
    + intros E. rewrite E in Hlen. discriminate.
    + now exists field.
  - intros [Hne (field & Hf & ->)]. split; [now exists field|].
    destruct (trim field); [congruence|reflexivity].
Qed.

Lemma parseList_clean (input : jsstring) :
  forallb cleanEntry (parseList input) = true.
Proof.
  apply forallb_forall. intros f Hf.
  apply parseList_In in Hf as [Hne (field & Hfield & ->)].
  apply cleanEntry_spec. repeat split.
  - exact Hne.
  - apply trim_idempotent.
  - intros H. apply trim_incl in H.
    now apply (splitComma_no_comma input field).
Qed.

(** X17. Whatever the input, every entry of a parsed list is clean: it is
    not empty, has no white space at either end and holds no comma.  The
    parsed list is empty exactly when the input holds nothing but commas
    and white space. *)
Theorem parseList_entries (input : jsstring) :
  forallb cleanEntry (parseList input) = true
  /\ (parseList input = []
      <-> forallb (fun c => isWhiteSpace c || (c =? 44)%N) input = true).
Proof.
  split; [apply parseList_clean|]. split.
  - intros E. apply forallb_forall. intros c Hc.
    destruct (N.eqb_spec c 44) as [->|Hne]; [apply orb_true_r|].
    rewrite orb_false_r.
    destruct (splitComma_covers input c Hc Hne) as (f & Hf & Hcf).
    destruct (isWhiteSpace c) eqn:Hw; [reflexivity|exfalso].
    assert (Ht : trim f <> []).
    { intros Et. apply trim_nil_iff in Et.
      rewrite forallb_forall in Et. specialize (Et c Hcf). congruence. }
    assert (Hin : In (trim f) (parseList input)).
    { apply parseList_In. split; [exact Ht|]. now exists f. }
    rewrite E in Hin. destruct Hin.
  - intros H. destruct (parseList input) as [|f l] eqn:E; [reflexivity|].
    exfalso. assert (Hf : In f (parseList input)) by (rewrite E; now left).
    apply parseList_In in Hf as [Hne (field & Hfield & ->)].
    apply Hne, trim_nil_iff, forallb_forall. intros c Hc.
    rewrite forallb_forall in H.
    specialize (H c (splitComma_chars input field c Hfield Hc)).
    apply orb_prop in H as [H|H]; [exact H|].
    apply N.eqb_eq in H. subst c.
    now destruct (splitComma_no_comma input field Hfield).
Qed.

End InputLists.

(* ------------------------------------------------------------------ *)
(** ** The entry point: reading and checking the inputs *)

Ltac step_act :=
  cbv beta iota delta
    [Main.andThen Main.pure Main.raise Main.unmodelled Main.act Main.tryCatch
       Main.info Main.error Main.debug_ Main.setOutput Main.setFailed
       Main.setSecret Main.input Main.when].

(** The term an action is stuck on. *)
Ltac scrutinee t :=
  match t with
  | (if ?b then _ else _) => scrutinee b
  | match ?o with Returns _ => _ | Throws _ => _ end => scrutinee o
  | match ?o with Some _ => _ | None => _ end => scrutinee o
  | match ?o with Main.Done _ => _ | Main.Raised _ => _ | Main.Unmodelled => _ end =>
      scrutinee o
  | match ?c with https => _ | ssh => _ end => scrutinee c
  | (let (_, _) := ?p in _) => scrutinee p
  | (if ?b then _ else _) _ => scrutinee b
  | (match ?o with Returns _ => _ | Throws _ => _ end) _ => scrutinee o
  | (match ?o with Some _ => _ | None => _ end) _ => scrutinee o
  | (match ?c with https => _ | ssh => _ end) _ => scrutinee c
  | negb ?b => scrutinee b
  | andb ?b _ => scrutinee b
  | orb ?b _ => scrutinee b
  | (_, _) => fail 1 "done"
  | _ => t
  end.

Ltac simpl_act := step_act; cbn [negb andb orb]; step_act.

Ltac exec_act :=
  repeat (simpl_act;
          lazymatch goal with
          | |- _ ?r => let s := scrutinee r in destruct s eqn:?
          end);
  simpl_act.

Lemma getLocalDirectoryPath_truthy (t : DirectoryConfig.DirectoryType)
    (p : option jsstring) :
  DirectoryConfig.getLocalDirectoryPath t p <> [].
Proof.
  unfold DirectoryConfig.getLocalDirectoryPath.
  destruct p as [[|c p]|]; cbn [truthy]; destruct t; discriminate.
Qed.

Lemma configure_cases (env : Main.ActionEnv) (t : Main.ActionTrace) :
  configureSpec env t (Main.configure env t).
Proof.
  unfold Main.configure. exec_act.
  all: unfold configureSpec; cbn [fst snd].
  all: eexists; (split; [rewrite <- ?app_assoc; reflexivity|]).
  all: cbn [app].
  all: try (left; split; [reflexivity | eauto]; fail).
  all: try (right; do 3 eexists; unfold masking; repeat split;
            first [eassumption | reflexivity]; fail).
  all: try (do 3 eexists; unfold masking; repeat split;
            first [eassumption | reflexivity]; fail).
  all: (split; [|unfold masking;
                  cbn [Synchronize.apiKey Synchronize.symitarUserPassword
                         Synchronize.sshPassword];
                  repeat split; first [eassumption | reflexivity]]).
  all: repeat match goal with
              | H : (_ <? _) = false |- _ => apply Z.ltb_ge in H
              end.
  all: unfold validated;
    cbn [Synchronize.symitarHostname Synchronize.sshPort Synchronize.symNumber
           Synchronize.connectionType Synchronize.symitarAppPort
           Synchronize.localDirectoryPath Synchronize.installPowerOnList
           Synchronize.validateIgnoreList Synchronize.logPrefix].
  all: repeat split;
    first [ assumption | lia | apply getLocalDirectoryPath_truthy
          | apply parseList_clean
          | (eexists; split; [reflexivity|lia]) | idtac ].
Qed.

(* ------------------------------------------------------------------ *)
(** ** The entry point: logging and reporting *)

Lemma logged_app (l1 l2 : list jsstring) :
  logged (l1 ++ l2) = logged l1 ++ logged l2.
Proof. apply map_app. Qed.

Lemma logs_pure : logs (Main.pure tt) [].
Proof. intros t. unfold Main.pure. cbn. now rewrite app_nil_r. Qed.

Lemma logs_info (line : jsstring) : logs (Main.info line) [line].
Proof. intros t. reflexivity. Qed.

Lemma logs_andThen (m k : Main.Action unit) (l1 l2 : list jsstring) :
  logs m l1 -> logs k l2 -> logs (Main.andThen m (fun _ => k)) (l1 ++ l2).
Proof.
  intros Hm Hk t. unfold Main.andThen. rewrite Hm, Hk.
  now rewrite logged_app, app_assoc.
Qed.

Lemma logs_if (b : bool) (m1 m2 : Main.Action unit) (l1 l2 : list jsstring) :
  logs m1 l1 -> logs m2 l2 ->
  logs (if b then m1 else m2) (if b then l1 else l2).
Proof. now destruct b. Qed.

Lemma logs_when (b : bool) (m : Main.Action unit) (l : list jsstring) :
  logs m l -> logs (Main.when b m) (if b then l else []).
Proof. intros H. unfold Main.when. apply logs_if; [exact H|apply logs_pure]. Qed.

Lemma logs_forEach (files : list jsstring) (line : jsstring -> jsstring) :
  logs (Main.forEach files (fun file => Main.info (line file))) (map line files).
Proof.
  induction files as [|f files IH]; [apply logs_pure|].
  cbn [Main.forEach map].
  apply (logs_andThen _ _ [line f] _ (logs_info _) IH).
Qed.

Create HintDb logs.
#[local] Hint Resolve logs_pure logs_info logs_andThen logs_if logs_when
  logs_forEach : logs.

Lemma summary_logs (env : Main.ActionEnv)
    (directoryConfig : DirectoryConfig.DirectoryTypeConfig) (isDryRun : bool)
    (totalChanges : nat) (result : SynchronizeResult) :
  exists lines,
    logs (Main.summary env directoryConfig isDryRun totalChanges result) lines.
Proof.
  unfold Main.summary. eexists. eauto 30 with logs.
Qed.

(** The [catch] block writes lines of diagnostics and then fails the run
    once, with the message of the class of what was thrown. *)
Lemma handler_cases (env : Main.ActionEnv) (v : Thrown) (t : Main.ActionTrace) :
  exists lines,
    Main.handler env v t
    = (Main.Done tt, (t ++ lines) ++ [Main.SetFailed (failureMessage v)])
    /\ forallb isDiagnostic lines = true.
Proof.
  destruct v as [[m k h | m h p ssl orig | m] | s]; unfold Main.handler.
  - destruct (Main.stack_of env _); step_act; eexists;
      (split; [do 2 f_equal; rewrite <- ?app_assoc; reflexivity|reflexivity]).
  - destruct orig as [orig|]; [destruct (Main.stack_of env orig)|];
      destruct (Main.stack_of env (ConnectionError _ _ _ _ _)); step_act;
      eexists;
      (split; [do 2 f_equal; rewrite <- ?app_assoc; reflexivity|reflexivity]).
  - destruct (Main.stack_of env _); step_act; eexists;
      (split; [do 2 f_equal; rewrite <- ?app_assoc; reflexivity|reflexivity]).
  - step_act. eexists.
    split; [do 2 f_equal; rewrite <- ?app_assoc; reflexivity|reflexivity].
Qed.

Lemma logged_cons (line : jsstring) (lines : list jsstring)
    (l rest : Main.ActionTrace) :
  l = logged lines ++ rest ->
  Main.Inner (CoreInfo line) :: l = logged (line :: lines) ++ rest.
Proof. intros ->. reflexivity. Qed.

Lemma logged_nil (l rest : Main.ActionTrace) :
  l = rest -> l = logged [] ++ rest.
Proof. intros ->. reflexivity. Qed.

Lemma proceed_cases (env : Main.ActionEnv)
    (config : Synchronize.SynchronizeConfig) (t : Main.ActionTrace) :
  proceedSpec env config t (Main.proceed env config t).
Proof.
  unfold Main.proceed, Main.call.
  change (run (Synchronize.synchronizeToSymitar (Main.world env) config))
    with (orchestrate (Invoke (Main.world env) config)).
  unfold proceedSpec.
  destruct (orchestrate (Invoke (Main.world env) config)) as [[result|v] events].
  - destruct (summary_logs env
                (DirectoryConfig.getDirectoryConfig
                   (Synchronize.directoryType config))
                (Synchronize.isDryRun config)
                (DirectoryConfig.calculateTotalChanges
                   (Synchronize.directoryType config)
                   {| Symitar.deployed := deployedFiles result;
                      Symitar.deleted := deletedFiles result;
                      Symitar.installed := installedFiles result;
                      Symitar.uninstalled := uninstalledFiles result |})
                result) as [lines Hl].
    destruct (Synchronize.connectionType config);
      destruct (DirectoryConfig.supportsInstall _ && _);
      destruct (0 <? length (Synchronize.validateIgnoreList config))%nat;
      simpl_act; rewrite Hl; eexists; exists lines;
      f_equal; rewrite <- ?app_assoc; f_equal; cbn [app];
      repeat apply logged_cons; apply logged_nil; reflexivity.
  - destruct (Synchronize.connectionType config);
      destruct (DirectoryConfig.supportsInstall _ && _);
      destruct (0 <? length (Synchronize.validateIgnoreList config))%nat;
      simpl_act; eexists;
      f_equal; rewrite <- ?app_assoc; f_equal; cbn [app];
      repeat apply logged_cons; apply logged_nil; reflexivity.
Qed.

(* ------------------------------------------------------------------ *)
(** ** The entry point: a run *)

Lemma flat_map_none {A B} (f : A -> list B) (l : list A) :
  (forall a, In a l -> f a = []) -> flat_map f l = [].
Proof.
  induction l as [|a l IH]; [reflexivity|]. intros H. cbn [flat_map].
  rewrite (H a) by now left. apply IH. intros b Hb. apply H. now right.
Qed.

Lemma innerEvents_app (t u : Main.ActionTrace) :
  innerEvents (t ++ u) = innerEvents t ++ innerEvents u.
Proof. apply flat_map_app. Qed.

Lemma outputs_app (t u : Main.ActionTrace) :
  outputs (t ++ u) = outputs t ++ outputs u.
Proof. apply flat_map_app. Qed.

Lemma failures_app (t u : Main.ActionTrace) :
  failures (t ++ u) = failures t ++ failures u.
Proof. apply flat_map_app. Qed.

Lemma maskedSecrets_app (t u : Main.ActionTrace) :
  maskedSecrets (t ++ u) = maskedSecrets t ++ maskedSecrets u.
Proof. apply flat_map_app. Qed.

Lemma innerEvents_Inner (events : Trace) :
  innerEvents (map Main.Inner events) = events.
Proof.
  induction events as [|e events IH]; [reflexivity|].
  unfold innerEvents in *. cbn [map flat_map app]. now rewrite IH.
Qed.

Lemma innerEvents_logged (lines : list jsstring) :
  innerEvents (logged lines) = map CoreInfo lines.
Proof.
  induction lines as [|l lines IH]; [reflexivity|].
  unfold innerEvents, logged in *. cbn [map flat_map app]. now rewrite IH.
Qed.

(** Events of the orchestrator are no outputs, failures, reads or
    masked secrets. *)
Lemma Inner_silent (events : Trace) :
  outputs (map Main.Inner events) = []
  /\ failures (map Main.Inner events) = []
  /\ maskedSecrets (map Main.Inner events) = []
  /\ forallb (fun e => negb (isReading e)) (map Main.Inner events) = true.
Proof.
  induction events as [|e events (H1 & H2 & H3 & H4)]; [now repeat split|].
  now repeat split.
Qed.

Lemma logged_silent (lines : list jsstring) :
  outputs (logged lines) = []
  /\ failures (logged lines) = []
  /\ maskedSecrets (logged lines) = []
  /\ forallb (fun e => negb (isReading e)) (logged lines) = true.
Proof.
  unfold logged. rewrite <- (map_map CoreInfo Main.Inner). apply Inner_silent.
Qed.

Lemma reading_silent (u : Main.ActionTrace) :
  forallb isReading u = true ->
  innerEvents u = [] /\ outputs u = [] /\ failures u = [].
Proof.
  intros H. rewrite forallb_forall in H.
  repeat split; apply flat_map_none; intros e He; specialize (H e He);
    now destruct e.
Qed.

Lemma getInput_reading (u : Main.ActionTrace) :
  forallb isGetInput u = true ->
  forallb isReading u = true /\ maskedSecrets u = [].
Proof.
  intros H. rewrite forallb_forall in H. split.
  - apply forallb_forall. intros e He. specialize (H e He). now destruct e.
  - apply flat_map_none. intros e He. specialize (H e He). now destruct e.
Qed.

Lemma masking_reading (env : Main.ActionEnv) (u : Main.ActionTrace)
    (k p s : jsstring) :
  masking env u k p s -> forallb isReading u = true.
Proof. intros (-> & _). reflexivity. Qed.

Lemma diagnostic_silent (lines : Main.ActionTrace) :
  forallb isDiagnostic lines = true ->
  innerEvents lines = [] /\ outputs lines = [] /\ failures lines = []
  /\ maskedSecrets lines = []
  /\ forallb (fun e => negb (isReading e)) lines = true.
Proof.
  intros H. rewrite forallb_forall in H.
  repeat split;
    try (apply flat_map_none; intros e He; specialize (H e He); now destruct e).
  apply forallb_forall. intros e He. specialize (H e He). now destruct e.
Qed.

Lemma steps_info (lines : list jsstring) : steps (map CoreInfo lines) = [].
Proof. induction lines as [|l lines IH]; [reflexivity|exact IH]. Qed.

Lemma syncCalls_info (lines : list jsstring) :
  syncCalls (map CoreInfo lines) = [].
Proof. induction lines as [|l lines IH]; [reflexivity|exact IH]. Qed.

(** A run is its three parts in sequence. *)
Lemma run_unfold (env : Main.ActionEnv) :
  Main.run env []
  = match Main.configure env [] with
    | (Main.Done config, t) =>
        match Main.proceed env config t with
        | (Main.Raised v, t') => Main.handler env v t'
        | other => other
        end
    | (Main.Raised v, t) => Main.handler env v t
    | (Main.Unmodelled, t) => (Main.Unmodelled, t)
    end.
Proof.
  unfold Main.run, Main.tryCatch, Main.andThen.
  destruct (Main.configure env []) as [[config|v|] t]; reflexivity.
Qed.

Lemma run_shape (env : Main.ActionEnv) : RunShape env (Main.run env []).
Proof.
  rewrite run_unfold. pose proof (configure_cases env []) as (u & Eu & H).
  destruct (Main.configure env []) as [[config|v|] t] eqn:Ec;
    cbn [fst snd app] in Eu, H; subst t.
  - destruct H as [Hv Hm].
    pose proof (proceed_cases env config u) as Hp. unfold proceedSpec in Hp.
    destruct (orchestrate (Invoke (Main.world env) config))
      as [[result|v] events] eqn:Eo.
    + destruct Hp as (announce & summaryLines & ->).
      eapply RunSynchronized; [rewrite Ec; reflexivity | eassumption ..].
    + destruct Hp as (announce & ->).
      destruct (handler_cases env v
                  (u ++ logged announce ++ map Main.Inner events))
        as (lines & -> & Hl).
      eapply RunFailed; [rewrite Ec; reflexivity | eassumption ..].
  - destruct (handler_cases env v u) as (lines & -> & Hl).
    destruct H as [[Hu (name & required & Hn)] | (k & p & s & Hm)].
    + eapply RunUnread; [rewrite Ec; reflexivity | eassumption ..].
    + eapply RunRefused; [rewrite Ec; reflexivity | eassumption ..].
  - destruct H as (k & p & s & Hm).
    eapply RunInherited; [rewrite Ec; reflexivity | eassumption].
Qed.

(** X18. A run never throws: whatever goes wrong inside the [try] block
    is caught.  It reports exactly once: either it fails the run with one
    message and sets no output, or it sets the four outputs, once each and
    in the order deployed, deleted, installed, uninstalled, and does not
    fail the run.  Nothing is said of a run whose directory type names a
    member of [Object.prototype], where the embedding stops. *)
Theorem run_reports_once (env : Main.ActionEnv) :
  match fst (Main.run env []) with
  | Main.Done _ =>
      (exists message,
          failures (snd (Main.run env [])) = [message]
          /\ outputs (snd (Main.run env [])) = [])
      \/ (exists result,
             failures (snd (Main.run env [])) = []
             /\ outputs (snd (Main.run env [])) = resultOutputs result)
  | Main.Raised _ => False
  | Main.Unmodelled => True
  end.
Proof.
  destruct (run_shape env) as
    [u lines v name required _ Hu _ Hl | u lines v k p s _ Hm Hl
    | u k p s _ Hm | u lines config announce v events _ _ Hm _ Hl
    | u config announce summaryLines result events _ _ Hm _];
    cbn [fst snd].
  - apply getInput_reading in Hu as [Hu _].
    apply reading_silent in Hu as (_ & Ho & Hf).
    apply diagnostic_silent in Hl as (_ & Ho' & Hf' & _).
    left. eexists. rewrite !failures_app, !outputs_app, Hf, Hf', Ho, Ho'.
    split; reflexivity.
  - apply masking_reading in Hm. apply reading_silent in Hm as (_ & Ho & Hf).
    apply diagnostic_silent in Hl as (_ & Ho' & Hf' & _).
    left. eexists. rewrite !failures_app, !outputs_app, Hf, Hf', Ho, Ho'.
    split; reflexivity.
  - exact I.
  - apply masking_reading in Hm. apply reading_silent in Hm as (_ & Ho & Hf).
    apply diagnostic_silent in Hl as (_ & Ho' & Hf' & _).
    destruct (logged_silent announce) as (Ho1 & Hf1 & _).
    destruct (Inner_silent events) as (Ho2 & Hf2 & _).
    left. eexists.
    rewrite !failures_app, !outputs_app, Hf, Hf', Ho, Ho', Ho1, Hf1, Ho2, Hf2.
    split; reflexivity.
  - apply masking_reading in Hm. apply reading_silent in Hm as (_ & Ho & Hf).
    destruct (logged_silent announce) as (Ho1 & Hf1 & _).
    destruct (logged_silent summaryLines) as (Ho3 & Hf3 & _).
    destruct (Inner_silent events) as (Ho2 & Hf2 & _).
    right. exists result.
    rewrite !failures_app, !outputs_app, Hf, Ho, Ho1, Hf1, Ho2, Hf2, Ho3, Hf3.
    split; reflexivity.
Qed.

(** X19. When an input is missing or fails a check, nothing leaves the
    runner: no line of [core.info] is written, no request goes to the
    license server and no client is constructed.  The run sets no output
    and fails once, with the message of the check (for an instance of
    [Error], its own message). *)
Theorem invalid_input_stays_offline (env : Main.ActionEnv) (v : Thrown) :
  fst (Main.configure env []) = Main.Raised v ->
  fst (Main.run env []) = Main.Done tt
  /\ innerEvents (snd (Main.run env [])) = []
  /\ outputs (snd (Main.run env [])) = []
  /\ failures (snd (Main.run env [])) = [failureMessage v].
Proof.
  intros Hc.
  destruct (run_shape env) as
    [u lines v' name required Hc' Hu _ Hl | u lines v' k p s Hc' Hm Hl
    | u k p s Hc' Hm | u lines config announce v' events Hc' _ Hm _ Hl
    | u config announce summaryLines result events Hc' _ Hm _];
    rewrite Hc in Hc'; try discriminate; injection Hc' as <-; cbn [fst snd].
  - apply getInput_reading in Hu as [Hu _].
    apply reading_silent in Hu as (Hi & Ho & Hf).
    apply diagnostic_silent in Hl as (Hi' & Ho' & Hf' & _).
    rewrite !failures_app, !outputs_app, !innerEvents_app,
      Hi, Hi', Hf, Hf', Ho, Ho'.
    now repeat split.
  - apply masking_reading in Hm. apply reading_silent in Hm as (Hi & Ho & Hf).
    apply diagnostic_silent in Hl as (Hi' & Ho' & Hf' & _).
    rewrite !failures_app, !outputs_app, !innerEvents_app,
      Hi, Hi', Hf, Hf', Ho, Ho'.
    now repeat split.
Qed.

Lemma invalid_input_stays_offline_witness :
  fst (Main.run env_bad_port []) = Main.Done tt
  /\ innerEvents (snd (Main.run env_bad_port [])) = []
  /\ outputs (snd (Main.run env_bad_port [])) = []
  /\ failures (snd (Main.run env_bad_port [])) = [failureMessage invalid_ssh_port].
Proof.
  apply (invalid_input_stays_offline env_bad_port invalid_ssh_port).
  vm_compute. reflexivity.
Defined.

(** X20. When the inputs pass the checks, the run calls the orchestrator
    exactly once, with the configuration made of them, and everything
    else it sends out is lines of [core.info] before and after.  When the
    orchestrator returns, the outputs are the four counts of its result
    and the run does not fail; when it throws, no output is set and the
    run fails once, with ["API key validation failed: ..."] for an
    [AuthenticationError], ["Failed to connect to license server: ..."]
    for a [ConnectionError], and otherwise the message of the error or
    the thrown value as a string. *)
Theorem run_reports_orchestrator (env : Main.ActionEnv)
    (config : Synchronize.SynchronizeConfig) :
  fst (Main.configure env []) = Main.Done config ->
  fst (Main.run env []) = Main.Done tt
  /\ (exists before after,
         innerEvents (snd (Main.run env []))
         = map CoreInfo before
             ++ snd (orchestrate (Invoke (Main.world env) config))
             ++ map CoreInfo after)
  /\ outputs (snd (Main.run env []))
     = match fst (orchestrate (Invoke (Main.world env) config)) with
       | Returns result => resultOutputs result
       | Throws _ => []
       end
  /\ failures (snd (Main.run env []))
     = match fst (orchestrate (Invoke (Main.world env) config)) with
       | Returns _ => []
       | Throws v => [failureMessage v]
       end.
Proof.
  intros Hc.
  destruct (run_shape env) as
    [u lines v' name required Hc' Hu _ Hl | u lines v' k p s Hc' Hm Hl
    | u k p s Hc' Hm | u lines config' announce v' events Hc' _ Hm Ho Hl
    | u config' announce summaryLines result events Hc' _ Hm Ho];
    rewrite Hc in Hc'; try discriminate; injection Hc' as <-;
    rewrite Ho; cbn [fst snd].
  - apply masking_reading in Hm. apply reading_silent in Hm as (Hi & Hu & Hf).
    apply diagnostic_silent in Hl as (Hi' & Ho' & Hf' & _).
    destruct (logged_silent announce) as (Ho1 & Hf1 & _).
    destruct (Inner_silent events) as (Ho2 & Hf2 & _).
    rewrite !failures_app, !outputs_app, !innerEvents_app, innerEvents_logged,
      innerEvents_Inner, Hi, Hi', Hf, Hf', Hu, Ho', Ho1, Hf1, Ho2, Hf2.
    repeat split. exists announce, []. cbn [app map]. now rewrite !app_nil_r.
  - apply masking_reading in Hm. apply reading_silent in Hm as (Hi & Hu & Hf).
    destruct (logged_silent announce) as (Ho1 & Hf1 & _).
    destruct (logged_silent summaryLines) as (Ho3 & Hf3 & _).
    destruct (Inner_silent events) as (Ho2 & Hf2 & _).
    rewrite !failures_app, !outputs_app, !innerEvents_app, !innerEvents_logged,
      innerEvents_Inner, Hi, Hf, Hu, Ho1, Hf1, Ho2, Hf2, Ho3, Hf3.
    repeat split. exists announce, summaryLines. reflexivity.
Qed.

Lemma run_reports_orchestrator_witness :
  fst (Main.run env_licensed []) = Main.Done tt
  /\ (exists before after,
         innerEvents (snd (Main.run env_licensed []))
         = map CoreInfo before
             ++ snd (orchestrate
                       (Invoke (Main.world env_licensed) sampleConfiguration))
             ++ map CoreInfo after)
  /\ outputs (snd (Main.run env_licensed []))
     = match fst (orchestrate
                    (Invoke (Main.world env_licensed) sampleConfiguration)) with
       | Returns result => resultOutputs result
       | Throws _ => []
       end
  /\ failures (snd (Main.run env_licensed []))
     = match fst (orchestrate
                    (Invoke (Main.world env_licensed) sampleConfiguration)) with
       | Returns _ => []
       | Throws v => [failureMessage v]
       end.
Proof.
  apply (run_reports_orchestrator env_licensed sampleConfiguration).
  vm_compute. reflexivity.
Defined.

(** X21. The three secrets are masked before anything is written: unless
    a read of an input throws (then no secret is masked, nothing is logged
    with [core.info], and the run fails with the message of what the read
    threw), the run begins with the reads of the seventeen inputs, in the
    order of the source, followed by [setSecret] of the API key, the
    Symitar user password and the SSH password as they were read; every
    line of log, every event of the orchestrator, every output and the
    failure message come after, and no input is read and no secret masked
    again.  (Where the directory type names a member of
    [Object.prototype], this holds of the run as far as it is embedded:
    the reads and the masking.) *)
Theorem run_masks_secrets_first (env : Main.ActionEnv) :
  (maskedSecrets (snd (Main.run env [])) = []
   /\ innerEvents (snd (Main.run env [])) = []
   /\ exists name required v,
        Main.getInput env name required = Throws v
        /\ failures (snd (Main.run env [])) = [failureMessage v])
  \/ (exists apiKey symitarUserPassword sshPassword rest,
         snd (Main.run env [])
         = inputReads
             ++ [Main.SetSecret apiKey; Main.SetSecret symitarUserPassword;
                 Main.SetSecret sshPassword]
             ++ rest
         /\ forallb (fun e => negb (isReading e)) rest = true
         /\ Main.getInput env (js "api-key") true = Returns apiKey
         /\ Main.getInput env (js "symitar-user-password") true
            = Returns symitarUserPassword
         /\ Main.getInput env (js "ssh-password") true = Returns sshPassword).
Proof.
  destruct (run_shape env) as
    [u lines v name required _ Hu Hn Hl | u lines v k p s _ Hm Hl
    | u k p s _ Hm | u lines config announce v events _ _ Hm _ Hl
    | u config announce summaryLines result events _ _ Hm _];
    cbn [fst snd].
  - left. apply getInput_reading in Hu as [Hu Hs].
    apply reading_silent in Hu as (Hi & _ & Hf).
    apply diagnostic_silent in Hl as (Hi' & _ & Hf' & Hs' & _).
    rewrite !maskedSecrets_app, !innerEvents_app, !failures_app,
      Hs, Hs', Hi, Hi', Hf, Hf'.
    repeat split. now exists name, required, v.
  - right. destruct Hm as (-> & Hk & Hp & Hs).
    apply diagnostic_silent in Hl as (_ & _ & _ & _ & Hr).
    exists k, p, s, (lines ++ [Main.SetFailed (failureMessage v)]).
    rewrite <- !app_assoc. repeat split; try assumption.
    rewrite forallb_app, Hr. reflexivity.
  - right. destruct Hm as (-> & Hk & Hp & Hs).
    exists k, p, s, []. rewrite app_nil_r. now repeat split.
  - right. destruct Hm as (-> & Hk & Hp & Hs).
    apply diagnostic_silent in Hl as (_ & _ & _ & _ & Hr).
    destruct (logged_silent announce) as (_ & _ & _ & Hr1).
    destruct (Inner_silent events) as (_ & _ & _ & Hr2).
    eexists _, _, _,
      (logged announce ++ map Main.Inner events ++ lines
         ++ [Main.SetFailed (failureMessage v)]).
    rewrite <- !app_assoc. repeat split; try eassumption.
    rewrite !forallb_app, Hr, Hr1, Hr2. reflexivity.
  - right. destruct Hm as (-> & Hk & Hp & Hs).
    destruct (logged_silent announce) as (_ & _ & _ & Hr1).
    destruct (logged_silent summaryLines) as (_ & _ & _ & Hr3).
    destruct (Inner_silent events) as (_ & _ & _ & Hr2).
    eexists _, _, _,
      (logged announce ++ map Main.Inner events ++ outputEvents result
         ++ logged summaryLines).
    rewrite <- !app_assoc. repeat split; try eassumption.
    rewrite !forallb_app, Hr1, Hr2, Hr3. reflexivity.
Qed.





Lemma orElse_empty (value : jsstring) : Main.orElse value [] = value.
Proof. now destruct value. Qed.

Lemma configure_reads (env : Main.ActionEnv) (t : Main.ActionTrace) :
  configureReadsSpec env (Main.configure env t).
Proof.
  unfold Main.configure. exec_act.
  all: unfold configureReadsSpec; cbn [fst]; try exact I.
  all: repeat match goal with
              | H : jsstring_eqb _ _ = true |- _ =>
                  apply jsstring_eqb_eq in H; subst
              | H : DirectoryConfigKeys.ownKey _ = Some _ |- _ =>
                  apply ownKey_Some in H; subst
              end.
  all: unfold fromInputs, inputOf;
    cbn [Synchronize.symitarHostname Synchronize.symNumber
           Synchronize.symitarUserNumber Synchronize.symitarUserPassword
           Synchronize.sshUsername Synchronize.sshPassword Synchronize.sshPort
           Synchronize.symitarAppPort Synchronize.apiKey
           Synchronize.localDirectoryPath Synchronize.directoryType
           Synchronize.connectionType Synchronize.syncMode Synchronize.isDryRun
           Synchronize.installPowerOnList Synchronize.validateIgnoreList
           Synchronize.debug].
  all: rewrite ?orElse_empty.
  all: repeat split;
    first [ assumption
          | eexists; split; [eassumption|];
            first [ reflexivity | assumption | symmetry; assumption
                  | match goal with
                    | |- DirectoryConfig.getLocalDirectoryPath _ _ = _ =>
                        unfold DirectoryConfig.getLocalDirectoryPath;
                        match goal with
                        | |- context [truthy ?raw] => now destruct raw
                        end
                    end ] ].
Qed.

(** X24. A configuration made by the entry point gives back the inputs:
    its directory type, connection type and sync mode are the values
    whose names the inputs held, letter for letter; the host, the user
    names, the passwords and the API key are the inputs as read.  The
    dry-run and debug flags hold only for the input ["true"]; an empty
    [ssh-port] stands for 22; the application port is read over HTTPS
    only; an empty [local-directory-path] stands for the default path of
    the directory type; the two lists are the parsed inputs. *)
Theorem configuration_from_inputs (env : Main.ActionEnv)
    (config : Synchronize.SynchronizeConfig) (t : Main.ActionTrace) :
  fst (Main.configure env t) = Main.Done config -> fromInputs env config.
Proof.
  intros H. pose proof (configure_reads env t) as Hr.
  unfold configureReadsSpec in Hr. now rewrite H in Hr.
Qed.

Lemma configuration_from_inputs_witness :
  fromInputs env_licensed sampleConfiguration.
Proof.
  apply (configuration_from_inputs env_licensed sampleConfiguration []).
  vm_compute. reflexivity.
Defined.

Lemma validated_reaches (config : Synchronize.SynchronizeConfig) :
  validated config ->
  reachesConstruction (Synchronize.connectionType config)
    (Synchronize.symitarAppPort config) = true.
Proof.
  intros (_ & _ & _ & Hp & _). unfold reachesConstruction.
  destruct (Synchronize.connectionType config); [|reflexivity].
  destruct Hp as (port & -> & Hport). cbn [port_missing negb].
  destruct (Z.eqb_spec port 0); [lia|reflexivity].
Qed.

(** What a run with checked inputs sends out: lines of log around the
    events of one invocation of the orchestrator. *)
Lemma run_inner_events (env : Main.ActionEnv)
    (config : Synchronize.SynchronizeConfig) :
  fst (Main.configure env []) = Main.Done config ->
  validated config
  /\ exists before after,
       innerEvents (snd (Main.run env []))
       = map CoreInfo before
           ++ snd (orchestrate (Invoke (Main.world env) config))
           ++ map CoreInfo after.
Proof.
  intros Hc.
  destruct (run_shape env) as
    [u lines v' name required Hc' Hu _ Hl | u lines v' k p s Hc' Hm Hl
    | u k p s Hc' Hm | u lines config' announce v' events Hc' Hv Hm Ho Hl
    | u config' announce summaryLines result events Hc' Hv Hm Ho];
    rewrite Hc in Hc'; try discriminate; injection Hc' as <-;
    rewrite Ho; cbn [fst snd]; (split; [exact Hv|]).
  - apply masking_reading in Hm. apply reading_silent in Hm as (Hi & _).
    apply diagnostic_silent in Hl as (Hi' & _).
    rewrite !innerEvents_app, innerEvents_logged, innerEvents_Inner, Hi, Hi'.
    exists announce, []. cbn [app map]. now rewrite !app_nil_r.
  - apply masking_reading in Hm. apply reading_silent in Hm as (Hi & _).
    rewrite !innerEvents_app, !innerEvents_logged, innerEvents_Inner, Hi.
    exists announce, summaryLines. reflexivity.
Qed.

(** X25. The outside steps of a run with checked inputs, end to end: at
    most three requests to the license server; then, exactly when the
    key validated, the construction of one client, over SSH the wait for
    its readiness, the synchronize call when the client is ready, and the
    teardown.  The synchronize primitive is called at most once, with the
    call the configuration asks for. *)
Theorem run_steps (env : Main.ActionEnv)
    (config : Synchronize.SynchronizeConfig) :
  fst (Main.configure env []) = Main.Done config ->
  steps (innerEvents (snd (Main.run env [])))
  = repeat LicenseRequest
      (fetchCalls
         (snd (run (Subscription.validateApiKey (Main.world env)
                      (Synchronize.apiKey config)))))
    ++ (if returns
             (fst (run (Subscription.validateApiKey (Main.world env)
                          (Synchronize.apiKey config))))
        then clientSteps (Main.world env) (Synchronize.connectionType config)
        else [])
  /\ (fetchCalls
        (snd (run (Subscription.validateApiKey (Main.world env)
                     (Synchronize.apiKey config)))) <= 3)%nat
  /\ syncCalls (innerEvents (snd (Main.run env [])))
     = if returns
            (fst (run (Subscription.validateApiKey (Main.world env)
                         (Synchronize.apiKey config))))
          && synchronizes (Main.world env) (Synchronize.connectionType config)
       then [intendedCall (Invoke (Main.world env) config)]
       else [].
Proof.
  intros Hc. destruct (run_inner_events env config Hc)
    as (Hv & before & after & ->).
  apply validated_reaches in Hv.
  pose proof (orchestrate_steps (Invoke (Main.world env) config)) as [Hs Hn].
  pose proof (orchestrate_syncCalls (Invoke (Main.world env) config)) as Hy.
  unfold constructsClient in Hs, Hy.
  cbn [world_of apiKey_of connectionType_of symitarAppPort_of] in Hs, Hn, Hy.
  rewrite Hv, andb_true_r in Hs, Hy.
  rewrite !steps_app, !syncCalls_app, !steps_info, !syncCalls_info, Hs, Hy.
  cbn [app]. rewrite !app_nil_r. now repeat split.
Qed.

Lemma run_steps_witness :
  steps (innerEvents (snd (Main.run env_licensed [])))
  = repeat LicenseRequest
      (fetchCalls
         (snd (run (Subscription.validateApiKey (Main.world env_licensed)
                      (Synchronize.apiKey sampleConfiguration)))))
    ++ (if returns
             (fst (run (Subscription.validateApiKey (Main.world env_licensed)
                          (Synchronize.apiKey sampleConfiguration))))
        then clientSteps (Main.world env_licensed)
               (Synchronize.connectionType sampleConfiguration)
        else [])
  /\ (fetchCalls
        (snd (run (Subscription.validateApiKey (Main.world env_licensed)
                     (Synchronize.apiKey sampleConfiguration)))) <= 3)%nat
  /\ syncCalls (innerEvents (snd (Main.run env_licensed [])))
     = if returns
            (fst (run (Subscription.validateApiKey (Main.world env_licensed)
                         (Synchronize.apiKey sampleConfiguration))))
          && synchronizes (Main.world env_licensed)
               (Synchronize.connectionType sampleConfiguration)
       then [intendedCall (Invoke (Main.world env_licensed) sampleConfiguration)]
       else [].
Proof.
  apply (run_steps env_licensed sampleConfiguration).
  vm_compute. reflexivity.
Defined.
